(** * Swagger 2.0 adapter ([src/adapter.js]): position resolver, parameter
      classifier and element-tree builder, embedded as Rocq functions.

    JavaScript values are a first-order tree type, strings are Rocq strings
    (one [ascii] per UTF-16 unit, so the model covers ASCII text), numbers
    are integers.  A JavaScript object is the list of its own enumerable
    properties in enumeration order; property names in one object are
    distinct.  Exceptions and non-termination are explicit outcomes. *)

From Stdlib Require Import List String Ascii ZArith Lia Bool Arith.
From Stdlib Require Import Numbers.DecimalString.
Import ListNotations.
Set Warnings "-register-all".
Open Scope string_scope.
Open Scope list_scope.

(** ** Outcomes of running JavaScript code *)

Inductive outcome (A : Type) : Type :=
| Ret (a : A)      (* normal completion *)
| Throw            (* a TypeError was thrown *)
| Timeout          (* the loop budget ran out: the code was still running *)
| Unsupported.     (* the run leaves the JavaScript the embedding covers *)
Arguments Ret {A} a.
Arguments Throw {A}.
Arguments Timeout {A}.
Arguments Unsupported {A}.

Definition bind {A B} (m : outcome A) (f : A -> outcome B) : outcome B :=
  match m with
  | Ret a => f a
  | Throw => Throw
  | Timeout => Timeout
  | Unsupported => Unsupported
  end.

Declare Scope js_scope.
Delimit Scope js_scope with js.
Notation "x <- m ;; k" := (bind m (fun x => k))
  (at level 61, m at next level, right associativity) : js_scope.
Open Scope js_scope.

(** ** Strings *)

Definition nonempty (s : string) : bool :=
  match s with EmptyString => false | String _ _ => true end.

(** [s.split(sep)] for a one-character separator. *)
Fixpoint split (sep : ascii) (s : string) : list string :=
  match s with
  | EmptyString => [EmptyString]
  | String c s' =>
      if Ascii.eqb c sep then EmptyString :: split sep s'
      else match split sep s' with
           | [] => [String c EmptyString]
           | p :: ps => String c p :: ps
           end
  end.

(** [s.substr(n)] *)
Fixpoint substr (n : nat) (s : string) : string :=
  match n, s with
  | O, _ => s
  | S n', String _ s' => substr n' s'
  | S _, EmptyString => EmptyString
  end.

(** [s.indexOf(p) === 0] *)
Definition starts_with (p s : string) : bool := String.prefix p s.

Definition is_digit (c : ascii) : bool :=
  let n := nat_of_ascii c in ((48 <=? n)%nat && (n <=? 57)%nat)%bool.

Definition digit_value (c : ascii) : nat := nat_of_ascii c - 48.

(** The characters [.] does not match in a regular expression. *)
Definition is_line_terminator (c : ascii) : bool :=
  (Ascii.eqb c "010"%char || Ascii.eqb c "013"%char)%bool.

Fixpoint drop_digits (l : list ascii) : list ascii :=
  match l with
  | c :: l' => if is_digit c then drop_digits l' else l
  | [] => []
  end.

(** The reversed text up to (not including) the first line terminator. *)
Fixpoint until_line_terminator (l : list ascii) : list ascii :=
  match l with
  | c :: l' => if is_line_terminator c then [] else c :: until_line_terminator l'
  | [] => []
  end.

(** [piece.match(re)] for the pattern of [getPosition]: any text (group 1),
    an opening bracket, a one-digit group (group 2) repeated one or more
    times, a closing bracket, the end of the text.  The result is
    [Some (match[1], parseInt(match[2], 10))].  Group 1 is what precedes the
    bracket on its last line; group 2, being repeated, holds the digit of its
    last repetition only. *)
Definition match_index (piece : string) : option (string * nat) :=
  match rev (list_ascii_of_string piece) with
  | "]"%char :: d :: before =>
      if is_digit d then
        match drop_digits before with
        | "["%char :: prefix =>
            Some (string_of_list_ascii (rev (until_line_terminator prefix)),
                  digit_value d)
        | _ => None
        end
      else None
  | _ => None
  end.

(** ** The composed YAML AST (yaml-js nodes)

    A mark is represented by its [pointer]. *)

Inductive node : Type :=
| ScalarNode (value : string) (start_mark end_mark : Z)
| SequenceNode (value : list node) (start_mark end_mark : Z)
| MappingNode (value : list (node * node)) (start_mark end_mark : Z).

Definition start_pointer (n : node) : Z :=
  match n with
  | ScalarNode _ s _ | SequenceNode _ s _ | MappingNode _ s _ => s
  end.

Definition end_pointer (n : node) : Z :=
  match n with
  | ScalarNode _ _ e | SequenceNode _ _ e | MappingNode _ _ e => e
  end.

(** What the variable [node] of [getPosition] can hold: an AST node, or,
    after indexing into a mapping or a scalar, a key/value pair or a
    one-character string. *)
Inductive cursor : Type :=
| AtNode (n : node)
| AtPair (k v : node)
| AtChar (c : ascii).

(** [v.value[index]]; [None] is [undefined]. *)
Definition item_at (v : node) (index : nat) : option cursor :=
  match v with
  | SequenceNode items _ _ => option_map AtNode (nth_error items index)
  | MappingNode pairs _ _ =>
      option_map (fun kv => AtPair (fst kv) (snd kv)) (nth_error pairs index)
  | ScalarNode s _ _ => option_map AtChar (String.get index s)
  end.

(** [subNode[0] && subNode[0].value === piece] *)
Definition key_is (k : node) (piece : string) : bool :=
  match k with
  | ScalarNode v _ _ => String.eqb v piece
  | _ => false
  end.

(** [subNode[1].value.indexOf('#') === 0]: on a sequence or mapping node
    [indexOf] is the array method, which finds no string among nodes. *)
Definition is_internal_ref (v : node) : bool :=
  match v with
  | ScalarNode s _ _ => starts_with "#" s
  | _ => false
  end.

(** [subNode[1].value.substr(2).split('/')] *)
Definition refPaths (v : node) : list string :=
  match v with
  | ScalarNode s _ _ => split "/"%char (substr 2 s)
  | _ => []
  end.

(** The pairs [for (const subNode of node.value)] can match: the pairs of a
    mapping; the items of a sequence and the characters of a scalar have no
    matching [subNode[0].value]; a pair or a character has no iterable
    [value] and the loop throws. *)
Definition subNodes (c : cursor) : option (list (node * node)) :=
  match c with
  | AtNode (MappingNode pairs _ _) => Some pairs
  | AtNode _ => Some []
  | AtPair _ _ | AtChar _ => None
  end.

(** ** Position resolver: [getPosition] *)

Inductive position : Type :=
| NotFound                          (* [null] *)
| Range (start end_ : option Z).    (* [{start, end}]; [None] is [undefined] *)

Inductive path : Type :=
| PathString (s : string)
| PathArray (l : list string).

(** [_.isArray(path) ? path.splice(0) : path.split('.')] ([splice] also
    empties the array the caller passed). *)
Definition pieces_of (p : path) : list string :=
  match p with
  | PathString s => split "."%char s
  | PathArray l => l
  end.

(** One pass of the [for] loop over the children of the current node. *)
Inductive step : Type :=
| Stop (r : outcome position)
| Continue (node : cursor) (pieces : list string).

Fixpoint scan (ast : node) (piece : string) (index : option nat)
    (pieces : list string) (children : list (node * node)) : step :=
  match children with
  | [] => Stop (Ret NotFound)
  | (k, v) :: more =>
      if key_is k piece then
        match pieces with
        | _ :: _ =>
            match index with
            | None => Continue (AtNode v) pieces
            | Some i =>
                match item_at v i with
                | Some c => Continue c pieces
                | None => Stop (Ret NotFound)
                end
            end
        | [] =>
            (* This is the last item! *)
            match index with
            | Some i =>
                match item_at v i with
                | Some (AtNode n) =>
                    Stop (Ret (Range (Some (start_pointer n)) (Some (end_pointer n))))
                | _ => Stop Throw
                end
            | None =>
                Stop (Ret (Range (Some (start_pointer k)) (Some (end_pointer v))))
            end
        end
      else if key_is k "$ref" then
        if is_internal_ref v then
          Continue (AtNode ast) (refPaths v ++ piece :: pieces)
        else scan ast piece index pieces more
      else scan ast piece index pieces more
  end.

(** The segment and the index a loop pass works with: [match[1]] and
    [parseInt(match[2], 10)] when the pattern matches, else the piece as it
    is and no index. *)
Definition stripped (piece : string) : string * option nat :=
  match match_index piece with
  | Some (p, i) => (p, Some i)
  | None => (piece, None)
  end.

(** The [while (piece)] loop.  [start] and [end] are assigned only on the
    last piece, right before the loop exits, so leaving the loop on an
    empty or missing piece returns them undefined. *)
Fixpoint walk (fuel : nat) (ast : node) (node : cursor) (pieces : list string)
    : outcome position :=
  match pieces with
  | [] => Ret (Range None None)
  | piece :: pieces' =>
      if nonempty piece then
        match fuel with
        | O => Timeout
        | S fuel' =>
            match subNodes node with
            | None => Throw
            | Some children =>
                match scan ast (fst (stripped piece)) (snd (stripped piece))
                        pieces' children with
                | Stop r => r
                | Continue node' pieces'' => walk fuel' ast node' pieces''
                end
            end
        end
      else Ret (Range None None)
  end.

Definition getPosition (fuel : nat) (ast : node) (p : path) : outcome position :=
  walk fuel ast (AtNode ast) (pieces_of p).

(** ** JavaScript values

    The documents the adapter reads: what [yaml.safeLoad] returns or the
    caller passes in, and the values the code itself builds. *)

Inductive value : Type :=
| Undefined
| Null
| NaN
| Bool (b : bool)
| Num (n : Z)
| Str (s : string)
| Arr (items : list value)
| Obj (fields : list (string * value)).

Definition truthy (v : value) : bool :=
  match v with
  | Undefined | Null | NaN => false
  | Bool b => b
  | Num n => negb (Z.eqb n 0)
  | Str s => nonempty s
  | Arr _ | Obj _ => true
  end.

Definition nat_to_string (n : nat) : string :=
  NilZero.string_of_uint (Nat.to_uint n).

Definition Z_to_string (n : Z) : string :=
  NilZero.string_of_int (Z.to_int n).

Fixpoint lookup (k : string) (fields : list (string * value)) : value :=
  match fields with
  | [] => Undefined
  | (k', v) :: rest => if String.eqb k' k then v else lookup k rest
  end.

Definition has_key (k : string) (fields : list (string * value)) : bool :=
  existsb (fun kv => String.eqb (fst kv) k) fields.

(** [obj[k] = v] on a plain object: an existing property keeps its place,
    a new one comes last (the names written by the adapter are not
    integer-like). *)
Fixpoint assign (k : string) (v : value) (fields : list (string * value))
    : list (string * value) :=
  match fields with
  | [] => [(k, v)]
  | (k', v') :: rest =>
      if String.eqb k' k then (k', v) :: rest else (k', v') :: assign k v rest
  end.

(** The item with property name [k] of an array, counting from [i]. *)
Fixpoint item_named (k : string) (i : nat) (items : list value) : value :=
  match items with
  | [] => Undefined
  | x :: rest =>
      if String.eqb (nat_to_string i) k then x else item_named k (S i) rest
  end.

Fixpoint char_named (k : string) (i : nat) (s : string) : value :=
  match s with
  | EmptyString => Undefined
  | String c rest =>
      if String.eqb (nat_to_string i) k then Str (String c EmptyString)
      else char_named k (S i) rest
  end.

(** [v[k]], also written [v.k].  The names the adapter reads are no
    prototype members other than [length]. *)
Definition prop (v : value) (k : string) : outcome value :=
  match v with
  | Undefined | Null => Throw
  | Obj fields => Ret (lookup k fields)
  | Arr items =>
      if String.eqb k "length" then Ret (Num (Z.of_nat (List.length items)))
      else Ret (item_named k 0 items)
  | Str s =>
      if String.eqb k "length" then Ret (Num (Z.of_nat (String.length s)))
      else Ret (char_named k 0 s)
  | NaN | Bool _ | Num _ => Ret Undefined
  end.

(** [a === b]: by value on primitives; two arrays or objects are equal only
    when they are the same object, which a tree of values does not record,
    and [NaN] equals nothing. *)
Definition strict_eq (a b : value) : bool :=
  match a, b with
  | Undefined, Undefined => true
  | Null, Null => true
  | Bool x, Bool y => Bool.eqb x y
  | Num x, Num y => Z.eqb x y
  | Str x, Str y => String.eqb x y
  | _, _ => false
  end.

Definition is_str (s : string) (v : value) : bool := strict_eq v (Str s).

(** [v > n] for a constant [n >= 0].  A string, array or object operand is
    first converted to a number, which the embedding does not cover. *)
Definition greater_than (v : value) (n : Z) : outcome bool :=
  match v with
  | Num k => Ret (Z.ltb n k)
  | Bool b => Ret (Z.ltb n (if b then 1 else 0))
  | Null => Ret (Z.ltb n 0)
  | Undefined | NaN => Ret false
  | Str _ | Arr _ | Obj _ => Unsupported
  end.

Definition index_entries {A} (l : list A) : list (string * A) :=
  combine (map nat_to_string (seq 0 (List.length l))) l.

Fixpoint chars (s : string) : list value :=
  match s with
  | EmptyString => []
  | String c rest => Str (String c EmptyString) :: chars rest
  end.

Definition MAX_ARRAY_INDEX : Z := 2 ^ 53 - 1.

(** The (key, value) pairs [_.each(v, callback)] visits (underscore 1.8):
    by index when [v] has a numeric [length], by own key otherwise. *)
Definition each_entries (v : value) : list (string * value) :=
  match v with
  | Arr items => index_entries items
  | Str s => index_entries (chars s)
  | Obj fields =>
      match lookup "length" fields with
      | Num n =>
          if (Z.leb 0 n && Z.leb n MAX_ARRAY_INDEX)%bool then
            map (fun i => (nat_to_string i, lookup (nat_to_string i) fields))
                (seq 0 (Z.to_nat n))
          else fields
      | _ => fields
      end
  | Undefined | Null | NaN | Bool _ | Num _ => []
  end.

(** [_.allKeys(v)] with the values: the enumerable properties of an object
    or array; a primitive has none. *)
Definition all_entries (v : value) : list (string * value) :=
  match v with
  | Obj fields => fields
  | Arr items => index_entries items
  | _ => []
  end.

(** [_.omit(v, predicate)] and [_.omit(v, key, ...)]: always a new plain
    object. *)
Definition omit_by (p : string -> bool) (v : value) : list (string * value) :=
  filter (fun kv => negb (p (fst kv))) (all_entries v).

Definition omit_keys (keys : list string) (v : value) : list (string * value) :=
  omit_by (fun k => existsb (String.eqb k) keys) v.

(** [isExtension(value, key)] *)
Definition isExtension (key : string) : bool := starts_with "x-" key.

(** String conversion in a template literal.  Integers print in decimal
    (JavaScript switches to exponent form from 1e21 on, which is not
    covered). *)
Fixpoint to_string (v : value) : string :=
  match v with
  | Undefined => "undefined"
  | Null => "null"
  | NaN => "NaN"
  | Bool true => "true"
  | Bool false => "false"
  | Num n => Z_to_string n
  | Str s => s
  | Arr items =>
      String.concat ","
        (map (fun x => match x with
                       | Undefined | Null => ""
                       | _ => to_string x
                       end) items)
  | Obj _ => "[object Object]"
  end.

(** ** Refract elements (the minim classes the adapter instantiates)

    An element has a name, a [meta] and an [attributes] map, and a content:
    nothing, a primitive, a list of elements, or the key and value of a
    member. *)

Inductive element : Type :=
| Element (name : string) (meta attributes : list (string * element))
    (content : content)
with content : Type :=
| CUndefined
| CValue (v : value)
| CElements (items : list element)
| CMember (key value : option element).

Definition element_name (e : element) : string :=
  match e with Element n _ _ _ => n end.
Definition meta (e : element) : list (string * element) :=
  match e with Element _ m _ _ => m end.
Definition attributes (e : element) : list (string * element) :=
  match e with Element _ _ a _ => a end.
Definition content_of (e : element) : content :=
  match e with Element _ _ _ c => c end.

(** The elements of an array-like content. *)
Definition children (e : element) : list element :=
  match content_of e with
  | CElements items => items
  | _ => []
  end.

Fixpoint get_entry (k : string) (m : list (string * element)) : option element :=
  match m with
  | [] => None
  | (k', e) :: rest => if String.eqb k' k then Some e else get_entry k rest
  end.

Fixpoint set_entry (k : string) (e : element) (m : list (string * element))
    : list (string * element) :=
  match m with
  | [] => [(k, e)]
  | (k', e') :: rest =>
      if String.eqb k' k then (k', e) :: rest else (k', e') :: set_entry k e rest
  end.

Definition primitive_name (v : value) : string :=
  match v with
  | Undefined | Null => "null"
  | NaN | Num _ => "number"
  | Bool _ => "boolean"
  | Str _ => "string"
  | Arr _ => "array"
  | Obj _ => "object"
  end.

(** Conversion of a JavaScript value to an element, as done by the element
    constructors and by [set] on [meta] and [attributes]. *)
Fixpoint refract (v : value) : element :=
  match v with
  | Arr items => Element "array" [] [] (CElements (map refract items))
  | Obj fields =>
      Element "object" [] []
        (CElements
           (map (fun kv =>
                   Element "member" [] []
                     (CMember (Some (Element "string" [] [] (CValue (Str (fst kv)))))
                              (Some (refract (snd kv)))))
                fields))
  | _ => Element (primitive_name v) [] [] (CValue v)
  end.

(** A constructor argument: [undefined] leaves the content unset. *)
Definition content_from (v : value) : content :=
  match v with
  | Undefined => CUndefined
  | _ => content_of (refract v)
  end.

Definition refract_opt (v : value) : option element :=
  match v with
  | Undefined => None
  | _ => Some (refract v)
  end.

(** [new X()] for an array-like class, [new X(v)] for a primitive one,
    [new MemberElement(key, value)]. *)
Definition new_array (name : string) : element := Element name [] [] (CElements []).
Definition new_value (name : string) (v : value) : element :=
  Element name [] [] (content_from v).
Definition new_member (key value : value) : element :=
  Element "member" [] [] (CMember (refract_opt key) (refract_opt value)).

(** [e.meta.set(k, v)], [e.attributes.set(k, v)] *)
Definition set_meta (k : string) (v : element) (e : element) : element :=
  match e with Element n m a c => Element n (set_entry k v m) a c end.
Definition set_attribute (k : string) (v : element) (e : element) : element :=
  match e with Element n m a c => Element n m (set_entry k v a) c end.

(** [e.content.push(x)] (also [e.push(x)]) on an array-like element. *)
Definition push (x : element) (e : element) : element :=
  match e with
  | Element n m a (CElements items) => Element n m a (CElements (items ++ [x]))
  | _ => e
  end.

(** [e.classes.push(c)]: the [classes] array of [meta], created on demand. *)
Definition push_class (c : string) (e : element) : element :=
  let classes :=
    match get_entry "classes" (meta e) with
    | Some cl => cl
    | None => new_array "array"
    end in
  set_meta "classes" (push (refract (Str c)) classes) e.

(** [e.classes.contains(c)] *)
Definition has_class (c : string) (e : element) : bool :=
  match get_entry "classes" (meta e) with
  | Some cl =>
      existsb (fun x => match content_of x with
                        | CValue v => strict_eq v (Str c)
                        | _ => false
                        end) (children cl)
  | None => false
  end.

(** [e.title]: the value stored under [title] in [meta]. *)
Definition title (e : element) : value :=
  match get_entry "title" (meta e) with
  | Some (Element _ _ _ (CValue v)) => v
  | _ => Undefined
  end.

(** ** Parameter classifier: [convertParameterToElement] *)

Definition convertParameterToElement (parameter : value) : outcome element :=
  type <- prop parameter "type" ;;
  (* Convert from Swagger types to Minim elements *)
  let memberValue :=
    if is_str "string" type then new_value "string" (Str "")
    else if (is_str "integer" type || is_str "number" type)%bool
    then new_value "number" Undefined
    else if is_str "boolean" type then new_value "boolean" Undefined
    else if is_str "array" type then new_array "array"
    else new_value "string" (Str "") in
  name <- prop parameter "name" ;;
  description <- prop parameter "description" ;;
  required <- prop parameter "required" ;;
  default <- prop parameter "default" ;;
  (* the default is set on the member value, which the member shares *)
  let memberValue :=
    if truthy default then set_attribute "default" (refract default) memberValue
    else memberValue in
  let member := Element "member" [] [] (CMember (refract_opt name) (Some memberValue)) in
  let member :=
    if truthy description then set_meta "description" (refract description) member
    else member in
  let member :=
    if truthy required
    then set_attribute "typeAttributes" (refract (Arr [Str "required"])) member
    else member in
  Ret member.

(** ** Diagnostics: the [ANNOTATIONS] catalog and [makeAnnotation] *)

Record annotation_kind : Type := {
  kind_type : string;
  kind_code : Z;
  kind_fragment : string
}.

Definition CANNOT_PARSE : annotation_kind :=
  {| kind_type := "error"; kind_code := 1; kind_fragment := "yaml-parser" |}.
Definition AST_UNAVAILABLE : annotation_kind :=
  {| kind_type := "warning"; kind_code := 2; kind_fragment := "yaml-parser" |}.
Definition DATA_LOST : annotation_kind :=
  {| kind_type := "warning"; kind_code := 3; kind_fragment := "refract-not-supported" |}.
Definition VALIDATION_ERROR : annotation_kind :=
  {| kind_type := "warning"; kind_code := 4; kind_fragment := "swagger-validation" |}.

(** [[new SourceMap([[start, end - start]])]] *)
Definition source_map (start end_ : option Z) : element :=
  let first := match start with Some s => Num s | None => Undefined end in
  let len := match start, end_ with
             | Some s, Some e => Num (e - s)
             | _, _ => NaN
             end in
  Element "array" [] []
    (CElements [new_value "sourceMap" (Arr [Arr [first; len]])]).

Definition makeSourceMap (fuel : nat) (ast : node) (e : element) (p : path)
    : outcome element :=
  position <- getPosition fuel ast p ;;
  match position with
  | Range start end_ => Ret (set_attribute "sourceMap" (source_map start end_) e)
  | NotFound => Ret e
  end.

(** A path argument is used when it is truthy: a non-empty string or any
    array. *)
Definition path_truthy (p : option path) : option path :=
  match p with
  | Some (PathString s) => if nonempty s then p else None
  | Some (PathArray _) => p
  | None => None
  end.

Definition origin_link (fragment : string) : element :=
  set_attribute "href"
    (refract (Str ("http://docs.apiary.io/validations/swagger#" ++ fragment)))
    (set_attribute "relation" (refract (Str "origin")) (new_array "link")).

(** The annotation [makeAnnotation] appends to [result.content]. *)
Definition makeAnnotation (fuel : nat) (ast : option node) (info : annotation_kind)
    (p : option path) (message : value) : outcome element :=
  let annotation := new_value "annotation" message in
  let annotation := push_class (kind_type info) annotation in
  let annotation := set_attribute "code" (refract (Num (kind_code info))) annotation in
  let annotation :=
    if nonempty (kind_fragment info) then
      set_meta "links" (push (origin_link (kind_fragment info)) (new_array "array"))
        annotation
    else annotation in
  match ast, path_truthy p with
  | Some a, Some p' =>
      position <- getPosition fuel a p' ;;
      match position with
      | Range (Some start) (Some end_) =>
          (* !isNaN(position.start) && !isNaN(position.end) *)
          Ret (set_attribute "sourceMap" (source_map (Some start) (Some end_)) annotation)
      | _ => Ret annotation
      end
  | _, _ => Ret annotation
  end.

(** ** The builder monad: an outcome together with the annotations pushed on
    [parseResult.content] on the way. *)

Definition M (A : Type) : Type := outcome (A * list element).

Definition unit_ {A} (a : A) : M A := Ret (a, []).

Definition bindM {A B} (m : M A) (f : A -> M B) : M B :=
  match m with
  | Ret (a, log) =>
      match f a with
      | Ret (b, log') => Ret (b, log ++ log')
      | Throw => Throw
      | Timeout => Timeout
      | Unsupported => Unsupported
      end
  | Throw => Throw
  | Timeout => Timeout
  | Unsupported => Unsupported
  end.

Definition lift {A} (o : outcome A) : M A := bind o (fun a => Ret (a, [])).

Definition emit (annotation : outcome element) : M unit :=
  bind annotation (fun a => Ret (tt, [a])).

Notation "x <~ m ;; k" := (bindM m (fun x => k))
  (at level 61, m at next level, right associativity) : js_scope.
Notation "m ;;; k" := (bindM m (fun _ => k))
  (at level 61, right associativity) : js_scope.

(** [for (const x of xs) body], threading the value being built. *)
Fixpoint for_each {A S} (body : A -> S -> M S) (xs : list A) (s : S) : M S :=
  match xs with
  | [] => unit_ s
  | x :: rest => s' <~ body x s ;; for_each body rest s'
  end.

(** ** Validation errors *)

Inductive detail : Type :=
| Detail (path : option path) (message : value) (inner : option (list detail)).

Definition detail_path (d : detail) := match d with Detail p _ _ => p end.
Definition detail_message (d : detail) := match d with Detail _ m _ => m end.
Definition detail_inner (d : detail) := match d with Detail _ _ i => i end.

(** The error object handed to the callback; [details] may be missing. *)
Record validation_error : Type := { details : option (list detail) }.

(** The lists the [for] loop over [queue[0]] pushes on the queue. *)
Fixpoint pushed (items : list detail) : list (list detail) :=
  match items with
  | [] => []
  | Detail _ _ (Some inner) :: rest => inner :: pushed rest
  | Detail _ _ None :: rest => pushed rest
  end.

Fixpoint detail_count (d : detail) : nat :=
  match d with
  | Detail _ _ (Some inner) => S (list_sum (map detail_count inner))
  | Detail _ _ None => 1
  end.

Definition details_count (items : list detail) : nat :=
  list_sum (map detail_count items).

(** Number of queue entries still to come: one per list, queued or nested. *)
Fixpoint detail_lists (d : detail) : nat :=
  match d with
  | Detail _ _ (Some inner) => S (list_sum (map detail_lists inner))
  | Detail _ _ None => 0
  end.

Definition queue_lists (queue : list (list detail)) : nat :=
  list_sum (map (fun items => S (list_sum (map detail_lists items))) queue).

(** ** Helpers of the builder *)

Definition to_upper_char (c : ascii) : ascii :=
  let n := nat_of_ascii c in
  if ((97 <=? n)%nat && (n <=? 122)%nat)%bool then ascii_of_nat (n - 32) else c.

(** [s.toUpperCase()] *)
Fixpoint to_upper (s : string) : string :=
  match s with
  | EmptyString => EmptyString
  | String c rest => String (to_upper_char c) (to_upper rest)
  end.

Fixpoint drop_slashes (l : list ascii) : list ascii :=
  match l with
  | c :: l' => if Ascii.eqb c "/"%char then drop_slashes l' else l
  | [] => []
  end.

(** [s.replace(re, '')] where [re] matches the slashes at the end. *)
Definition strip_trailing_slashes (s : string) : string :=
  string_of_list_ascii (rev (drop_slashes (rev (list_ascii_of_string s)))).

(** [a || b] *)
Definition or_else (a b : value) : value := if truthy a then a else b.

(** [typeof v === 'object'] *)
Definition is_object_type (v : value) : bool :=
  match v with
  | Null | Arr _ | Obj _ => true
  | _ => false
  end.

(** Whether underscore treats a plain object as array-like. *)
Definition array_like (fields : list (string * value)) : bool :=
  match lookup "length" fields with
  | Num n => (Z.leb 0 n && Z.leb n MAX_ARRAY_INDEX)%bool
  | _ => false
  end.

(** [_.each(obj, (value, key) => ...)] on a plain object whose keys the
    callback uses.  An object with a numeric [length] is visited by index,
    with numbers for keys: not covered. *)
Definition keyed_entries (fields : list (string * value))
    : outcome (list (string * value)) :=
  if array_like fields then Unsupported else Ret fields.

(** [for (const k in v) if (v.hasOwnProperty(k))] *)
Definition own_entries (v : value) : list (string * value) :=
  match v with
  | Obj fields => fields
  | Arr items => index_entries items
  | Str s => index_entries (chars s)
  | _ => []
  end.

(** [parameters.filter(p => kinds.includes(p.in))], keeping each parameter's
    index in [parameters]; only an array has [filter]. *)
Fixpoint filter_in (kinds : list string) (i : nat) (items : list value)
    : outcome (list (nat * value)) :=
  match items with
  | [] => Ret []
  | parameter :: rest =>
      where_ <- prop parameter "in" ;;
      kept <- filter_in kinds (S i) rest ;;
      Ret (if existsb (fun k => is_str k where_) kinds
           then (i, parameter) :: kept else kept)
  end.

Definition parameters_in (kinds : list string) (parameters : value)
    : outcome (list (nat * value)) :=
  match parameters with
  | Arr items => filter_in kinds 0 items
  | _ => Throw
  end.

(** [transaction.request], [transaction.response] *)
Definition request_of (transaction : element) : element :=
  nth 0 (children transaction) (new_array "httpRequest").
Definition response_of (transaction : element) : element :=
  nth 1 (children transaction) (new_array "httpResponse").

Definition with_children (items : list element) (e : element) : element :=
  match e with Element n m a _ => Element n m a (CElements items) end.

(** [createTransaction(minim, transition, method)]: the new transaction,
    which the caller finds pushed on [transition.content]. *)
Definition createTransaction (method : string) : element :=
  let request := new_array "httpRequest" in
  let request :=
    if nonempty method
    then set_attribute "method" (refract (Str (to_upper method))) request
    else request in
  with_children [request; new_array "httpResponse"] (new_array "httpTransaction").

(** [e.find(condition)] (minim): the descendants of [e] that satisfy the
    condition, each given by its place, the path of child indices leading to
    it from [e], in the order minim collects them: what lies below a child
    first, then the child itself. *)
Fixpoint find (condition : element -> bool) (e : element) : list (list nat) :=
  match e with
  | Element _ _ _ (CElements items) =>
      (fix below (i : nat) (items : list element) : list (list nat) :=
         match items with
         | [] => []
         | x :: rest =>
             map (cons i) (find condition x)
               ++ (if condition x then [[i]] else [])
               ++ below (S i) rest
         end) 0 items
  | _ => []
  end.

Fixpoint update_nth (i : nat) (f : element -> element) (l : list element)
    : list element :=
  match l, i with
  | [], _ => []
  | x :: rest, O => f x :: rest
  | x :: rest, S i' => x :: update_nth i' f rest
  end.

(** The element with [f] applied to the descendant at a place. *)
Fixpoint update_at (place : list nat) (f : element -> element) (e : element)
    : element :=
  match place with
  | [] => f e
  | i :: place' =>
      match e with
      | Element n m a (CElements items) =>
          Element n m a (CElements (update_nth i (update_at place' f) items))
      | _ => e
      end
  end.

(** The condition given to [api.find]. *)
Definition is_group (groupName : value) (el : element) : bool :=
  (String.eqb (element_name el) "category"
   && has_class "resourceGroup" el
   && strict_eq (title el) groupName)%bool.

(** [group.content.push(resource)], where the variable [group] holds the
    element at the place [group] below [api] (the empty path for [api]
    itself). *)
Definition push_to (group : list nat) (resource : element) (api : element) : element :=
  update_at group (push resource) api.

(** ** Grouping decision: [useResourceGroups] *)

(** The inner [_.each(path, (operation) => ...)], from the current value of
    [tag].  [return false] ends one call of the callback; underscore's
    [each] ignores what the callback returns and goes on to the next
    operation. *)
Fixpoint path_tag (tag : value) (operations : list value) : outcome value :=
  match operations with
  | [] => Ret tag
  | operation :: rest =>
      tags <- prop operation "tags" ;;
      count <- (if truthy tags then prop tags "length" else Ret Undefined) ;;
      if truthy count then
        many <- greater_than count 1 ;;
        if many then
          (* Too many tags... each resource can only be in one group! *)
          path_tag tag rest
        else
          first <- prop tags "0" ;;
          if strict_eq tag Null then path_tag first rest
          else
            (* a different tag: Non-matching tags... [return false] *)
            path_tag tag rest
      else path_tag tag rest
  end.

(** [container[key] = v] for a key [_.each] has just visited. *)
Definition write_back (key : string) (v : value) (container : value) : value :=
  match container with
  | Obj fields => Obj (assign key v fields)
  | Arr items =>
      Arr (map (fun kv => if String.eqb (fst kv) key then v else snd kv)
               (index_entries items))
  | _ => container
  end.

(** The value of [tag] after the inner loop, for one [path] of [api.paths]:
    [let tag = null; if (path) { _.each(path, ...) }]. *)
Definition resolved_tag (path : value) : outcome value :=
  if truthy path then path_tag Null (map snd (each_entries path)) else Ret Null.

(** The outer [_.each(api.paths, (path) => ...)]: the paths after the loop,
    also when the loop is left by an exception, and the [tags] array. *)
Fixpoint label_paths (paths : value) (entries : list (string * value))
    (tags : list value) : value * outcome (list value) :=
  match entries with
  | [] => (paths, Ret tags)
  | (key, path) :: rest =>
      match resolved_tag path with
      | Ret tag =>
          if truthy tag then
            match path with
            | Obj fields =>
                label_paths
                  (write_back key (Obj (assign "x-group-name" tag fields)) paths)
                  rest (tags ++ [tag])
            | _ =>
                (* a named property on an array *)
                (paths, Unsupported)
            end
          else label_paths paths rest tags
      | Throw => (paths, Throw)
      | Timeout => (paths, Timeout)
      | Unsupported => (paths, Unsupported)
      end
  end.

(** [useResourceGroups(api)]: the document after the call and the result. *)
Definition useResourceGroups (api : value) : value * outcome bool :=
  match api with
  | Obj fields =>
      let paths := lookup "paths" fields in
      if truthy paths then
        let '(paths', tags) := label_paths paths (each_entries paths) [] in
        (Obj (assign "paths" paths' fields),
         tags <- tags ;; Ret (Nat.ltb 0 (List.length tags)))
      else (api, Ret false)
  | Undefined | Null => (api, Throw)
  | _ => (api, Ret false)
  end.

(** ** Element-tree builder: the body of [parse] *)

Section Builder.

(** The [generateSourceMap] flag, the composed AST ([None] when there is
    none), and the loop budget of each position lookup. *)
Variable generateSourceMap : bool.
Variable ast : option node.
Variable fuel : nat.

(** The URI-template helper ([./uri-template]) and [JSON.stringify], with
    and without indentation. *)
Variable buildUriTemplate : string -> string -> value -> list value -> string.
Variable JSON_stringify : value -> value.
Variable JSON_stringify_indented : value -> value.

(** [if (generateSourceMap && ast) setupSourceMap(e, p)] *)
Definition mapped (e : element) (p : string) : M element :=
  match generateSourceMap, ast with
  | true, Some a => lift (makeSourceMap fuel a e (PathString p))
  | _, _ => unit_ e
  end.

Definition setupAnnotation (info : annotation_kind) (p message : string) : M unit :=
  emit (makeAnnotation fuel ast info (Some (PathString p)) (Str message)).

(** *** Validation errors, breadth first *)

(** [for (const item of queue[0])]: one annotation per item. *)
Definition annotate_items (items : list detail) : M unit :=
  for_each
    (fun item _ =>
       emit (makeAnnotation fuel ast VALIDATION_ERROR
               (detail_path item) (detail_message item)))
    items tt.

(** [while (queue.length)]: the head list is visited, the [inner] lists of
    its items go to the back of the queue, the head is shifted off. *)
Fixpoint drain (budget : nat) (queue : list (list detail)) : M unit :=
  match queue with
  | [] => unit_ tt
  | items :: rest =>
      match budget with
      | O => Timeout
      | S budget' =>
          annotate_items items ;;; drain budget' (rest ++ pushed items)
      end
  end.

(** [if (err.details) { const queue = [err.details]; ... }]; the budget is
    the number of lists the queue will ever hold. *)
Definition validation_annotations (err : validation_error) : M unit :=
  match details err with
  | Some items => drain (queue_lists [items]) [items]
  | None => unit_ tt
  end.

(** *** Document level *)

(** [(swagger.basePath || '').replace(re, '')] *)
Definition base_path (swagger : value) : outcome string :=
  basePath <- prop swagger "basePath" ;;
  match or_else basePath (Str "") with
  | Str s => Ret (strip_trailing_slashes s)
  | _ => Throw
  end.

(** [if (swagger.info) { ... }] *)
Definition add_info (swagger : value) (api : element) : M element :=
  info <~ lift (prop swagger "info") ;;
  if truthy info then
    title_ <~ lift (prop info "title") ;;
    api <~ (if truthy title_ then
              t <~ mapped (refract title_) "info.title" ;;
              unit_ (set_meta "title" t api)
            else unit_ api) ;;
    description <~ lift (prop info "description") ;;
    if truthy description then
      copy <~ mapped (new_value "copy" description) "info.description" ;;
      unit_ (push copy api)
    else unit_ api
  else unit_ api.

(** [if (swagger.host) { ... }] *)
Definition add_host (swagger : value) (api : element) : M element :=
  host <~ lift (prop swagger "host") ;;
  if truthy host then
    schemes <~ lift (prop swagger "schemes") ;;
    hostname <~
      (if truthy schemes then
         count <~ lift (prop schemes "length") ;;
         many <~ lift (greater_than count 1) ;;
         (if many then
            setupAnnotation DATA_LOST "schemes"
              "Only the first scheme will be used to create a hostname"
          else unit_ tt) ;;;
         first <~ lift (prop schemes "0") ;;
         unit_ (Str (to_string first ++ "://" ++ to_string host))
       else unit_ host) ;;
    let member := new_member (Str "HOST") hostname in
    let member := set_meta "classes" (refract (Arr [Str "user"])) member in
    member <~ mapped member "host" ;;
    unit_ (set_attribute "meta" (push member (refract (Obj []))) api)
  else unit_ api.

(** The three [DATA_LOST] checks at the document root. *)
Definition lost_at_root (swagger : value) : M unit :=
  securityDefinitions <~ lift (prop swagger "securityDefinitions") ;;
  (if truthy securityDefinitions then
     setupAnnotation DATA_LOST "securityDefinitions"
       "Authentication information is not yet supported"
   else unit_ tt) ;;;
  security <~ lift (prop swagger "security") ;;
  (if truthy security then
     setupAnnotation DATA_LOST "security"
       "Authentication information is not yet supported"
   else unit_ tt) ;;;
  externalDocs <~ lift (prop swagger "externalDocs") ;;
  if truthy externalDocs then
    setupAnnotation DATA_LOST "externalDocs"
      "External documentation is not yet supported"
  else unit_ tt.

(** *** Transactions *)

(** [createAssetFromJsonSchema(minim, jsonSchema)] *)
Definition createAssetFromJsonSchema (jsonSchema : value) : element :=
  let schemaAsset := new_value "asset" (JSON_stringify jsonSchema) in
  let schemaAsset := push_class "messageBodySchema" schemaAsset in
  set_attribute "contentType" (refract (Str "application/schema+json")) schemaAsset.

(** One declared response header: the member pushed on [headers]. *)
Definition header_member (base headerName : string) (header : value) : M element :=
  enum <~ lift (prop header "enum") ;;
  (* Choose the first available option *)
  first <~ lift (if truthy enum then prop enum "0" else Ret (Str "")) ;;
  default <~ lift (prop header "default") ;;
  let value := if truthy default then default else first in
  member <~ mapped (new_member (Str headerName) value)
              (base ++ ".headers." ++ headerName)%string ;;
  description <~ lift (prop header "description") ;;
  if truthy description then
    d <~ mapped (refract description)
           (base ++ ".headers." ++ headerName ++ ".description")%string ;;
    unit_ (set_meta "description" d member)
  else unit_ member.

(** The body of [_.each(examples, (responseBody, contentType) => ...)]:
    the transaction it leaves on [transition.content].  [operation] is
    [paths.<href>.<method>]. *)
Definition example_transaction (operation method statusCode : string)
    (responseValue : value) (bodyParameters : list value)
    (contentType : string) (responseBody : value) : M element :=
  let base := (operation ++ ".responses." ++ statusCode)%string in
  transaction <~ mapped (createTransaction method) base ;;
  request <~ mapped (request_of transaction) operation ;;
  response <~ (if nonempty statusCode
               then mapped (response_of transaction) base
               else unit_ (response_of transaction)) ;;
  description <~ lift (prop responseValue "description") ;;
  response <~ (if truthy description then
                 copy <~ mapped (new_value "copy" description)
                           (base ++ ".description")%string ;;
                 unit_ (push copy response)
               else unit_ response) ;;
  let headers := new_array "httpHeaders" in
  headers <~ (if nonempty contentType then
                member <~ mapped (new_member (Str "Content-Type") (Str contentType))
                            (base ++ ".examples." ++ contentType)%string ;;
                unit_ (push member headers)
              else unit_ headers) ;;
  declared <~ lift (prop responseValue "headers") ;;
  headers <~ (if truthy declared then
                for_each
                  (fun kv headers =>
                     member <~ header_member base (fst kv) (snd kv) ;;
                     unit_ (push member headers))
                  (own_entries declared) headers
              else unit_ headers) ;;
  (* response.headers = headers, in either branch *)
  let response :=
    if (nonempty contentType || truthy declared)%bool
    then set_attribute "headers" headers response
    else response in
  (* Body parameters define request schemas *)
  request <~ for_each
               (fun bodyParameter request =>
                  schema <~ lift (prop bodyParameter "schema") ;;
                  unit_ (push (createAssetFromJsonSchema schema) request))
               bodyParameters request ;;
  (* Responses can have bodies *)
  response <~ (if strict_eq responseBody Undefined then unit_ response
               else
                 let formattedResponseBody :=
                   if is_object_type responseBody
                   then JSON_stringify_indented responseBody
                   else responseBody in
                 let bodyAsset := new_value "asset" formattedResponseBody in
                 let bodyAsset := push_class "messageBody" bodyAsset in
                 bodyAsset <~ mapped bodyAsset
                                (base ++ ".examples." ++ contentType)%string ;;
                 unit_ (push bodyAsset response)) ;;
  (* Responses can have schemas in Swagger *)
  schema <~ lift (prop responseValue "schema") ;;
  examples <~ lift (prop responseValue "examples") ;;
  examples_schema <~ lift (if truthy examples then prop examples "schema"
                           else Ret examples) ;;
  let schema := or_else schema examples_schema in
  let response :=
    if truthy schema then push (createAssetFromJsonSchema schema) response
    else response in
  let response :=
    if String.eqb statusCode "null" then response
    else set_attribute "statusCode" (refract (Str statusCode)) response in
  unit_ (with_children [request; response] transaction).

(** The body of [_.each(relevantResponses, (responseValue, statusCode) => ...)]. *)
Definition response_transactions (operation method : string)
    (bodyParameters : list value) (statusCode : string) (responseValue : value)
    (transition : element) : M element :=
  declared <~ lift (prop responseValue "examples") ;;
  let examples :=
    if truthy declared then declared else Obj [("", Undefined)] in
  examples <~ lift (keyed_entries (omit_keys ["schema"] examples)) ;;
  for_each
    (fun kv transition =>
       transaction <~ example_transaction operation method statusCode
                        responseValue bodyParameters (fst kv) (snd kv) ;;
       unit_ (push transaction transition))
    examples transition.

(** *** Transitions *)

(** The parameter members pushed on an [hrefVariables] element. *)
Definition uri_members (operation : string) (uriParameters : list (nat * value))
    : M element :=
  for_each
    (fun ip hrefVariables =>
       member <~ lift (convertParameterToElement (snd ip)) ;;
       member <~ mapped member
                   (operation ++ ".parameters[" ++ nat_to_string (fst ip) ++ "]")%string ;;
       unit_ (push member hrefVariables))
    uriParameters (new_array "hrefVariables").

(** The transactions of one operation: from [relevantResponses] to the end
    of the loop over the responses, on the operation's [responses] and its
    body parameters. *)
Definition operation_transactions (operation method : string)
    (bodyParameters : list value) (responses : value) (transition : element)
    : M element :=
  (* Currently, default responses are not supported in API Description format *)
  let relevantResponses :=
    omit_by isExtension (Obj (omit_keys ["default"] responses)) in
  default <~ lift (if truthy responses then prop responses "default"
                   else Ret responses) ;;
  (if truthy default then
     setupAnnotation DATA_LOST (operation ++ ".responses.default")
       "Default response is not yet supported"
   else unit_ tt) ;;;
  let '(relevantResponses, transition) :=
    match relevantResponses, bodyParameters with
    | [], _ :: _ =>
        (* an empty successful response: relevantResponses.null = {} *)
        ([("null", Obj [])], transition)
    | [], [] => ([], push (createTransaction method) transition)
    | _ :: _, _ => (relevantResponses, transition)
    end in
  (* Transactions are created for each response in the document *)
  entries <~ lift (keyed_entries relevantResponses) ;;
  for_each
    (fun kv transition =>
       response_transactions operation method bodyParameters
         (fst kv) (snd kv) transition)
    entries transition.

(** The body of [_.each(relevantPaths, (methodValue, method) => ...)]: the
    resource after the iteration, with the transition on its content. *)
Definition operation_transition (basePath href : string)
    (pathObjectParameters : value) (method : string) (methodValue : value)
    (resource : element) : M element :=
  let operation := ("paths." ++ href ++ "." ++ method)%string in
  transition <~ mapped (new_array "transition") operation ;;
  externalDocs <~ lift (prop methodValue "externalDocs") ;;
  (if truthy externalDocs then
     setupAnnotation DATA_LOST (operation ++ ".externalDocs")
       "External documentation is not yet supported"
   else unit_ tt) ;;;
  parameters <~ lift (prop methodValue "parameters") ;;
  let methodValueParameters := or_else parameters (Arr []) in
  queryParameters <~ lift (parameters_in ["query"] methodValueParameters) ;;
  (* URI parameters are for query and path variables *)
  uriParameters <~ lift (parameters_in ["query"; "path"] methodValueParameters) ;;
  (* Body parameters are ones that define JSON Schema *)
  bodyParameters <~ lift (parameters_in ["body"] methodValueParameters) ;;
  (* Form parameters are send as encoded form data in the body *)
  formParameters <~ lift (parameters_in ["formData"] methodValueParameters) ;;
  (match formParameters with
   | _ :: _ =>
       setupAnnotation DATA_LOST (operation ++ ".parameters")
         "Form data parameters are not yet supported"
   | [] => unit_ tt
   end) ;;;
  let hrefForResource :=
    buildUriTemplate basePath href pathObjectParameters (map snd queryParameters) in
  let resource := set_attribute "href" (refract (Str hrefForResource)) resource in
  summary <~ lift (prop methodValue "summary") ;;
  transition <~ (if truthy summary then
                   t <~ mapped (refract summary) (operation ++ ".summary") ;;
                   unit_ (set_meta "title" t transition)
                 else unit_ transition) ;;
  description <~ lift (prop methodValue "description") ;;
  transition <~ (if truthy description then
                   copy <~ mapped (new_value "copy" description)
                             (operation ++ ".description") ;;
                   unit_ (push copy transition)
                 else unit_ transition) ;;
  operationId <~ lift (prop methodValue "operationId") ;;
  let transition :=
    if truthy operationId
    then set_attribute "relation" (refract operationId) transition
    else transition in
  (* For each uriParameter, create an hrefVariable *)
  transition <~ (match uriParameters with
                 | _ :: _ =>
                     hrefVariables <~ uri_members operation uriParameters ;;
                     unit_ (set_attribute "hrefVariables" hrefVariables transition)
                 | [] => unit_ transition
                 end) ;;
  responses <~ lift (prop methodValue "responses") ;;
  transition <~ operation_transactions operation method (map snd bodyParameters)
                  responses transition ;;
  unit_ (push transition resource).

(** *** Resources *)

(** [pathObjectParameters.forEach((parameter, index) => ...)] *)
Definition path_parameter (href : string) (ip : nat * value)
    (hrefVariables : element) : M element :=
  let here := ("paths." ++ href ++ ".parameters[" ++ nat_to_string (fst ip) ++ "]")%string in
  where_ <~ lift (prop (snd ip) "in") ;;
  if (is_str "query" where_ || is_str "path" where_)%bool then
    member <~ lift (convertParameterToElement (snd ip)) ;;
    member <~ mapped member here ;;
    unit_ (push member hrefVariables)
  else if is_str "body" where_ then
    setupAnnotation DATA_LOST here
      "Path-level body parameters are not yet supported" ;;;
    unit_ hrefVariables
  else unit_ hrefVariables.

(** A new resource group for [groupName], described by the matching
    document-level tags. *)
Definition new_group (swagger groupName : value) : M element :=
  let group := new_array "category" in
  let group := set_meta "title" (refract groupName) group in
  let group := push_class "resourceGroup" group in
  tags <~ lift (prop swagger "tags") ;;
  match tags with
  | Arr items =>
      for_each
        (fun tag group =>
           name <~ lift (prop tag "name") ;;
           description <~ lift (prop tag "description") ;;
           if (strict_eq name groupName && truthy description)%bool
           then unit_ (push (new_value "copy" description) group)
           else unit_ group)
        items group
  | Obj fields =>
      (* a [forEach] property that is no function *)
      if truthy (lookup "forEach" fields) then Throw else unit_ group
  | _ => unit_ group
  end.

(** The body of [_.each(paths, (pathValue, href) => ...)], on the root
    category and the variable [group]. *)
Definition path_resource (swagger : value) (basePath : string) (useGroups : bool)
    (href : string) (pathValue : value) (state : element * list nat)
    : M (element * list nat) :=
  let '(api, group) := state in
  resource <~ mapped (new_array "resource") ("paths." ++ href) ;;
  (* Provide users with a way to add a title to a resource in Swagger *)
  summary <~ lift (prop pathValue "x-summary") ;;
  let resource :=
    if truthy summary then set_meta "title" (refract summary) resource
    else resource in
  (* Provide users a way to add a description to a resource in Swagger *)
  description <~ lift (prop pathValue "x-description") ;;
  let resource :=
    if truthy description then push (new_value "copy" description) resource
    else resource in
  groupName <~ lift (if useGroups then prop pathValue "x-group-name"
                     else Ret Undefined) ;;
  placed <~
    (if truthy groupName then
       (* group = api.find(...).first() *)
       match find (is_group groupName) api with
       | found :: _ => unit_ (api, found)
       | [] =>
           created <~ new_group swagger groupName ;;
           unit_ (push created api, [List.length (children api)])
       end
     else unit_ (api, group)) ;;
  let '(api, group) := placed in
  parameters <~ lift (prop pathValue "parameters") ;;
  let pathObjectParameters := or_else parameters (Arr []) in
  count <~ lift (prop pathObjectParameters "length") ;;
  some <~ lift (greater_than count 0) ;;
  resource <~ (if some then
                 match pathObjectParameters with
                 | Arr items =>
                     hrefVariables <~ for_each (path_parameter href)
                                        (combine (seq 0 (List.length items)) items)
                                        (new_array "hrefVariables") ;;
                     unit_ (set_attribute "hrefVariables" hrefVariables resource)
                 | _ => Throw
                 end
               else unit_ resource) ;;
  let relevantPaths :=
    omit_by isExtension (Obj (omit_keys ["parameters"; "$ref"] pathValue)) in
  (* Each path is an object with methods as properties *)
  entries <~ lift (keyed_entries relevantPaths) ;;
  resource <~ for_each
                (fun kv resource =>
                   operation_transition basePath href pathObjectParameters
                     (fst kv) (snd kv) resource)
                entries resource ;;
  unit_ (push_to group resource api, group).

(** From [const basePath] to the call of [useResourceGroups]. *)
Definition document_level (swagger : value) : M (string * element) :=
  basePath <~ lift (base_path swagger) ;;
  (* Root API Element *)
  let api := push_class "api" (new_array "category") in
  api <~ add_info swagger api ;;
  api <~ add_host swagger api ;;
  lost_at_root swagger ;;;
  unit_ (basePath, api).

(** The loop over [_.omit(swagger.paths, isExtension)]. *)
Definition resources (swagger : value) (basePath : string) (useGroups : bool)
    (api : element) : M element :=
  paths <~ lift (prop swagger "paths") ;;
  entries <~ lift (keyed_entries (omit_by isExtension paths)) ;;
  state <~ for_each
             (fun kv state =>
                path_resource swagger basePath useGroups (fst kv) (snd kv) state)
             entries (api, []) ;;
  unit_ (fst state).

(** The callback of [parser.validate] after the validation errors: the
    document as [useResourceGroups] leaves it, and the root category. *)
Definition build_api (swagger : value) : value * M element :=
  match document_level swagger with
  | Ret ((basePath, api), log) =>
      let '(swagger', useGroups) := useResourceGroups swagger in
      (swagger',
       bindM (Ret (tt, log))
         (fun _ =>
            useGroups <~ lift useGroups ;;
            resources swagger' basePath useGroups api))
  | Throw => (swagger, Throw)
  | Timeout => (swagger, Timeout)
  | Unsupported => (swagger, Unsupported)
  end.

End Builder.

(** ** [parse] *)

(** The [source] option: text, or an already loaded document. *)
Inductive source : Type :=
| SourceText (text : string)
| SourceObject (document : value).

(** [parser.api] when the callback of [parser.validate] runs: undefined, the
    very object that was passed in (with what it holds now), or another
    object. *)
Inductive parsed_api : Type :=
| NoApi
| SameObject (now : value)
| OtherObject (api : value).

Record validation : Type := {
  err : option validation_error;
  api : parsed_api
}.

(** One call of the completion callback: [done(error, parseResult)], with
    the content of the parse result at the time of the call. *)
Record done_call : Type := {
  error : option validation_error;
  result : list element
}.

(** [if (loaded.info === undefined) loaded.info = {}], and the same for
    [paths].  The module is strict code: assigning a property of a primitive
    throws.  A named property on an array is not covered. *)
Definition with_defaults (loaded : value) : outcome value :=
  match loaded with
  | Obj fields =>
      let fields :=
        if strict_eq (lookup "info" fields) Undefined
        then assign "info" (Obj []) fields else fields in
      let fields :=
        if strict_eq (lookup "paths" fields) Undefined
        then assign "paths" (Obj []) fields else fields in
      Ret (Obj fields)
  | Arr _ => Unsupported
  | _ => Throw
  end.

Section Parse.

(** The collaborators: [yaml.safeLoad] and [yamlAst.compose] ([None] when
    they throw; a composed AST may be null), [SwaggerParser.validate]
    together with [parser.api], the URI-template helper, [JSON.stringify];
    and the loop budget of each position lookup. *)
Variable safeLoad : string -> option value.
Variable compose : string -> option (option node).
Variable validate : value -> validation.
Variable buildUriTemplate : string -> string -> value -> list value -> string.
Variable JSON_stringify : value -> value.
Variable JSON_stringify_indented : value -> value.
Variable fuel : nat.

(** [_.isString(source) ? yaml.safeLoad(source) : source] *)
Definition load (src : source) : option value :=
  match src with
  | SourceText text => safeLoad text
  | SourceObject document => Some document
  end.

(** The AST and the annotation pushed while getting it. *)
Definition compose_ast (src : source) : option node * outcome (list element) :=
  match src with
  | SourceText text =>
      match compose text with
      | Some composed => (composed, Ret [])
      | None =>
          (None,
           a <- makeAnnotation fuel None AST_UNAVAILABLE None
                  (Str "Input AST could not be composed, so source maps will not be available") ;;
           Ret [a])
      end
  | SourceObject _ =>
      (None,
       a <- makeAnnotation fuel None AST_UNAVAILABLE None
              (Str "Source maps are only available with string input") ;;
       Ret [a])
  end.

Definition swagger_of (v : validation) : value :=
  match api v with
  | NoApi => Undefined
  | SameObject now => now
  | OtherObject other => other
  end.

(** What the caller's [source] holds when [swagger] holds [swagger']: a
    loaded document that the validator handed back as [parser.api] is the
    caller's object; text is never changed. *)
Definition caller_source (src : source) (loaded : value) (v : validation)
    (swagger' : value) : source :=
  match src, api v with
  | SourceText _, _ => src
  | SourceObject _, SameObject _ => SourceObject swagger'
  | SourceObject _, _ => SourceObject loaded
  end.

(** The callback given to [parser.validate]. *)
Definition validated (generateSourceMap : bool) (ast : option node)
    (early : list element) (v : validation) : value * outcome (list done_call) :=
  let swagger := swagger_of v in
  match err v, api v with
  | Some e, NoApi => (swagger, Ret [ {| error := Some e; result := early |} ])
  | _, _ =>
      (* Non-fatal errors, so let us try and create annotations for them *)
      match (match err v with
             | Some e => validation_annotations ast fuel e
             | None => unit_ tt
             end) with
      | Ret (_, reported) =>
          let '(swagger', built) :=
            build_api generateSourceMap ast fuel buildUriTemplate
              JSON_stringify JSON_stringify_indented swagger in
          (swagger',
           built <- built ;;
           Ret [ {| error := None;
                    result := early ++ reported ++ [fst built] ++ snd built |} ])
      | Throw => (swagger, Throw)
      | Timeout => (swagger, Timeout)
      | Unsupported => (swagger, Unsupported)
      end
  end.

(** [parse({minim, source, generateSourceMap}, done)]: the caller's source
    after the call, and the calls of [done]. *)
Definition parse (generateSourceMap : bool) (src : source)
    : source * outcome (list done_call) :=
  match load src with
  | None =>
      (src,
       a <- makeAnnotation fuel None CANNOT_PARSE None
              (Str "Problem loading the input") ;;
       Ret [ {| error := None; result := [a] |} ])
  | Some loaded =>
      let '(ast, early) := compose_ast src in
      match early, with_defaults loaded with
      | Ret early, Ret loaded' =>
          (* Parse and validate the Swagger document! *)
          let v := validate loaded' in
          let '(swagger', calls) := validated generateSourceMap ast early v in
          (caller_source src loaded' v swagger', calls)
      | Ret _, Throw => (src, Throw)
      | Ret _, Timeout => (src, Timeout)
      | Ret _, Unsupported => (src, Unsupported)
      | Throw, _ => (src, Throw)
      | Timeout, _ => (src, Timeout)
      | Unsupported, _ => (src, Unsupported)
      end
  end.

End Parse.

(** ** Counting in results *)

(** The annotations of a given kind in the content of a parse result. *)
Definition is_annotation (info : annotation_kind) (e : element) : bool :=
  (String.eqb (element_name e) "annotation"
   && has_class (kind_type info) e
   && match get_entry "code" (attributes e) with
      | Some (Element _ _ _ (CValue v)) => strict_eq v (Num (kind_code info))
      | _ => false
      end)%bool.

Definition is_category (e : element) : bool :=
  String.eqb (element_name e) "category".

(** The resource groups directly under a root category. *)
Definition resource_groups (root : element) : list element :=
  filter (fun e => (is_category e && has_class "resourceGroup" e)%bool) (children root).

Definition resources_of (parent : element) : list element :=
  filter (fun e => String.eqb (element_name e) "resource") (children parent).

(** The root categories of a result. *)
Definition roots (result : list element) : list element :=
  filter (fun e => (is_category e && has_class "api" e)%bool) result.


(** ** Sample inputs *)

(** Collaborators for the sample runs: a validator that accepts a document
    and hands the same object back, a URI-template helper that joins base
    path and path template, and a serializer. *)
Definition accepting (loaded : value) : validation :=
  {| err := None; api := SameObject loaded |}.
Definition joined (basePath href : string) (_ : value) (_ : list value) : string :=
  (basePath ++ href)%string.
Definition serialized (v : value) : value := Str (to_string v).
Definition no_text (_ : string) : option value := None.
Definition no_ast (_ : string) : option (option node) := None.

Definition ok_response : value := Obj [("description", Str "ok")].

(** One operation with two tags on [/a], a single-tagged operation on [/b]. *)
Definition two_tags_document : value :=
  Obj [("swagger", Str "2.0");
       ("info", Obj [("title", Str "T")]);
       ("paths",
        Obj [("/a", Obj [("get", Obj [("tags", Arr [Str "x"; Str "y"]);
                                      ("responses", Obj [("200", ok_response)])])]);
             ("/b", Obj [("get", Obj [("tags", Arr [Str "pets"]);
                                      ("responses", Obj [("200", ok_response)])])])])].

(** Two operations on one path with different single tags. *)
Definition mixed_tags_document : value :=
  Obj [("swagger", Str "2.0");
       ("info", Obj [("title", Str "T")]);
       ("paths",
        Obj [("/a", Obj [("get", Obj [("tags", Arr [Str "x"]);
                                      ("responses", Obj [("200", ok_response)])]);
                         ("post", Obj [("tags", Arr [Str "y"]);
                                       ("responses", Obj [("200", ok_response)])])])])].

(** The AST of the text [items: [x, x, x, x, x, x, x, x, x, x, x]]:
    item [i] spans the offsets [8 + 3i] to [9 + 3i]. *)
Definition eleven_items : list node :=
  map (fun i => ScalarNode "x" (8 + 3 * Z.of_nat i) (9 + 3 * Z.of_nat i)) (seq 0 11).

Definition eleven_items_ast : node :=
  MappingNode [(ScalarNode "items" 0 5, SequenceNode eleven_items 7 40)] 0 40.

(** The AST of the two lines
      [a: {$ref: '#/d'}]
      [d: {items: [x, y]}] *)
Definition referencing_ast : node :=
  MappingNode
    [(ScalarNode "a" 0 1,
      MappingNode [(ScalarNode "$ref" 4 8, ScalarNode "#/d" 10 15)] 3 16);
     (ScalarNode "d" 17 18,
      MappingNode
        [(ScalarNode "items" 21 26,
          SequenceNode [ScalarNode "x" 29 30; ScalarNode "y" 32 33] 28 34)]
        20 35)]
    0 35.

(** A query parameter whose default is zero. *)
Definition offset_parameter : value :=
  Obj [("name", Str "offset"); ("in", Str "query"); ("type", Str "integer");
       ("default", Num 0)].

(** The run of [parse] on a loaded document with the sample collaborators,
    without source maps. *)
Definition sample_run (document : value) : source * outcome (list done_call) :=
  parse no_text no_ast accepting joined serialized serialized 0 false
    (SourceObject document).

(** For each root category a run produced: the titles of its resource
    groups and the number of resources appended directly to it. *)
Definition grouping_of (run : source * outcome (list done_call))
    : outcome (list (list value * nat)) :=
  calls <- snd run ;;
  Ret (flat_map
         (fun call =>
            map (fun root =>
                   (map title (resource_groups root),
                    List.length (resources_of root)))
                (roots (result call)))
         calls).

(** The [default] attribute of the value of a member. *)
Definition default_of (member : element) : option element :=
  match content_of member with
  | CMember _ (Some memberValue) => get_entry "default" (attributes memberValue)
  | _ => None
  end.

(** ** Reading elements back *)


(** The primitive an element holds. *)
Definition value_of (e : option element) : option value :=
  match e with
  | Some (Element _ _ _ (CValue v)) => Some v
  | _ => None
  end.

Definition member_key (member : element) : option value :=
  match content_of member with
  | CMember key _ => value_of key
  | _ => None
  end.

Definition member_value (member : element) : option value :=
  match content_of member with
  | CMember _ val => value_of val
  | _ => None
  end.



Definition empty_root : element := push_class "api" (new_array "category").

(** A builder computation that ends normally. *)
Definition completes {A} (m : M A) : Prop := exists a log, m = Ret (a, log).

(** The contents of the [messageBody] assets of a response. *)
Definition body_assets (response : element) : list content :=
  map content_of (filter (has_class "messageBody") (children response)).

(** The members of the [headers] attribute of a response. *)
Definition response_headers (response : element) : list element :=
  match get_entry "headers" (attributes response) with
  | Some headers => children headers
  | None => []
  end.

(** What [parse] puts in a body asset: objects, arrays and null serialized
    with indentation, anything else as it is. *)
Definition formatted (JSON_stringify_indented : value -> value) (body : value) : value :=
  if is_object_type body then JSON_stringify_indented body else body.

(** [e'] is [e], or [e] with a [sourceMap] attribute set. *)
Definition decorated (e e' : element) : Prop :=
  e' = e \/ exists s t, e' = set_attribute "sourceMap" (source_map s t) e.

(** Every annotation a computation logs satisfies [P]. *)
Definition logs {A} (P : element -> Prop) (m : M A) : Prop :=
  forall a log, m = Ret (a, log) -> Forall P log.

(** The parts of a response the builder works on: its items, its [headers]
    attribute, and no status code yet. *)
Definition response_like (items : list element) (headers : option element)
    (e : element) : Prop :=
  content_of e = CElements items
  /\ get_entry "headers" (attributes e) = headers
  /\ get_entry "statusCode" (attributes e) = None.


Definition is_obj (v : value) : bool :=
  match v with Obj _ => true | _ => false end.

(** The items of a transition before its transactions: copies only. *)
Definition copies_only (e : element) : Prop :=
  exists items, content_of e = CElements items
                /\ Forall (fun c => element_name c = "copy") items
                /\ element_name e = "transition".


(** The number of validation errors an error object carries, nested ones
    included. *)
Definition reported_errors (e : validation_error) : nat :=
  match details e with
  | Some items => details_count items
  | None => 0
  end.

(** What a computation returns satisfies [Q]. *)
Definition returns {A} (Q : A -> Prop) (m : M A) : Prop :=
  forall a log, m = Ret (a, log) -> Q a.

(** The root category. *)
Definition root_like (e : element) : Prop :=
  element_name e = "category" /\ has_class "api" e = true.

(** A path object as [useResourceGroups] leaves it. *)
Definition labelled (path : value) : value :=
  match resolved_tag path, path with
  | Ret tag, Obj fields =>
      if truthy tag then Obj (assign "x-group-name" tag fields) else path
  | _, _ => path
  end.

(** A response with two example content types. *)
Definition two_examples_response : value :=
  Obj [("description", Str "ok");
       ("examples",
        Obj [("application/json", Obj [("id", Num 1)]);
             ("text/plain", Str "hello")])].


(** A validation error with four details, two of them nested. *)
Definition nested_error : validation_error :=
  {| details :=
       Some [Detail (Some (PathArray ["paths"; "/a"])) (Str "bad path")
               (Some [Detail None (Str "inner 1") None;
                      Detail None (Str "inner 2") (Some [])]);
             Detail None (Str "other") None] |}.

Definition failing (_ : value) : validation :=
  {| err := Some nested_error; api := NoApi |}.

(** No property name occurs twice: what holds of the keys of every object. *)
Fixpoint distinct_keys (keys : list string) : bool :=
  match keys with
  | [] => true
  | k :: rest => (negb (existsb (String.eqb k) rest) && distinct_keys rest)%bool
  end.

(** A child the scan passes over: neither the key looked for nor an
    internal reference. *)
Definition passed_over (piece : string) (kv : node * node) : bool :=
  (negb (key_is (fst kv) piece)
   && negb (key_is (fst kv) "$ref" && is_internal_ref (snd kv)))%bool.

(** The details of a forest of errors level by level: the given items, then
    the items of their [inner] lists, and so on, for [depth] levels. *)
Fixpoint level_order (depth : nat) (items : list detail) : list detail :=
  match depth with
  | O => []
  | S depth' => items ++ level_order depth' (List.concat (pushed items))
  end.

(** The number of [inner] lists in a forest of errors. *)
Definition lists_below (items : list detail) : nat :=
  list_sum (map detail_lists items).

(** All the details of an error object, breadth first. *)
Definition breadth_first (e : validation_error) : list detail :=
  match details e with
  | Some items => level_order (S (lists_below items)) items
  | None => []
  end.



(** ** Format detection: [detect] *)

(** White space as the class [\s] sees it, among the characters below 256. *)
Definition is_space (c : ascii) : bool :=
  let n := nat_of_ascii c in
  ((9 <=? n)%nat && (n <=? 13)%nat || (n =? 32)%nat || (n =? 160)%nat)%bool.

(** The class of the two quote characters. *)
Definition is_quote (c : ascii) : bool :=
  (Ascii.eqb c "034"%char || Ascii.eqb c "'"%char)%bool.

Fixpoint skip_spaces (s : string) : string :=
  match s with
  | String c s' => if is_space c then skip_spaces s' else s
  | EmptyString => s
  end.

(** What is left of [s] after the prefix [p]. *)
Fixpoint after_prefix (p s : string) : option string :=
  match p, s with
  | EmptyString, _ => Some s
  | String a p', String b s' => if Ascii.eqb a b then after_prefix p' s' else None
  | String _ _, EmptyString => None
  end.

(** A quote, [2.0], a quote. *)
Definition quoted_version (s : string) : bool :=
  match s with
  | String q (String "2"%char (String "."%char (String "0"%char (String q' _)))) =>
      (is_quote q && is_quote q')%bool
  | _ => false
  end.

(** A colon, any white space, the quoted version. *)
Definition colon_and_version (s : string) : bool :=
  match s with
  | String ":"%char s' => quoted_version (skip_spaces s')
  | _ => false
  end.

(** The pattern of [detect] from the end of the word [swagger] on: an
    optional double quote, a colon, any white space, a quote, [2.0], a
    quote.  White space is no quote and a double quote is no colon, so the
    greedy choices are the only ones that can match. *)
Definition version_follows (s : string) : bool :=
  match s with
  | String c s' =>
      if Ascii.eqb c "034"%char then colon_and_version s' else colon_and_version s
  | EmptyString => false
  end.

(** [source.match(re)] is not null: the pattern matches somewhere.  Its
    leading optional double quote can always match nothing, so a match
    starts at an occurrence of the word. *)
Fixpoint matches_swagger (s : string) : bool :=
  (match after_prefix "swagger" s with
   | Some rest => version_follows rest
   | None => false
   end
   || match s with
      | String _ s' => matches_swagger s'
      | EmptyString => false
      end)%bool.

(** [detect(source)] *)
Definition detect (src : source) : outcome bool :=
  match src with
  | SourceText text => Ret (matches_swagger text)
  | SourceObject document =>
      swagger <- prop document "swagger" ;;
      Ret (is_str "2.0" swagger)
  end.

(** ** Reading positions off a document *)

(** No mapping of the tree has a [$ref] key whose value starts with [#]. *)
Fixpoint no_internal_ref (n : node) : bool :=
  match n with
  | ScalarNode _ _ _ => true
  | SequenceNode items _ _ => forallb no_internal_ref items
  | MappingNode pairs _ _ =>
      forallb (fun kv =>
                 let '(k, v) := kv in
                 (negb (key_is k "$ref" && is_internal_ref v) && no_internal_ref v)%bool)
              pairs
  end.

(** The first pair of a mapping whose key is [piece]. *)
Definition pair_named (piece : string) (n : node) : option (node * node) :=
  match n with
  | MappingNode pairs _ _ => List.find (fun kv => key_is (fst kv) piece) pairs
  | _ => None
  end.

(** The span of a key path read directly off the tree: the pair reached by
    following the keys one after the other, from the start of its key to the
    end of its value. *)
Fixpoint span_of (n : node) (pieces : list string) : position :=
  match pieces with
  | [] => Range None None
  | piece :: rest =>
      match pair_named piece n with
      | Some (k, v) =>
          match rest with
          | [] => Range (Some (start_pointer k)) (Some (end_pointer v))
          | _ :: _ => span_of v rest
          end
      | None => NotFound
      end
  end.

(** A segment the pattern of [getPosition] leaves alone. *)
Definition plain (piece : string) : bool :=
  (nonempty piece && match match_index piece with None => true | Some _ => false end)%bool.

(** The AST of the line [a: {$ref: '#/a'}]. *)
Definition self_referencing_ast : node :=
  MappingNode
    [(ScalarNode "a" 0 1,
      MappingNode [(ScalarNode "$ref" 4 8, ScalarNode "#/a" 10 15)] 3 16)]
    0 16.

(** The AST of the line [a: {$ref: 'other.yaml#/d'}]. *)
Definition external_reference_ast : node :=
  MappingNode
    [(ScalarNode "a" 0 1,
      MappingNode [(ScalarNode "$ref" 4 8, ScalarNode "other.yaml#/d" 10 25)] 3 26)]
    0 26.

(** ** Reading a parameter member back *)

(** The value placeholder of a parameter member. *)
Definition placeholder_of (member : element) : option element :=
  match content_of member with
  | CMember _ placeholder => placeholder
  | _ => None
  end.

(** A path parameter with every optional part. *)
Definition full_parameter : value :=
  Obj [("name", Str "id"); ("in", Str "path"); ("type", Str "integer");
       ("description", Str "The id"); ("required", Bool true); ("default", Num 7)].

(** A loader for which every text is the empty document. *)
Definition empty_document (_ : string) : option value := Some Undefined.

(** ** Reading the grouping decision *)

(** An operation the inner loop of [useResourceGroups] passes without
    touching [tag]: an object whose [tags] is falsy or an array that holds
    no tag or more than one. *)
Definition sets_no_tag (operation : value) : bool :=
  match operation with
  | Obj fields =>
      match lookup "tags" fields with
      | Arr [_] => false
      | Arr _ => true
      | tags => negb (truthy tags)
      end
  | _ => false
  end.

(** An operation whose [tags] is falsy or an array. *)
Definition tags_well_formed (operation : value) : bool :=
  match operation with
  | Obj fields =>
      match lookup "tags" fields with
      | Arr _ => true
      | tags => negb (truthy tags)
      end
  | _ => false
  end.

(** A path item whose first operation has two tags and whose second has
    one. *)
Definition second_operation_tagged : list (string * value) :=
  [("get", Obj [("tags", Arr [Str "a"; Str "b"])]);
   ("post", Obj [("tags", Arr [Str "pets"])]);
   ("put", Obj [("tags", Arr [Str "other"])])].

(** The text made of [n] slashes. *)
Definition slashes (n : nat) : string := string_of_list_ascii (repeat "/"%char n).

(** ** Reading parameters *)

(** [parameter.in] is one of [kinds]. *)
Definition located (kinds : list string) (parameter : value) : bool :=
  match prop parameter "in" with
  | Ret where_ => existsb (fun k => is_str k where_) kinds
  | _ => false
  end.

(** The items of an array with their indices. *)
Definition indexed (items : list value) : list (nat * value) :=
  combine (seq 0 (List.length items)) items.

(** Path-level parameters: one in the query, one in a header, one in the
    body. *)
Definition three_parameters : list value :=
  [Obj [("name", Str "limit"); ("in", Str "query"); ("type", Str "integer")];
   Obj [("name", Str "X-Trace"); ("in", Str "header"); ("type", Str "string")];
   Obj [("name", Str "pet"); ("in", Str "body"); ("schema", Obj [])]].

(** ** Reading responses *)

(** The examples the builder goes through for a response: its [examples]
    when truthy, else one example without content type and body; never the
    key [schema]. *)
Definition example_entries (responseValue : value) : outcome (list (string * value)) :=
  declared <- prop responseValue "examples" ;;
  Ret (omit_keys ["schema"]
         (if truthy declared then declared else Obj [("", Undefined)])).

(** Responses for 200 (two examples), 404 (none), the default response and
    an extension key. *)
Definition four_responses : value :=
  Obj [("200", two_examples_response);
       ("404", Obj [("description", Str "missing")]);
       ("default", ok_response);
       ("x-note", Str "internal")].

(** A path item with a description, an extension key, path-level
    parameters and two operations. *)
Definition two_methods_item : value :=
  Obj [("x-description", Str "Pets");
       ("parameters", Arr []);
       ("get", Obj [("responses", Obj [("200", ok_response)])]);
       ("x-internal", Bool true);
       ("delete", Obj [("responses", Obj [])])].

(** ** Places in the tree *)

(** The descendant of [e] at a place. *)
Fixpoint descendant (place : list nat) (e : element) : option element :=
  match place with
  | [] => Some e
  | i :: place' =>
      match nth_error (children e) i with
      | Some child => descendant place' child
      | None => None
      end
  end.

(** A path item labelled with the group [pets]. *)
Definition grouped_item : value :=
  Obj [("x-group-name", Str "pets");
       ("get", Obj [("responses", Obj [("200", ok_response)])])].

(** A document whose tag [pets] has a description. *)
Definition described_tags : value :=
  Obj [("tags", Arr [Obj [("name", Str "pets"); ("description", Str "About pets")]])].

(** ** Reading a document *)

(** The query parameters of an operation: [methodValue.parameters || []]
    filtered on [in === 'query']. *)
Definition queryParameters_of (methodValue : value) : outcome (list value) :=
  parameters <- prop methodValue "parameters" ;;
  found <- parameters_in ["query"] (or_else parameters (Arr [])) ;;
  Ret (map snd found).

(** Whether the document has a truthy [info.description]. *)
Definition described (swagger : value) : outcome bool :=
  info <- prop swagger "info" ;;
  if truthy info then
    description <- prop info "description" ;;
    Ret (truthy description)
  else Ret false.

(** A URI-template helper that shows what it was given: the base path, the
    path template and the number of query parameters. *)
Definition counted (basePath href : string) (_ : value) (queryParameters : list value)
    : string :=
  (basePath ++ href ++ "?" ++ nat_to_string (List.length queryParameters))%string.

(** A path item whose first operation has a query parameter and whose last
    has none. *)
Definition query_then_none : value :=
  Obj [("get", Obj [("parameters", Arr [Obj [("name", Str "q"); ("in", Str "query")]]);
                    ("responses", Obj [])]);
       ("delete", Obj [("responses", Obj [])])].

(** A document with a description, an extension key under [paths] and two
    untagged paths. *)
Definition two_paths_document : value :=
  Obj [("swagger", Str "2.0");
       ("info", Obj [("title", Str "T"); ("description", Str "About")]);
       ("paths",
        Obj [("/a", Obj [("get", Obj [("responses", Obj [("200", ok_response)])])]);
             ("x-hidden", Obj []);
             ("/b", Obj [])])].

(** ** Source maps in the tree *)

(** No element of the tree has a [sourceMap] attribute: not the element,
    not what its [meta] and [attributes] hold, not its content. *)
Fixpoint unmapped (e : element) : bool :=
  match e with
  | Element _ m a c =>
      (forallb (fun kv => let '(_, v) := kv in unmapped v) m
       && forallb (fun kv =>
                     let '(k, v) := kv in
                     negb (String.eqb k "sourceMap") && unmapped v) a
       && match c with
          | CUndefined | CValue _ => true
          | CElements items => forallb unmapped items
          | CMember key value =>
              match key with Some x => unmapped x | None => true end
              && match value with Some x => unmapped x | None => true end
          end)%bool
  end.

(** The AST of the line [info: {title: T}] and the document it loads as. *)
Definition titled_ast : node :=
  MappingNode
    [(ScalarNode "info" 0 4,
      MappingNode [(ScalarNode "title" 7 12, ScalarNode "T" 14 15)] 6 16)]
    0 16.

Definition titled_document : value := Obj [("info", Obj [("title", Str "T")])].

Definition loads_titled (_ : string) : option value := Some titled_document.
Definition composes_titled (_ : string) : option (option node) := Some (Some titled_ast).

(** The AST of the line [paths: {/pets.json: {}}]. *)
Definition dotted_key_ast : node :=
  MappingNode
    [(ScalarNode "paths" 0 5,
      MappingNode [(ScalarNode "/pets.json" 8 18, MappingNode [] 20 22)] 7 23)]
    0 23.

(** ** Well-formed documents

    What the builder needs of the object the validator hands back in order
    not to throw. *)

(** [parameters], at a path item or an operation: missing, or an array of
    objects. *)
Definition parameters_ok (parameters : value) : bool :=
  match parameters with
  | Undefined => true
  | Arr items => forallb is_obj items
  | _ => false
  end.

(** [tags] of an operation, [schemes] of the document: falsy, or an
    array. *)
Definition array_or_falsy (v : value) : bool :=
  match v with
  | Arr _ => true
  | other => negb (truthy other)
  end.

(** A response: an object whose declared headers are objects and whose
    examples are not taken for an array by underscore. *)
Definition response_ok (response : value) : bool :=
  match response with
  | Obj fields =>
      (forallb (fun kv => is_obj (snd kv)) (own_entries (lookup "headers" fields))
       && negb (array_like (omit_keys ["schema"] (lookup "examples" fields))))%bool
  | _ => false
  end.

Definition responses_ok (responses : value) : bool :=
  forallb (fun kv => response_ok (snd kv))
    (omit_by isExtension (Obj (omit_keys ["default"] responses))).

Definition operation_ok (operation : value) : bool :=
  match operation with
  | Obj fields =>
      (array_or_falsy (lookup "tags" fields)
       && parameters_ok (lookup "parameters" fields)
       && responses_ok (lookup "responses" fields))%bool
  | _ => false
  end.

(** What the builder reads of a path item: its parameters and, under every
    key other than [parameters], [$ref] and the extension keys, an
    operation. *)
Definition buildable (item : value) : bool :=
  match item with
  | Obj fields =>
      (parameters_ok (lookup "parameters" fields)
       && forallb (fun kv => operation_ok (snd kv))
            (omit_by isExtension (Obj (omit_keys ["parameters"; "$ref"] item))))%bool
  | _ => false
  end.

(** What [useResourceGroups] reads of a value of a path item, whatever its
    key: it is not null or undefined, and [tags], if it is an object, is
    falsy or an array. *)
Definition entry_ok (v : value) : bool :=
  match v with
  | Undefined | Null => false
  | Obj fields => array_or_falsy (lookup "tags" fields)
  | _ => true
  end.

Definition path_item_ok (item : value) : bool :=
  match item with
  | Obj fields => (forallb (fun kv => entry_ok (snd kv)) fields && buildable item)%bool
  | _ => false
  end.

(** The document: a string or falsy [basePath], [schemes] falsy or an
    array, [tags] missing or an array of objects, and under [paths] an
    object of well-formed path items. *)
Definition document_ok (swagger : value) : bool :=
  match swagger with
  | Obj fields =>
      (match lookup "basePath" fields with
       | Str _ => true
       | other => negb (truthy other)
       end
       && array_or_falsy (lookup "schemes" fields)
       && parameters_ok (lookup "tags" fields)
       && match lookup "paths" fields with
          | Obj items =>
              distinct_keys (map fst items)
              && forallb (fun kv => path_item_ok (snd kv)) items
          | _ => false
          end)%bool
  | _ => false
  end.

(** A document with a host, tags, security definitions, two tagged paths
    with parameters, several responses, examples and headers. *)
Definition pet_store : value :=
  Obj [("swagger", Str "2.0");
       ("info", Obj [("title", Str "Pets"); ("description", Str "A pet store")]);
       ("host", Str "example.com");
       ("schemes", Arr [Str "https"; Str "http"]);
       ("basePath", Str "/v1/");
       ("securityDefinitions", Obj []);
       ("tags", Arr [Obj [("name", Str "pets"); ("description", Str "All pets")]]);
       ("paths",
        Obj [("/pets",
              Obj [("parameters",
                    Arr [Obj [("name", Str "limit"); ("in", Str "query");
                              ("type", Str "integer")]]);
                   ("get",
                    Obj [("tags", Arr [Str "pets"]);
                         ("summary", Str "List pets");
                         ("responses",
                          Obj [("200",
                                Obj [("description", Str "ok");
                                     ("headers",
                                      Obj [("X-Total", Obj [("type", Str "integer")])]);
                                     ("examples",
                                      Obj [("application/json", Arr [])])]);
                               ("default", ok_response)])]);
                   ("post",
                    Obj [("tags", Arr [Str "pets"]);
                         ("parameters",
                          Arr [Obj [("name", Str "pet"); ("in", Str "body");
                                    ("schema", Obj [])]]);
                         ("responses", Obj [])])]);
             ("/pets/{id}",
              Obj [("get",
                    Obj [("tags", Arr [Str "pets"]);
                         ("responses", Obj [("200", ok_response)])])])])].

(** * Properties *)

(** ** Position resolver *)

(** C9 (as stated, refuted): for an empty path the resolver does not return
    the not-found value. *)
Lemma empty_path_is_not_NotFound :
  getPosition 0 eleven_items_ast (PathString "") <> Ret NotFound.
Proof. vm_compute. discriminate. Qed.

(** C9 (amended): for every AST and every loop budget, an empty path, as a
    string or as an array, makes the resolver return a range object whose
    start and end are both undefined; it never returns the not-found value
    (null) there. *)
Theorem empty_path_gives_undefined_range (fuel : nat) (ast : node) :
  getPosition fuel ast (PathString "") = Ret (Range None None)
  /\ getPosition fuel ast (PathArray []) = Ret (Range None None).
Proof. split; destruct fuel; reflexivity. Qed.

(** C2 (the code departs from the claim): in [items[10]] the resolver reads
    the index as 0, the last digit, and returns the span of item 0 (offsets
    8 to 9) instead of the span of item 10 (offsets 38 to 39). *)
Theorem two_digit_index_selects_last_digit (fuel : nat) :
  getPosition (S fuel) eleven_items_ast (PathString "items[10]")
    = Ret (Range (Some 8%Z) (Some 9%Z))
  /\ nth_error eleven_items 10 = Some (ScalarNode "x" 38 39)
  /\ match_index "items[10]" = Some ("items", 0).
Proof. repeat split; reflexivity. Qed.

(** C3 (the code departs from the claim): when the segment that crosses an
    internal reference carries an index, the index is dropped on restart:
    [a.items[1]], where [a] is a reference to [#/d], resolves to the span of
    the key [items] up to the end of its value (21 to 34), while the direct
    path [d.items[1]] resolves to the span of item 1 (32 to 33). *)
Theorem reference_crossing_drops_index (fuel : nat) :
  getPosition (4 + fuel) referencing_ast (PathString "a.items[1]")
    = Ret (Range (Some 21%Z) (Some 34%Z))
  /\ getPosition (4 + fuel) referencing_ast (PathString "d.items[1]")
    = Ret (Range (Some 32%Z) (Some 33%Z)).
Proof. split; reflexivity. Qed.

(** *** What the resolver does in general *)


Lemma scan_passes ast piece index pieces before rest :
  forallb (passed_over piece) before = true ->
  scan ast piece index pieces (before ++ rest) = scan ast piece index pieces rest.
Proof.
  induction before as [|[k v] before IH]; simpl; intros H; [reflexivity|].
  apply andb_true_iff in H. destruct H as [H1 H2]. unfold passed_over in H1. simpl in H1.
  apply andb_true_iff in H1. destruct H1 as [Hk Hr].
  apply negb_true_iff in Hk, Hr. rewrite Hk.
  destruct (key_is k "$ref"); simpl in Hr; [rewrite Hr|]; now apply IH.
Qed.

Lemma walk_step fuel ast node piece pieces :
  nonempty piece = true ->
  walk (S fuel) ast node (piece :: pieces) =
    match subNodes node with
    | None => Throw
    | Some children =>
        match scan ast (fst (stripped piece)) (snd (stripped piece)) pieces children with
        | Stop r => r
        | Continue node' pieces' => walk fuel ast node' pieces'
        end
    end.
Proof. intros N. simpl. now rewrite N. Qed.

(** A last segment without index resolves to the span from the start of the
    first matching key to the end of its value. *)
Lemma last_plain_segment fuel ast before k v after s e piece :
  nonempty piece = true ->
  match_index piece = None ->
  forallb (passed_over piece) before = true ->
  key_is k piece = true ->
  walk (S fuel) ast (AtNode (MappingNode (before ++ (k, v) :: after) s e)) [piece]
  = Ret (Range (Some (start_pointer k)) (Some (end_pointer v))).
Proof.
  intros N M B K. rewrite walk_step by exact N. unfold stripped. rewrite M. simpl fst. simpl snd.
  cbn [subNodes]. rewrite scan_passes by exact B. simpl. now rewrite K.
Qed.

(** A last segment with an index resolves to the span of the item the index
    read by [match_index] selects in the value of the first matching key. *)
Lemma last_indexed_segment fuel ast before k v after s e piece name i n :
  nonempty piece = true ->
  match_index piece = Some (name, i) ->
  forallb (passed_over name) before = true ->
  key_is k name = true ->
  item_at v i = Some (AtNode n) ->
  walk (S fuel) ast (AtNode (MappingNode (before ++ (k, v) :: after) s e)) [piece]
  = Ret (Range (Some (start_pointer n)) (Some (end_pointer n))).
Proof.
  intros N M B K I. rewrite walk_step by exact N. unfold stripped. rewrite M. simpl fst. simpl snd.
  cbn [subNodes]. rewrite scan_passes by exact B. simpl. now rewrite K, I.
Qed.

(** Crossing an internal reference: when the first child that is the key
    looked for or an internal reference is an internal reference, the walk
    goes on from the root with the segments of the reference, then the
    current segment without its index, then the remaining segments. *)
Lemma internal_reference_restarts fuel ast before k v after s e piece pieces :
  nonempty piece = true ->
  forallb (passed_over (fst (stripped piece))) before = true ->
  key_is k (fst (stripped piece)) = false ->
  key_is k "$ref" = true ->
  is_internal_ref v = true ->
  walk (S fuel) ast (AtNode (MappingNode (before ++ (k, v) :: after) s e)) (piece :: pieces)
  = walk fuel ast (AtNode ast) (refPaths v ++ fst (stripped piece) :: pieces).
Proof.
  intros N B K R I. rewrite walk_step by exact N.
  cbn [subNodes]. rewrite scan_passes by exact B. simpl. now rewrite K, R, I.
Qed.

(** When no child is the key looked for and every reference child is
    external, the lookup ends with not-found. *)
Lemma external_reference_not_found fuel ast children s e piece pieces :
  nonempty piece = true ->
  forallb (passed_over (fst (stripped piece))) children = true ->
  walk (S fuel) ast (AtNode (MappingNode children s e)) (piece :: pieces) = Ret NotFound.
Proof.
  intros N B. rewrite walk_step by exact N. cbn [subNodes].
  rewrite <- (app_nil_r children). rewrite scan_passes by exact B. reflexivity.
Qed.

Lemma list_ascii_of_string_app a b :
  list_ascii_of_string (a ++ b) = list_ascii_of_string a ++ list_ascii_of_string b.
Proof. induction a as [|c a IH]; simpl; [reflexivity|now rewrite IH]. Qed.

Lemma drop_digits_app ds rest :
  forallb is_digit ds = true ->
  drop_digits (ds ++ "["%char :: rest) = "["%char :: rest.
Proof.
  induction ds as [|d ds IH]; simpl; intros H; [reflexivity|].
  apply andb_true_iff in H. destruct H as [H1 H2]. rewrite H1. now apply IH.
Qed.

Lemma until_line_terminator_none l :
  forallb (fun c => negb (is_line_terminator c)) l = true -> until_line_terminator l = l.
Proof.
  induction l as [|c l IH]; simpl; intros H; [reflexivity|].
  apply andb_true_iff in H. destruct H as [H1 H2]. apply negb_true_iff in H1.
  rewrite H1. now rewrite IH.
Qed.

(** Whatever digits the index is written with, the index read is the value
    of the last digit alone. *)
Lemma match_index_reads_last_digit (name : string) (digits : list ascii) (d : ascii) :
  forallb (fun c => negb (is_line_terminator c)) (list_ascii_of_string name) = true ->
  forallb is_digit digits = true ->
  is_digit d = true ->
  match_index (name ++ "[" ++ string_of_list_ascii digits ++ String d "]")
  = Some (name, digit_value d).
Proof.
  intros Hn Hd Hl. unfold match_index.
  rewrite !list_ascii_of_string_app. simpl list_ascii_of_string.
  rewrite list_ascii_of_string_of_list_ascii.
  rewrite rev_app_distr. simpl rev. rewrite rev_app_distr. simpl rev.
  rewrite <- !app_assoc. simpl app. cbv beta iota. rewrite Hl.
  rewrite drop_digits_app by (rewrite forallb_forall in *; intros c Hc; apply Hd;
                              now apply in_rev).
  cbv beta iota.
  rewrite until_line_terminator_none
    by (rewrite forallb_forall in *; intros c Hc; apply Hn; now apply in_rev).
  rewrite rev_involutive, string_of_list_ascii_of_string. reflexivity.
Qed.

(** ** Parameter classifier *)

(** C8 (the code departs from the claim): a parameter whose default value
    is present but falsy (here 0) gets no [default] attribute on its value
    placeholder; a truthy default is attached. *)
Theorem falsy_default_is_dropped :
  option_map default_of
    (match convertParameterToElement offset_parameter with
     | Ret member => Some member
     | _ => None
     end) = Some None
  /\ lookup "default" match offset_parameter with Obj f => f | _ => [] end = Num 0.
Proof. split; reflexivity. Qed.

(** ** Grouping *)

(** C1 (the code departs from the claim): an operation with two tags, or
    two operations of one path with different tags, does not disable
    grouping.  With a two-tag operation on [/a] and a single-tagged one on
    [/b], [useResourceGroups] answers true, a resource group [pets] is
    created and only one resource is appended to the root; with tags [x]
    and [y] on the two operations of one path, the path goes to a group
    [x]. *)
Theorem conflicting_tags_do_not_disable_grouping :
  snd (useResourceGroups two_tags_document) = Ret true
  /\ grouping_of (sample_run two_tags_document) = Ret [([Str "pets"], 1)]
  /\ snd (useResourceGroups mixed_tags_document) = Ret true
  /\ grouping_of (sample_run mixed_tags_document) = Ret [([Str "x"], 0)].
Proof. repeat split; vm_compute; reflexivity. Qed.

(** ** The builder monad *)

Lemma bindM_Ret {A B} (m : M A) (f : A -> M B) (b : B) (log : list element) :
  bindM m f = Ret (b, log) ->
  exists a l1 l2, m = Ret (a, l1) /\ f a = Ret (b, l2) /\ log = l1 ++ l2.
Proof.
  unfold bindM. destruct m as [[a l1]| | |]; try discriminate.
  destruct (f a) as [[b' l2]| | |] eqn:E; try discriminate.
  intros H. inversion H; subst. eauto 6.
Qed.

Lemma lift_Ret {A} (o : outcome A) (a : A) (log : list element) :
  lift o = Ret (a, log) -> o = Ret a /\ log = [].
Proof.
  destruct o; simpl; try discriminate. intros H; inversion H; auto.
Qed.

Lemma emit_Ret (o : outcome element) (u : unit) (log : list element) :
  emit o = Ret (u, log) -> exists a, o = Ret a /\ log = [a].
Proof.
  destruct o; simpl; try discriminate. intros H; inversion H; eauto.
Qed.

Lemma unit_Ret {A} (a b : A) (log : list element) :
  unit_ a = Ret (b, log) -> b = a /\ log = [].
Proof. unfold unit_. intros H; inversion H; auto. Qed.

(** A source map only sets the [sourceMap] attribute, and logs nothing. *)
Lemma mapped_Ret gsm ast fuel (e e' : element) (p : string) (log : list element) :
  mapped gsm ast fuel e p = Ret (e', log) ->
  log = [] /\ (e' = e \/ exists s t, e' = set_attribute "sourceMap" (source_map s t) e).
Proof.
  unfold mapped. destruct gsm, ast as [a|]; try (intros H; apply unit_Ret in H; intuition).
  intros H. apply lift_Ret in H. destruct H as [H ->]. split; [reflexivity|].
  unfold makeSourceMap in H.
  destruct (getPosition fuel a (PathString p)) as [[|s t]| | |]; simpl in H;
    try discriminate; inversion H; subst; eauto.
Qed.

Lemma mapped_without_ast gsm fuel (e : element) (p : string) :
  mapped gsm None fuel e p = unit_ e.
Proof. unfold mapped. destruct gsm; reflexivity. Qed.

Lemma bindM_unit {A B} (a : A) (f : A -> M B) : bindM (Ret (a, [])) f = f a.
Proof. unfold bindM. destruct (f a) as [[b l]| | |]; reflexivity. Qed.

Lemma completes_unit {A} (a : A) : completes (unit_ a).
Proof. unfold completes, unit_; eauto. Qed.

Lemma completes_bind {A B} (m : M A) (f : A -> M B) :
  completes m -> (forall a, completes (f a)) -> completes (bindM m f).
Proof.
  intros (a & l & E) F. subst m. destruct (F a) as (b & l' & E).
  unfold completes, bindM. rewrite E. eauto.
Qed.

Lemma completes_lift {A} (o : outcome A) (a : A) : o = Ret a -> completes (lift o).
Proof. intros ->. unfold completes; simpl; eauto. Qed.

Lemma completes_after_lift {A B} (o : outcome A) (a : A) (f : A -> M B) :
  o = Ret a -> completes (f a) -> completes (bindM (lift o) f).
Proof.
  intros -> (b & l & E). unfold completes. simpl. rewrite E. eauto.
Qed.

Lemma completes_mapped gsm fuel e p : completes (mapped gsm None fuel e p).
Proof. rewrite mapped_without_ast. apply completes_unit. Qed.

Lemma makeAnnotation_without_ast fuel info p message :
  exists a, makeAnnotation fuel None info p message = Ret a.
Proof. unfold makeAnnotation. eauto. Qed.

Lemma completes_setupAnnotation fuel info p message :
  completes (setupAnnotation None fuel info p message).
Proof.
  unfold setupAnnotation.
  destruct (makeAnnotation_without_ast fuel info (Some (PathString p)) (Str message)) as [a E].
  rewrite E. unfold completes; simpl; eauto.
Qed.

Ltac inv_bind H :=
  let a := fresh "a" in
  let l1 := fresh "log" in
  let l2 := fresh "log" in
  let H1 := fresh H in
  let E := fresh "E" in
  apply bindM_Ret in H; destruct H as (a & l1 & l2 & H1 & H & E); subst.

(** ** Elements *)

Lemma get_set_entry (k : string) (e : element) (m : list (string * element)) :
  get_entry k (set_entry k e m) = Some e.
Proof.
  induction m as [|[k' e'] m IH]; simpl.
  - now rewrite String.eqb_refl.
  - destruct (String.eqb k' k) eqn:E; simpl; now rewrite E.
Qed.

Lemma get_set_entry_other (k k' : string) (e : element) (m : list (string * element)) :
  k <> k' -> get_entry k' (set_entry k e m) = get_entry k' m.
Proof.
  intros N. induction m as [|[k0 e0] m IH]; simpl.
  - destruct (String.eqb k k') eqn:E; [apply String.eqb_eq in E; contradiction|reflexivity].
  - destruct (String.eqb k0 k) eqn:E; simpl.
    + apply String.eqb_eq in E; subst k0.
      destruct (String.eqb k k') eqn:E'; [apply String.eqb_eq in E'; contradiction|reflexivity].
    + destruct (String.eqb k0 k'); [reflexivity|apply IH].
Qed.

Lemma content_set_attribute (k : string) (v e : element) :
  content_of (set_attribute k v e) = content_of e.
Proof. destruct e; reflexivity. Qed.

Lemma name_set_attribute (k : string) (v e : element) :
  element_name (set_attribute k v e) = element_name e.
Proof. destruct e; reflexivity. Qed.

Lemma meta_set_attribute (k : string) (v e : element) :
  meta (set_attribute k v e) = meta e.
Proof. destruct e; reflexivity. Qed.

(** ** Host and schemes *)

(** What [makeAnnotation] returns is an annotation of the kind asked for,
    holding the message. *)
Lemma makeAnnotation_kind fuel ast info p message a :
  makeAnnotation fuel ast info p message = Ret a ->
  info = CANNOT_PARSE \/ info = AST_UNAVAILABLE \/ info = DATA_LOST
    \/ info = VALIDATION_ERROR ->
  is_annotation info a = true /\ content_of a = content_from message.
Proof.
  intros H K. unfold makeAnnotation in H.
  assert (B : forall a0, a0 = a \/ (exists s t, set_attribute "sourceMap" (source_map s t) a0 = a) ->
            is_annotation info a0 = true /\ content_of a0 = content_from message ->
            is_annotation info a = true /\ content_of a = content_from message).
  { intros a0 [-> | (s & t & <-)] [I C]; [auto|]. split.
    - unfold is_annotation, has_class in *.
      rewrite name_set_attribute, meta_set_attribute.
      destruct a0 as [n m at_ c]; simpl in *.
      rewrite get_set_entry_other by discriminate. exact I.
    - now rewrite content_set_attribute. }
  assert (G : forall a0, is_annotation info a0 = true /\ content_of a0 = content_from message ->
            match ast, path_truthy p with
            | Some a1, Some p' =>
                position <- getPosition fuel a1 p' ;;
                match position with
                | Range (Some start) (Some end_) =>
                    Ret (set_attribute "sourceMap" (source_map (Some start) (Some end_)) a0)
                | _ => Ret a0
                end
            | _, _ => Ret a0
            end = Ret a ->
            is_annotation info a = true /\ content_of a = content_from message).
  { intros a0 I E. apply (B a0); [|exact I].
    destruct ast as [a1|]; [|inversion E; auto].
    destruct (path_truthy p) as [p'|]; [|inversion E; auto].
    destruct (getPosition fuel a1 p') as [[|[s|] [t|]]| | |]; simpl in E;
      try discriminate; inversion E; eauto. }
  destruct K as [-> | [-> | [-> | ->]]]; simpl in H; (eapply G; [|exact H]);
    (split; [reflexivity|destruct message; reflexivity]).
Qed.



(** ** Transactions *)

Lemma decorated_refl e : decorated e e.
Proof. left; reflexivity. Qed.

Lemma mapped_decorated gsm ast fuel e e' p log :
  mapped gsm ast fuel e p = Ret (e', log) -> log = [] /\ decorated e e'.
Proof. exact (mapped_Ret gsm ast fuel e e' p log). Qed.

Lemma decorated_name e e' : decorated e e' -> element_name e' = element_name e.
Proof. intros [-> | (s & t & ->)]; [reflexivity|apply name_set_attribute]. Qed.

Lemma decorated_content e e' : decorated e e' -> content_of e' = content_of e.
Proof. intros [-> | (s & t & ->)]; [reflexivity|apply content_set_attribute]. Qed.

Lemma decorated_meta e e' : decorated e e' -> meta e' = meta e.
Proof. intros [-> | (s & t & ->)]; [reflexivity|apply meta_set_attribute]. Qed.

Lemma attribute_set_attribute_other k k' v e :
  k <> k' -> get_entry k' (attributes (set_attribute k v e)) = get_entry k' (attributes e).
Proof. intros N. destruct e; simpl. now apply get_set_entry_other. Qed.

Lemma attribute_set_attribute k v e :
  get_entry k (attributes (set_attribute k v e)) = Some v.
Proof. destruct e; simpl. apply get_set_entry. Qed.

Lemma decorated_attribute e e' k :
  decorated e e' -> k <> "sourceMap" ->
  get_entry k (attributes e') = get_entry k (attributes e).
Proof.
  intros [-> | (s & t & ->)] N; [reflexivity|].
  apply attribute_set_attribute_other. congruence.
Qed.

Lemma decorated_children e e' : decorated e e' -> children e' = children e.
Proof. intros D. unfold children. now rewrite (decorated_content _ _ D). Qed.

Lemma decorated_has_class c e e' : decorated e e' -> has_class c e' = has_class c e.
Proof. intros D. unfold has_class. now rewrite (decorated_meta _ _ D). Qed.

Lemma children_push x e items :
  content_of e = CElements items -> children (push x e) = items ++ [x].
Proof. destruct e as [n m a c]; simpl. intros ->. reflexivity. Qed.

Lemma content_push x e items :
  content_of e = CElements items -> content_of (push x e) = CElements (items ++ [x]).
Proof. destruct e as [n m a c]; simpl. intros ->. reflexivity. Qed.

Lemma attributes_push x e : attributes (push x e) = attributes e.
Proof. destruct e as [n m a [| |items|]]; reflexivity. Qed.

Lemma name_push x e : element_name (push x e) = element_name e.
Proof. destruct e as [n m a [| |items|]]; reflexivity. Qed.

Lemma meta_push x e : meta (push x e) = meta e.
Proof. destruct e as [n m a [| |items|]]; reflexivity. Qed.

Lemma for_each_Ret_log {A S} (body : A -> S -> M S) (xs : list A) (s s' : S) log :
  (forall x s0 s1 l, body x s0 = Ret (s1, l) -> l = []) ->
  for_each body xs s = Ret (s', log) -> log = [].
Proof.
  intros B. revert s log. induction xs as [|x xs IH]; simpl; intros s log H.
  - apply unit_Ret in H. tauto.
  - inv_bind H. apply B in H0. subst. apply IH in H. subst. reflexivity.
Qed.

(** Invariants kept along a loop. *)
Lemma for_each_invariant {A S} (I : S -> Prop) (body : A -> S -> M S) (xs : list A)
    (s s' : S) log :
  (forall x s0 s1 l, I s0 -> body x s0 = Ret (s1, l) -> I s1) ->
  I s -> for_each body xs s = Ret (s', log) -> I s'.
Proof.
  intros B. revert s log. induction xs as [|x xs IH]; simpl; intros s log Is H.
  - apply unit_Ret in H. destruct H as [-> _]. exact Is.
  - inv_bind H. eapply IH; [|exact H]. eapply B; eauto.
Qed.



Lemma logs_unit {A} P (a : A) : logs P (unit_ a).
Proof. intros b log H. apply unit_Ret in H. destruct H as [_ ->]. constructor. Qed.

Lemma logs_lift {A} P (o : outcome A) : logs P (lift o).
Proof. intros b log H. apply lift_Ret in H. destruct H as [_ ->]. constructor. Qed.

Lemma logs_bind {A B} P (m : M A) (f : A -> M B) :
  logs P m -> (forall a, logs P (f a)) -> logs P (bindM m f).
Proof.
  intros Hm Hf b log H. inv_bind H. apply Forall_app. split; [eapply Hm|eapply Hf]; eauto.
Qed.

Lemma logs_mapped P gsm ast fuel e p : logs P (mapped gsm ast fuel e p).
Proof. intros b log H. apply mapped_Ret in H. destruct H as [-> _]. constructor. Qed.

Lemma logs_for_each {A S} P (body : A -> S -> M S) (xs : list A) (s : S) :
  (forall x s0, logs P (body x s0)) -> logs P (for_each body xs s).
Proof.
  intros B. revert s. induction xs as [|x xs IH]; simpl; intros s.
  - apply logs_unit.
  - apply logs_bind; [apply B|intros; apply IH].
Qed.

Lemma logs_emit P (o : outcome element) :
  (forall a, o = Ret a -> P a) -> logs P (emit o).
Proof.
  intros Ho u log H. apply emit_Ret in H. destruct H as (a & E & ->).
  constructor; [auto|constructor].
Qed.

Lemma logs_Throw {A} P : logs P (@Throw (A * list element)).
Proof. intros a log H. discriminate. Qed.

Ltac logs_step :=
  first
    [ apply logs_unit
    | apply logs_lift
    | apply logs_mapped
    | apply logs_Throw
    | apply logs_bind; [|intros ?]
    | apply logs_for_each; intros ? ?
    | match goal with
      | |- logs _ (if ?c then _ else _) => destruct c
      | |- logs _ (match ?x with _ => _ end) => destruct x
      | |- logs _ (let '(_, _) := ?x in _) => destruct x
      end ].

Section Ex.
Variables (gsm : bool) (ast : option node) (fuel : nat).
Variables (JSON_stringify JSON_stringify_indented : value -> value).
Variable P : element -> Prop.

Lemma logs_header_member base headerName header :
  logs P (header_member gsm ast fuel base headerName header).
Proof. unfold header_member. repeat logs_step. Qed.

Lemma logs_example_transaction operation method statusCode responseValue
    bodyParameters contentType responseBody :
  logs P (example_transaction gsm ast fuel JSON_stringify JSON_stringify_indented
            operation method statusCode responseValue bodyParameters contentType
            responseBody).
Proof.
  unfold example_transaction. repeat (logs_step || apply logs_header_member).
Qed.

Lemma logs_response_transactions operation method bodyParameters statusCode
    responseValue transition :
  logs P (response_transactions gsm ast fuel JSON_stringify JSON_stringify_indented
            operation method bodyParameters statusCode responseValue transition).
Proof.
  unfold response_transactions. repeat (logs_step || apply logs_example_transaction).
Qed.
End Ex.

Ltac step H :=
  let a := fresh "x" in
  let l1 := fresh "l" in
  let l2 := fresh "l" in
  let H1 := fresh "S" in
  let E := fresh "E" in
  apply bindM_Ret in H; destruct H as (a & l1 & l2 & H1 & H & E); subst;
  first [ apply lift_Ret in H1; destruct H1 as [H1 ->]
        | apply mapped_decorated in H1; destruct H1 as [-> H1]
        | apply unit_Ret in H1; destruct H1 as [-> ->]
        | idtac ].



Lemma response_like_new : response_like [] None (new_array "httpResponse").
Proof. repeat split. Qed.

Lemma response_like_decorated items headers e e' :
  decorated e e' -> response_like items headers e -> response_like items headers e'.
Proof.
  intros D (C & H & S). repeat split.
  - now rewrite (decorated_content _ _ D).
  - rewrite (decorated_attribute _ _ _ D); [exact H|discriminate].
  - rewrite (decorated_attribute _ _ _ D); [exact S|discriminate].
Qed.

Lemma response_like_push x items headers e :
  response_like items headers e -> response_like (items ++ [x]) headers (push x e).
Proof.
  intros (C & H & S). repeat split.
  - now apply content_push.
  - now rewrite attributes_push.
  - now rewrite attributes_push.
Qed.

Lemma response_like_headers v items headers e :
  response_like items headers e ->
  response_like items (Some v) (set_attribute "headers" v e).
Proof.
  intros (C & H & S). repeat split.
  - now rewrite content_set_attribute.
  - apply attribute_set_attribute.
  - rewrite attribute_set_attribute_other; [exact S|discriminate].
Qed.

Lemma has_class_copy c description copy :
  decorated (new_value "copy" description) copy -> has_class c copy = false.
Proof. intros D. rewrite (decorated_has_class _ _ _ D). reflexivity. Qed.

Lemma meta_new_value n v : meta (new_value n v) = [].
Proof. reflexivity. Qed.

Lemma body_asset_decorated v asset :
  decorated (push_class "messageBody" (new_value "asset" v)) asset ->
  has_class "messageBody" asset = true /\ content_of asset = content_from v.
Proof.
  intros D. rewrite (decorated_has_class _ _ _ D), (decorated_content _ _ D).
  split; reflexivity.
Qed.

Lemma schema_asset_is_no_body stringify v :
  has_class "messageBody" (createAssetFromJsonSchema stringify v) = false.
Proof. reflexivity. Qed.

Section Shape.
Variables (gsm : bool) (ast : option node) (fuel : nat).
Variables (JSON_stringify JSON_stringify_indented : value -> value).

Lemma example_transaction_shape operation method statusCode responseValue
    bodyParameters contentType responseBody t log :
  example_transaction gsm ast fuel JSON_stringify JSON_stringify_indented
    operation method statusCode responseValue bodyParameters contentType
    responseBody = Ret (t, log) ->
  element_name t = "httpTransaction"
  /\ exists request response,
      children t = [request; response]
      /\ (nonempty contentType = true ->
          exists m rest,
            response_headers response = m :: rest
            /\ member_key m = Some (Str "Content-Type")
            /\ member_value m = Some (Str contentType))
      /\ body_assets response =
           (if strict_eq responseBody Undefined then []
            else [content_from (formatted JSON_stringify_indented responseBody)])
      /\ get_entry "statusCode" (attributes response) =
           (if String.eqb statusCode "null" then None
            else Some (refract (Str statusCode)))
      /\ (prop responseValue "description" = Ret Undefined ->
          prop responseValue "schema" = Ret Undefined ->
          prop responseValue "examples" = Ret Undefined ->
          responseBody = Undefined ->
          children response = [])
      /\ get_entry "method" (attributes request) =
           (if nonempty method then Some (refract (Str (to_upper method))) else None)
      /\ List.length (children request) = List.length bodyParameters.
Proof.
  unfold example_transaction. intros H.
  step H. rename x into transaction, S into Dt.
  step H. rename x into request, S into Dq.
  step H. rename x into response1.
  step H. rename x into description.
  step H. rename x into response2.
  step H. rename x into headers1.
  step H. rename x into declared.
  step H. rename x into headers2.
  step H. rename x into request2.
  step H. rename x into response3.
  step H. step H. step H.
  apply unit_Ret in H. destruct H as [-> ->].
  rename x into schema, x0 into examples, x1 into examples_schema.
  (* the response before the headers are attached *)
  assert (R1 : response_like [] None response1).
  { assert (D : decorated (response_of transaction) response1).
    { destruct (nonempty statusCode).
      - apply mapped_decorated in S. tauto.
      - apply unit_Ret in S. destruct S as [-> _]. apply decorated_refl. }
    apply (response_like_decorated _ _ _ _ D).
    unfold response_of. rewrite (decorated_children _ _ Dt). apply response_like_new. }
  assert (R2 : exists copies, response_like copies None response2
               /\ filter (has_class "messageBody") copies = []
               /\ (description = Undefined -> copies = [])).
  { destruct (truthy description) eqn:T.
    - step S1. apply unit_Ret in S1. destruct S1 as [-> _].
      exists ([] ++ [x]). split; [now apply response_like_push|]. split.
      + simpl. now rewrite (has_class_copy _ _ _ S10).
      + intros ->. discriminate.
    - apply unit_Ret in S1. destruct S1 as [-> _]. exists []. auto. }
  destruct R2 as (copies & R2 & F2 & E2).
  (* the headers *)
  assert (Hd : nonempty contentType = true ->
               exists m rest, children headers2 = m :: rest
                 /\ member_key m = Some (Str "Content-Type")
                 /\ member_value m = Some (Str contentType)).
  { intros N. rewrite N in S2. step S2. apply unit_Ret in S2. destruct S2 as [-> _].
    assert (I : exists rest, content_of headers2 = CElements (x :: rest)).
    { destruct (truthy declared).
      - eapply (for_each_invariant
                  (fun h => exists rest, content_of h = CElements (x :: rest)));
          [| |exact S4].
        + intros kv h0 h1 l' (rest & C) B. step B.
          apply unit_Ret in B. destruct B as [-> _].
          exists (rest ++ [x0]). now apply (content_push _ _ (x :: rest)).
        + exists []. reflexivity.
      - apply unit_Ret in S4. destruct S4 as [-> _]. exists []. reflexivity. }
    destruct I as (rest & I). exists x, rest. unfold children. rewrite I.
    split; [reflexivity|]. unfold member_key, member_value.
    rewrite (decorated_content _ _ S10). split; reflexivity. }
  set (response2h := if (nonempty contentType || truthy declared)%bool
                     then set_attribute "headers" headers2 response2 else response2) in *.
  assert (R2h : exists h, response_like copies h response2h
                /\ (nonempty contentType = true -> h = Some headers2)).
  { unfold response2h. destruct (nonempty contentType); simpl.
    - exists (Some headers2). split; [now apply (response_like_headers _ _ None)|auto].
    - destruct (truthy declared).
      + exists (Some headers2). split; [now apply (response_like_headers _ _ None)|discriminate].
      + exists None. split; [exact R2|discriminate]. }
  destruct R2h as (h & R2h & Hh).
  assert (R3 : exists bodies, response_like (copies ++ bodies) h response3
               /\ map content_of (filter (has_class "messageBody") bodies) =
                  (if strict_eq responseBody Undefined then []
                   else [content_from (formatted JSON_stringify_indented responseBody)])
               /\ (responseBody = Undefined -> bodies = [])).
  { destruct (strict_eq responseBody Undefined) eqn:T.
    - apply unit_Ret in S6. destruct S6 as [-> _]. exists [].
      rewrite app_nil_r. auto.
    - step S6. apply unit_Ret in S6. destruct S6 as [-> _].
      exists [x]. split; [now apply response_like_push|].
      apply body_asset_decorated in S10. destruct S10 as [C1 C2].
      split; [simpl; rewrite C1; simpl; now rewrite C2|].
      intros ->. discriminate. }
  destruct R3 as (bodies & R3 & F3 & E3).
  set (response4 := if truthy (or_else schema examples_schema)
                    then push (createAssetFromJsonSchema JSON_stringify
                                 (or_else schema examples_schema)) response3
                    else response3) in *.
  assert (R4 : exists schemas, response_like ((copies ++ bodies) ++ schemas) h response4
               /\ filter (has_class "messageBody") schemas = []
               /\ (schema = Undefined -> examples = Undefined -> schemas = [])).
  { unfold response4. destruct (truthy (or_else schema examples_schema)) eqn:T.
    - eexists [_]. split; [now apply response_like_push|]. split; [reflexivity|].
      intros -> ->. simpl in S9. inversion S9; subst. discriminate.
    - exists []. rewrite app_nil_r. auto. }
  destruct R4 as (schemas & (C4 & H4 & S4') & F4 & E4).
  (* the request *)
  assert (Q : get_entry "method" (attributes request2) =
                (if nonempty method then Some (refract (Str (to_upper method))) else None)
              /\ List.length (children request2) = List.length bodyParameters).
  { assert (Q0 : get_entry "method" (attributes request) =
                   (if nonempty method then Some (refract (Str (to_upper method)))
                    else None)
                 /\ content_of request = CElements []).
    { rewrite (decorated_attribute _ _ _ Dq) by discriminate.
      rewrite (decorated_content _ _ Dq).
      unfold request_of. rewrite (decorated_children _ _ Dt).
      unfold createTransaction. destruct (nonempty method); split; reflexivity. }
    destruct Q0 as [Qa Qc]. clear - S5 Qa Qc.
    assert (G : forall ps r r' l items,
               for_each
                 (fun (bodyParameter : value) (request : element) =>
                    schema <~ lift (prop bodyParameter "schema") ;;
                    unit_ (push (createAssetFromJsonSchema JSON_stringify schema) request))
                 ps r = Ret (r', l) ->
               content_of r = CElements items ->
               attributes r' = attributes r
               /\ List.length (children r') = (List.length items + List.length ps)%nat).
    { induction ps as [|p ps IH]; simpl; intros r r' l items H C.
      - apply unit_Ret in H. destruct H as [-> _]. unfold children. rewrite C.
        split; [reflexivity|lia].
      - step H. step S. apply unit_Ret in S. destruct S as [-> _].
        apply (IH _ _ _ (items ++ [createAssetFromJsonSchema JSON_stringify x0])) in H;
          [|now apply content_push].
        destruct H as [Ha Hl]. rewrite Ha, attributes_push. split; [reflexivity|].
        rewrite Hl, length_app. simpl. lia. }
    destruct (G _ _ _ _ _ S5 Qc) as [Ga Gl]. rewrite Ga. split; [exact Qa|exact Gl]. }
  destruct Q as [Qm Ql].
  split.
  { unfold with_children. destruct transaction as [n m a c].
    apply decorated_name in Dt. exact Dt. }
  eexists. eexists. split.
  { unfold with_children, children. destruct transaction; simpl. reflexivity. }
  assert (B : forall r, content_of r = CElements ((copies ++ bodies) ++ schemas) ->
              body_assets r =
                (if strict_eq responseBody Undefined then []
                 else [content_from (formatted JSON_stringify_indented responseBody)])).
  { intros r Cr. unfold body_assets, children. rewrite Cr.
    rewrite !filter_app, F2, F4, app_nil_r. simpl. exact F3. }
  assert (Em : forall r, content_of r = CElements ((copies ++ bodies) ++ schemas) ->
               prop responseValue "description" = Ret Undefined ->
               prop responseValue "schema" = Ret Undefined ->
               prop responseValue "examples" = Ret Undefined ->
               responseBody = Undefined -> children r = []).
  { intros r Cr P1 P2 P3 P4. unfold children. rewrite Cr.
    rewrite P1 in S0. inversion S0; subst description.
    rewrite P2 in S7. inversion S7; subst schema.
    rewrite P3 in S8. inversion S8; subst examples.
    rewrite E2, E3, E4; auto. }
  destruct (String.eqb statusCode "null").
  - split; [|split; [now apply B|split; [exact S4'|split; [now apply Em|auto]]]].
    intros N. unfold response_headers. rewrite H4, (Hh N). now apply Hd.
  - split; [|split; [|split; [|split; [|auto]]]].
    + intros N. unfold response_headers.
      rewrite attribute_set_attribute_other by discriminate.
      rewrite H4, (Hh N). now apply Hd.
    + apply B. now rewrite content_set_attribute.
    + apply attribute_set_attribute.
    + apply Em. now rewrite content_set_attribute.
Qed.
End Shape.



Lemma completes_for_each {A S} (body : A -> S -> M S) (xs : list A) (s : S) :
  (forall x s0, In x xs -> completes (body x s0)) -> completes (for_each body xs s).
Proof.
  revert s. induction xs as [|x xs IH]; simpl; intros s B.
  - apply completes_unit.
  - apply completes_bind; [apply B; auto|intros s'; apply IH; auto].
Qed.

Lemma prop_of_object v k : is_obj v = true -> exists x, prop v k = Ret x.
Proof. destruct v; try discriminate. simpl; eauto. Qed.


Section C6.
Variables (gsm : bool) (ast : option node) (fuel : nat).
Variables (JSON_stringify JSON_stringify_indented : value -> value).

End C6.

Lemma completes_lift_some {A} (o : outcome A) : (exists a, o = Ret a) -> completes (lift o).
Proof. intros (a & ->). unfold completes; simpl; eauto. Qed.

Lemma prop_of_truthy v k : truthy v = true -> exists x, prop v k = Ret x.
Proof.
  destruct v; try discriminate; simpl; intros _; eauto.
  - destruct (k =? "length"); eauto.
  - destruct (k =? "length"); eauto.
Qed.

Lemma guarded_prop v k : exists x, (if truthy v then prop v k else Ret v) = Ret x.
Proof. destruct (truthy v) eqn:T; [now apply prop_of_truthy|eauto]. Qed.

Ltac prop_returns :=
  first [ apply guarded_prop
        | apply prop_of_object; assumption
        | apply prop_of_truthy; assumption
        | match goal with
          | |- exists x, (if truthy ?v then _ else _) = Ret x =>
              destruct (truthy v) eqn:?;
              [apply prop_of_truthy; assumption|eexists; reflexivity]
          end
        | eexists; reflexivity ].

Ltac completes_step :=
  first
    [ apply completes_unit
    | apply completes_mapped
    | apply completes_setupAnnotation
    | match goal with
      | |- completes (bindM (lift ?o) _) =>
          let x := fresh "x" in
          let Hx := fresh "Hx" in
          assert (exists x, o = Ret x) as [x Hx] by prop_returns;
          apply (completes_after_lift _ _ _ Hx)
      end
    | apply completes_bind; [|intros ?]
    | match goal with
      | |- completes (if ?c then _ else _) => destruct c eqn:?
      | |- completes (match ?x with _ => _ end) => destruct x eqn:?
      end ].

Section C6b.
Variables (gsm : bool) (fuel : nat).
Variables (JSON_stringify JSON_stringify_indented : value -> value).

Lemma completes_header_member base headerName header :
  is_obj header = true ->
  completes (header_member gsm None fuel base headerName header).
Proof.
  intros O. unfold header_member. repeat completes_step.
Qed.

Lemma completes_example_transaction operation method statusCode responseValue
    bodyParameters contentType responseBody :
  is_obj responseValue = true ->
  (forall headers, prop responseValue "headers" = Ret headers ->
                   forallb (fun kv => is_obj (snd kv)) (own_entries headers) = true) ->
  forallb is_obj bodyParameters = true ->
  completes (example_transaction gsm None fuel JSON_stringify JSON_stringify_indented
               operation method statusCode responseValue bodyParameters contentType
               responseBody).
Proof.
  intros O Hh Hb. unfold example_transaction.
  repeat completes_step.
  - apply completes_for_each. intros kv h I.
    specialize (Hh _ Hx0). rewrite forallb_forall in Hh. specialize (Hh _ I).
    apply completes_bind; [now apply completes_header_member|intros; apply completes_unit].
  - apply completes_for_each. intros p r I.
    rewrite forallb_forall in Hb. specialize (Hb _ I).
    repeat completes_step.
Qed.

Lemma completes_response_transactions operation method bodyParameters statusCode
    responseValue transition :
  is_obj responseValue = true ->
  (forall headers, prop responseValue "headers" = Ret headers ->
                   forallb (fun kv => is_obj (snd kv)) (own_entries headers) = true) ->
  (forall declared, prop responseValue "examples" = Ret declared ->
                    array_like (omit_keys ["schema"] declared) = false) ->
  forallb is_obj bodyParameters = true ->
  completes (response_transactions gsm None fuel JSON_stringify JSON_stringify_indented
               operation method bodyParameters statusCode responseValue transition).
Proof.
  intros O Hh He Hb. unfold response_transactions.
  completes_step.
  assert (A : array_like (omit_keys ["schema"]
                (if truthy x then x else Obj [("", Undefined)])) = false).
  { destruct (truthy x); [now apply He|reflexivity]. }
  unfold keyed_entries. rewrite A. completes_step.
  apply completes_for_each. intros kv t I.
  apply completes_bind; [now apply completes_example_transaction|intros; apply completes_unit].
Qed.
End C6b.


(** ** Operations without declared responses *)

Ltac stepn H a H1 :=
  let l1 := fresh "l" in
  let l2 := fresh "l" in
  let E := fresh "E" in
  apply bindM_Ret in H; destruct H as (a & l1 & l2 & H1 & H & E); subst;
  first [ apply lift_Ret in H1; destruct H1 as [H1 ->]
        | apply mapped_decorated in H1; destruct H1 as [-> H1]
        | apply unit_Ret in H1; destruct H1 as [-> ->]
        | idtac ].

Section C5.
Variables (gsm : bool) (ast : option node) (fuel : nat).
Variable buildUriTemplate : string -> string -> value -> list value -> string.
Variables (JSON_stringify JSON_stringify_indented : value -> value).



Lemma copies_only_attribute k v e : copies_only e -> copies_only (set_attribute k v e).
Proof.
  intros (items & C & F & N). exists items.
  now rewrite content_set_attribute, name_set_attribute.
Qed.

Lemma copies_only_meta k v e : copies_only e -> copies_only (set_meta k v e).
Proof. intros (items & C & F & N). exists items. destruct e; auto. Qed.

Lemma copies_only_decorated e e' : decorated e e' -> copies_only e -> copies_only e'.
Proof.
  intros D (items & C & F & N). exists items.
  now rewrite (decorated_content _ _ D), (decorated_name _ _ D).
Qed.

Lemma transition_before_transactions basePath href pathObjectParameters method
    methodValue resource resource' log :
  operation_transition gsm ast fuel buildUriTemplate JSON_stringify
    JSON_stringify_indented basePath href pathObjectParameters method methodValue
    resource = Ret (resource', log) ->
  exists parameters queryParameters bodyParameters responses transition transition' l,
    prop methodValue "parameters" = Ret parameters
    /\ parameters_in ["query"] (or_else parameters (Arr [])) = Ret queryParameters
    /\ parameters_in ["body"] (or_else parameters (Arr [])) = Ret bodyParameters
    /\ prop methodValue "responses" = Ret responses
    /\ copies_only transition
    /\ operation_transactions gsm ast fuel JSON_stringify JSON_stringify_indented
         ("paths." ++ href ++ "." ++ method) method (map snd bodyParameters)
         responses transition = Ret (transition', l)
    /\ resource' =
         push transition'
           (set_attribute "href"
              (refract (Str (buildUriTemplate basePath href pathObjectParameters
                               (map snd queryParameters))))
              resource).
Proof.
  unfold operation_transition. intros H.
  stepn H t0 D0. stepn H externalDocs Pe. stepn H u1 A1.
  stepn H parameters Pp. stepn H queryParameters Pq. stepn H uriParameters Pu.
  stepn H bodyParameters Pb. stepn H formParameters Pf. stepn H u2 A2.
  stepn H summary Ps. stepn H t1 T1. stepn H description Pd. stepn H t2 T2.
  stepn H operationId Po. stepn H t3 T3. stepn H responses Pr. stepn H t4 T4.
  apply unit_Ret in H. destruct H as [-> _].
  exists parameters, queryParameters, bodyParameters, responses, t3, t4, l4.
  repeat (split; [assumption|]). split; [|split; [exact T4|reflexivity]].
  assert (C0 : copies_only t0).
  { apply (copies_only_decorated _ _ D0). exists []. repeat split. constructor. }
  assert (C1 : copies_only t1).
  { destruct (truthy summary).
    - stepn T1 t T. apply unit_Ret in T1. destruct T1 as [-> _].
      now apply copies_only_meta.
    - apply unit_Ret in T1. destruct T1 as [-> _]. exact C0. }
  assert (C2 : copies_only t2).
  { destruct (truthy description).
    - stepn T2 copy Dc. apply unit_Ret in T2. destruct T2 as [-> _].
      destruct C1 as (items & C & F & N). exists (items ++ [copy]).
      split; [now apply content_push|]. split; [|now rewrite name_push].
      apply Forall_app. split; [exact F|]. constructor; [|constructor].
      now rewrite (decorated_name _ _ Dc).
    - apply unit_Ret in T2. destruct T2 as [-> _]. exact C1. }
  assert (C2' : copies_only (if truthy operationId
                             then set_attribute "relation" (refract operationId) t2
                             else t2)).
  { destruct (truthy operationId); [now apply copies_only_attribute|exact C2]. }
  destruct uriParameters.
  - apply unit_Ret in T3. destruct T3 as [-> _]. exact C2'.
  - stepn T3 hv Hv. apply unit_Ret in T3. destruct T3 as [-> _].
    now apply copies_only_attribute.
Qed.

End C5.

Lemma filter_in_objects kinds items i :
  forallb is_obj items = true ->
  exists found, filter_in kinds i items = Ret found
                /\ forallb is_obj (map snd found) = true.
Proof.
  revert i. induction items as [|p items IH]; simpl; intros i H.
  - exists []. auto.
  - apply andb_true_iff in H. destruct H as [Hp Hi].
    destruct (prop_of_object p "in" Hp) as [w ->]. simpl.
    destruct (IH (S i) Hi) as (found & -> & F). simpl.
    destruct (existsb _ kinds); eexists; split; try reflexivity; simpl; [|exact F].
    now rewrite Hp, F.
Qed.

Lemma parameters_in_objects kinds parameters :
  parameters = Undefined \/ (exists items, parameters = Arr items /\ forallb is_obj items = true) ->
  exists found, parameters_in kinds (or_else parameters (Arr [])) = Ret found
                /\ forallb is_obj (map snd found) = true.
Proof.
  intros [-> | (items & -> & H)].
  - exists []. auto.
  - unfold or_else. simpl. now apply filter_in_objects.
Qed.

Lemma convertParameterToElement_object parameter :
  is_obj parameter = true -> exists member, convertParameterToElement parameter = Ret member.
Proof. destruct parameter; try discriminate. intros _. unfold convertParameterToElement. simpl. eauto. Qed.

Section C5b.
Variables (gsm : bool) (fuel : nat).
Variable buildUriTemplate : string -> string -> value -> list value -> string.
Variables (JSON_stringify JSON_stringify_indented : value -> value).


Lemma completes_uri_members operation uriParameters :
  forallb is_obj (map snd uriParameters) = true ->
  completes (uri_members gsm None fuel operation uriParameters).
Proof.
  intros H. unfold uri_members. apply completes_for_each. intros ip hv I.
  assert (O : is_obj (snd ip) = true).
  { rewrite forallb_forall in H. apply H. now apply in_map. }
  destruct (convertParameterToElement_object _ O) as [member Hm].
  apply (completes_after_lift _ _ _ Hm). repeat completes_step.
Qed.

End C5b.


(** ** Validation errors *)

Lemma details_count_pushed items :
  details_count items = (List.length items + list_sum (map details_count (pushed items)))%nat.
Proof.
  unfold details_count. induction items as [|[p m [inner|]] items IH]; simpl.
  - reflexivity.
  - fold (details_count inner). rewrite IH. unfold details_count. lia.
  - rewrite IH. lia.
Qed.

Lemma queue_lists_app q r : queue_lists (q ++ r) = (queue_lists q + queue_lists r)%nat.
Proof. unfold queue_lists. now rewrite map_app, list_sum_app. Qed.

Lemma queue_lists_pushed items :
  queue_lists (pushed items) = list_sum (map detail_lists items).
Proof.
  unfold queue_lists. induction items as [|[p m [inner|]] items IH]; simpl.
  - reflexivity.
  - rewrite IH. reflexivity.
  - exact IH.
Qed.

Section Drain.
Variables (ast : option node) (fuel : nat).

Lemma annotate_items_log items u log :
  annotate_items ast fuel items = Ret (u, log) ->
  List.length log = List.length items
  /\ Forall (fun a => is_annotation VALIDATION_ERROR a = true) log.
Proof.
  unfold annotate_items. revert u log.
  induction items as [|d items IH]; simpl; intros u log H.
  - apply unit_Ret in H. destruct H as [_ ->]. split; [reflexivity|constructor].
  - inv_bind H. apply emit_Ret in H0. destruct H0 as (a0 & Ha & ->).
    destruct a. apply IH in H. destruct H as [L F]. split; [simpl; now rewrite L|].
    constructor; [|exact F]. apply makeAnnotation_kind in Ha; [tauto|auto].
Qed.

Lemma drain_log budget queue u log :
  drain ast fuel budget queue = Ret (u, log) ->
  List.length log = list_sum (map details_count queue)
  /\ Forall (fun a => is_annotation VALIDATION_ERROR a = true) log.
Proof.
  revert queue u log. induction budget as [|budget IH]; intros [|items rest] u log H;
    simpl in H; try discriminate;
    try (apply unit_Ret in H; destruct H as [_ ->]; split; [reflexivity|constructor]).
  inv_bind H. apply annotate_items_log in H0. destruct H0 as [L0 F0].
  apply IH in H. destruct H as [L F]. split; [|apply Forall_app; auto].
  rewrite length_app, L0, L, map_app, list_sum_app. simpl.
  rewrite (details_count_pushed items). lia.
Qed.
End Drain.

Lemma completes_annotate_items fuel items : completes (annotate_items None fuel items).
Proof.
  unfold annotate_items. apply completes_for_each. intros d u _.
  destruct (makeAnnotation_without_ast fuel VALIDATION_ERROR (detail_path d) (detail_message d))
    as [a E].
  rewrite E. unfold completes. simpl. eauto.
Qed.

Lemma completes_drain fuel budget queue :
  queue_lists queue <= budget -> completes (drain None fuel budget queue).
Proof.
  revert queue. induction budget as [|budget IH]; intros [|items rest] H; simpl;
    try apply completes_unit.
  - unfold queue_lists in H. simpl in H. lia.
  - apply completes_bind; [apply completes_annotate_items|intros _].
    apply IH. rewrite queue_lists_app, queue_lists_pushed.
    unfold queue_lists in *. simpl in H. lia.
Qed.


Lemma validation_annotations_log ast fuel e u log :
  validation_annotations ast fuel e = Ret (u, log) ->
  List.length log = reported_errors e
  /\ Forall (fun a => is_annotation VALIDATION_ERROR a = true) log.
Proof.
  unfold validation_annotations, reported_errors. destruct (details e) as [items|].
  - intros H. apply drain_log in H. simpl in H. now rewrite Nat.add_0_r in H.
  - intros H. apply unit_Ret in H. destruct H as [_ ->]. split; [reflexivity|constructor].
Qed.

Lemma completes_validation_annotations fuel e :
  completes (validation_annotations None fuel e).
Proof.
  unfold validation_annotations. destruct (details e); [|apply completes_unit].
  now apply completes_drain.
Qed.

(** *** Breadth first *)









Section Order.
Variables (ast : option node) (fuel : nat).




End Order.

Example breadth_first_nested :
  map detail_message (breadth_first nested_error)
  = [Str "bad path"; Str "other"; Str "inner 1"; Str "inner 2"].
Proof. reflexivity. Qed.

Section BuilderLogs.
Variables (gsm : bool) (ast : option node) (fuel : nat).
Variable buildUriTemplate : string -> string -> value -> list value -> string.
Variables (JSON_stringify JSON_stringify_indented : value -> value).
Variable P : element -> Prop.
Hypothesis lost : forall p message a,
    makeAnnotation fuel ast DATA_LOST p message = Ret a -> P a.

Lemma logs_setupAnnotation p message :
  logs P (setupAnnotation ast fuel DATA_LOST p message).
Proof. unfold setupAnnotation. apply logs_emit. intros a. apply lost. Qed.

Ltac builder_logs :=
  repeat first
    [ apply logs_setupAnnotation
    | apply logs_header_member
    | apply logs_example_transaction
    | apply logs_response_transactions
    | logs_step ].

Lemma logs_add_info swagger api : logs P (add_info gsm ast fuel swagger api).
Proof. unfold add_info. builder_logs. Qed.

Lemma logs_add_host swagger api : logs P (add_host gsm ast fuel swagger api).
Proof. unfold add_host. builder_logs. Qed.

Lemma logs_lost_at_root swagger : logs P (lost_at_root ast fuel swagger).
Proof. unfold lost_at_root. builder_logs. Qed.

Lemma logs_document_level swagger : logs P (document_level gsm ast fuel swagger).
Proof.
  unfold document_level.
  repeat first [ apply logs_add_info | apply logs_add_host | apply logs_lost_at_root
               | logs_step ].
Qed.

Lemma logs_operation_transactions operation method bodyParameters responses transition :
  logs P (operation_transactions gsm ast fuel JSON_stringify JSON_stringify_indented
            operation method bodyParameters responses transition).
Proof. unfold operation_transactions. builder_logs. Qed.

Lemma logs_uri_members operation uriParameters :
  logs P (uri_members gsm ast fuel operation uriParameters).
Proof. unfold uri_members. builder_logs. Qed.

Lemma logs_operation_transition basePath href pathObjectParameters method methodValue
    resource :
  logs P (operation_transition gsm ast fuel buildUriTemplate JSON_stringify
            JSON_stringify_indented basePath href pathObjectParameters method
            methodValue resource).
Proof.
  unfold operation_transition.
  repeat first [ apply logs_operation_transactions | apply logs_uri_members
               | builder_logs ].
Qed.

Lemma logs_path_parameter href ip hrefVariables :
  logs P (path_parameter gsm ast fuel href ip hrefVariables).
Proof. unfold path_parameter. builder_logs. Qed.

Lemma logs_new_group swagger groupName : logs P (new_group swagger groupName).
Proof. unfold new_group. builder_logs. Qed.

Lemma logs_path_resource swagger basePath useGroups href pathValue state :
  logs P (path_resource gsm ast fuel buildUriTemplate JSON_stringify
            JSON_stringify_indented swagger basePath useGroups href pathValue state).
Proof.
  unfold path_resource.
  repeat first [ apply logs_operation_transition | apply logs_path_parameter
               | apply logs_new_group | builder_logs ].
Qed.

Lemma logs_resources swagger basePath useGroups api :
  logs P (resources gsm ast fuel buildUriTemplate JSON_stringify
            JSON_stringify_indented swagger basePath useGroups api).
Proof.
  unfold resources. repeat first [ apply logs_path_resource | builder_logs ].
Qed.

Lemma logs_build_api swagger :
  logs P (snd (build_api gsm ast fuel buildUriTemplate JSON_stringify
                 JSON_stringify_indented swagger)).
Proof.
  unfold build_api.
  pose proof (logs_document_level swagger) as D.
  destruct (document_level gsm ast fuel swagger) as [[[basePath api] log]| | |];
    try (intros a l H; discriminate).
  destruct (useResourceGroups swagger) as [swagger' useGroups]. cbn [snd].
  apply logs_bind.
  - intros a l H. inversion H; subst. eapply D. reflexivity.
  - intros _. apply logs_bind; [apply logs_lift|intros ?; apply logs_resources].
Qed.
End BuilderLogs.


Lemma returns_unit {A} (Q : A -> Prop) (a : A) : Q a -> returns Q (unit_ a).
Proof. intros H b log E. apply unit_Ret in E. destruct E as [-> _]. exact H. Qed.

Lemma returns_bind {A B} (Q' : A -> Prop) (Q : B -> Prop) (m : M A) (f : A -> M B) :
  returns Q' m -> (forall a, Q' a -> returns Q (f a)) -> returns Q (bindM m f).
Proof. intros Hm Hf b log H. inv_bind H. eapply Hf; eauto. Qed.

Lemma returns_then {A B} (Q : B -> Prop) (m : M A) (f : A -> M B) :
  (forall a, returns Q (f a)) -> returns Q (bindM m f).
Proof. intros Hf b log H. inv_bind H. eapply Hf; eauto. Qed.

Lemma returns_for_each {A S} (Q : S -> Prop) (body : A -> S -> M S) (xs : list A) (s : S) :
  (forall x s0, Q s0 -> returns Q (body x s0)) -> Q s -> returns Q (for_each body xs s).
Proof.
  intros B. revert s. induction xs as [|x xs IH]; simpl; intros s Qs.
  - now apply returns_unit.
  - eapply returns_bind; [apply B; exact Qs|intros s' Qs'; now apply IH].
Qed.


Lemma root_like_push x e : root_like e -> root_like (push x e).
Proof. intros [N C]. split; [now rewrite name_push|]. unfold has_class. now rewrite meta_push. Qed.

Lemma root_like_attribute k v e : root_like e -> root_like (set_attribute k v e).
Proof.
  intros [N C]. split; [now rewrite name_set_attribute|].
  unfold has_class. now rewrite meta_set_attribute.
Qed.

Lemma root_like_title v e : root_like e -> root_like (set_meta "title" v e).
Proof.
  intros [N C]. destruct e as [n m a c]. split; [exact N|].
  unfold has_class in *. simpl in *. rewrite get_set_entry_other by discriminate. exact C.
Qed.

Lemma root_like_push_to group x e : root_like e -> root_like (push_to group x e).
Proof.
  intros R. unfold push_to. destruct group as [|i place]; simpl; [now apply root_like_push|].
  destruct R as [N C]. destruct e as [n m a [| | items |]]; split; assumption.
Qed.

Section BuilderRoot.
Variables (gsm : bool) (ast : option node) (fuel : nat).
Variable buildUriTemplate : string -> string -> value -> list value -> string.
Variables (JSON_stringify JSON_stringify_indented : value -> value).

Lemma returns_add_info swagger api :
  root_like api -> returns root_like (add_info gsm ast fuel swagger api).
Proof.
  intros R. unfold add_info. apply returns_then. intros info.
  destruct (truthy info); [|now apply returns_unit].
  apply returns_then. intros title_.
  apply (returns_bind root_like).
  - destruct (truthy title_); [|now apply returns_unit].
    apply returns_then. intros t. apply returns_unit. now apply root_like_title.
  - intros api' R'. apply returns_then. intros description.
    destruct (truthy description); [|now apply returns_unit].
    apply returns_then. intros copy. apply returns_unit. now apply root_like_push.
Qed.

Lemma returns_add_host swagger api :
  root_like api -> returns root_like (add_host gsm ast fuel swagger api).
Proof.
  intros R. unfold add_host. apply returns_then. intros host.
  destruct (truthy host); [|now apply returns_unit].
  do 3 (apply returns_then; intros ?). apply returns_unit. now apply root_like_attribute.
Qed.

Lemma returns_document_level swagger :
  returns (fun r => root_like (snd r)) (document_level gsm ast fuel swagger).
Proof.
  unfold document_level. apply returns_then. intros basePath.
  apply (returns_bind root_like); [apply returns_add_info; split; reflexivity|].
  intros api R. apply (returns_bind root_like); [now apply returns_add_host|].
  intros api' R'. apply returns_then. intros _. now apply returns_unit.
Qed.

Lemma returns_path_resource swagger basePath useGroups href pathValue state :
  root_like (fst state) ->
  returns (fun s => root_like (fst s))
    (path_resource gsm ast fuel buildUriTemplate JSON_stringify
       JSON_stringify_indented swagger basePath useGroups href pathValue state).
Proof.
  destruct state as [api group]. intros R. unfold path_resource.
  do 4 (apply returns_then; intros ?).
  apply (returns_bind (fun s => root_like (fst s))).
  - destruct (truthy _); [|now apply returns_unit].
    destruct (find _ _); [|now apply returns_unit].
    apply returns_then. intros created. apply returns_unit. now apply root_like_push.
  - intros [api' group'] R'. do 6 (apply returns_then; intros ?).
    apply returns_unit. now apply root_like_push_to.
Qed.

Lemma returns_resources swagger basePath useGroups api :
  root_like api ->
  returns root_like (resources gsm ast fuel buildUriTemplate JSON_stringify
                       JSON_stringify_indented swagger basePath useGroups api).
Proof.
  intros R. unfold resources. do 2 (apply returns_then; intros ?).
  apply (returns_bind (fun s => root_like (fst s))).
  - apply returns_for_each; [|exact R]. intros kv s Rs. now apply returns_path_resource.
  - intros s Rs. now apply returns_unit.
Qed.

Lemma returns_build_api swagger :
  returns root_like (snd (build_api gsm ast fuel buildUriTemplate JSON_stringify
                            JSON_stringify_indented swagger)).
Proof.
  unfold build_api.
  pose proof (returns_document_level swagger) as D.
  destruct (document_level gsm ast fuel swagger) as [[[basePath api] log]| | |];
    try (intros a l H; discriminate).
  destruct (useResourceGroups swagger) as [swagger' useGroups]. cbn [snd].
  apply returns_then. intros _. apply returns_then. intros g.
  apply returns_resources. apply (D (basePath, api) log). reflexivity.
Qed.
End BuilderRoot.

Lemma annotation_is_no_category info a :
  is_annotation info a = true -> is_category a = false.
Proof.
  unfold is_annotation, is_category. intros H.
  apply andb_true_iff in H. destruct H as [H _].
  apply andb_true_iff in H. destruct H as [H _].
  apply String.eqb_eq in H. now rewrite H.
Qed.

Lemma annotation_kinds_differ info info' a :
  is_annotation info a = true -> kind_code info <> kind_code info' ->
  is_annotation info' a = false.
Proof.
  unfold is_annotation. intros H N.
  apply andb_true_iff in H. destruct H as [_ H].
  destruct (get_entry "code" (attributes a)) as [[n m at_ [| v | |]]|]; try discriminate.
  destruct v; try discriminate. simpl in H. apply Z.eqb_eq in H. subst.
  simpl. apply Z.eqb_neq in N. rewrite N. now rewrite andb_false_r.
Qed.

Lemma root_is_no_annotation info e : root_like e -> is_annotation info e = false.
Proof. intros [N _]. unfold is_annotation. now rewrite N. Qed.

Lemma filter_none {A} (f : A -> bool) l : Forall (fun a => f a = false) l -> filter f l = [].
Proof. induction 1 as [|a l H F IH]; simpl; [reflexivity|now rewrite H]. Qed.


Lemma compose_ast_early compose fuel src :
  exists ast early,
    compose_ast compose fuel src = (ast, Ret early)
    /\ Forall (fun a => is_annotation AST_UNAVAILABLE a = true) early.
Proof.
  unfold compose_ast. destruct src as [text|document].
  - destruct (compose text) as [composed|].
    + exists composed, []. split; [reflexivity|constructor].
    + eexists. eexists. split; [reflexivity|]. constructor; [reflexivity|constructor].
  - eexists. eexists. split; [reflexivity|]. constructor; [reflexivity|constructor].
Qed.


(** ** Mutation of a loaded document *)

Lemma has_key_assign k v fields : has_key k (assign k v fields) = true.
Proof.
  unfold has_key. induction fields as [|[k' v'] fields IH]; simpl.
  - now rewrite String.eqb_refl.
  - destruct (String.eqb k' k) eqn:E; simpl; rewrite E; [reflexivity|exact IH].
Qed.

Lemma has_key_assign_other k k' v fields :
  has_key k' fields = true -> has_key k' (assign k v fields) = true.
Proof.
  unfold has_key. induction fields as [|[k0 v0] fields IH]; simpl; [discriminate|].
  destruct (String.eqb k0 k) eqn:E; simpl; [auto|].
  destruct (String.eqb k0 k'); simpl; auto.
Qed.

Lemma lookup_assign k v fields : lookup k (assign k v fields) = v.
Proof.
  induction fields as [|[k' v'] fields IH]; simpl.
  - now rewrite String.eqb_refl.
  - destruct (String.eqb k' k) eqn:E; simpl; rewrite E; [reflexivity|exact IH].
Qed.

Lemma lookup_assign_other k k' v fields :
  k <> k' -> lookup k' (assign k v fields) = lookup k' fields.
Proof.
  intros N. induction fields as [|[k0 v0] fields IH]; simpl.
  - destruct (String.eqb k k') eqn:E; [apply String.eqb_eq in E; contradiction|reflexivity].
  - destruct (String.eqb k0 k) eqn:E; simpl.
    + apply String.eqb_eq in E; subst k0.
      destruct (String.eqb k k') eqn:E'; [apply String.eqb_eq in E'; contradiction|reflexivity].
    + destruct (String.eqb k0 k'); [reflexivity|exact IH].
Qed.

Lemma assign_after_prefix k v v0 before after :
  ~ In k (map fst before) ->
  assign k v (before ++ (k, v0) :: after) = before ++ (k, v) :: after.
Proof.
  induction before as [|[k' v'] before IH]; simpl; intros N.
  - now rewrite String.eqb_refl.
  - destruct (String.eqb k' k) eqn:E.
    + apply String.eqb_eq in E. subst. tauto.
    + rewrite IH; [reflexivity|tauto].
Qed.

Lemma lookup_in k v fields :
  NoDup (map fst fields) -> In (k, v) fields -> lookup k fields = v.
Proof.
  induction fields as [|[k' v'] fields IH]; simpl; intros D I; [contradiction|].
  inversion D as [|x l N D']; subst. destruct I as [I|I].
  - inversion I; subst. now rewrite String.eqb_refl.
  - destruct (String.eqb k' k) eqn:E.
    + apply String.eqb_eq in E. subst. exfalso. apply N.
      change k with (fst (k, v)). now apply in_map.
    + now apply IH.
Qed.

Lemma label_paths_objects before entries tags paths' tags' :
  NoDup (map fst (before ++ entries)) ->
  label_paths (Obj (before ++ entries)) entries tags = (paths', Ret tags') ->
  paths' = Obj (before ++ map (fun kv => (fst kv, labelled (snd kv))) entries)
  /\ forall key path tag,
       In (key, path) entries -> resolved_tag path = Ret tag -> truthy tag = true ->
       exists fields, path = Obj fields.
Proof.
  revert before tags. induction entries as [|[key path] entries IH]; simpl; intros before tags D H.
  - inversion H; subst. split; [reflexivity|]. intros ? ? ? [].
  - unfold labelled at 1. simpl snd.
    destruct (resolved_tag path) as [tag| | |] eqn:R; try (inversion H; fail).
    destruct (truthy tag) eqn:T.
    + destruct path as [| | | | | | |fields]; try (inversion H; fail).
      assert (Nk : ~ In key (map fst before)).
      { rewrite map_app in D. apply NoDup_remove_2 in D.
        intros I. apply D. apply in_or_app. now left. }
      unfold write_back in H. rewrite assign_after_prefix in H by exact Nk.
      change (before ++ (key, Obj (assign "x-group-name" tag fields)) :: entries)
        with (before ++ [(key, Obj (assign "x-group-name" tag fields))] ++ entries) in H.
      rewrite app_assoc in H. apply IH in H.
      * destruct H as [-> Hf]. rewrite <- app_assoc. simpl. split; [reflexivity|].
        intros k p t [I|I] Rp Tp; [inversion I; subst; eauto|eauto].
      * rewrite <- app_assoc. simpl. rewrite map_app in *. simpl in *. exact D.
    + change (before ++ (key, path) :: entries)
        with (before ++ [(key, path)] ++ entries) in H.
      rewrite app_assoc in H. apply IH in H.
      * destruct H as [-> Hf]. rewrite <- app_assoc. simpl.
        split; [destruct path; reflexivity|].
        intros k p t [I|I] Rp Tp; [|eauto].
        inversion I; subst. rewrite R in Rp. inversion Rp; subst. congruence.
      * rewrite <- app_assoc. simpl. exact D.
Qed.

Lemma has_key_defined k fields :
  strict_eq (lookup k fields) Undefined = false -> has_key k fields = true.
Proof.
  unfold has_key. induction fields as [|[k' v] fields IH]; simpl; [discriminate|].
  destruct (String.eqb k' k); simpl; auto.
Qed.

Lemma lookup_missing k fields : has_key k fields = false -> lookup k fields = Undefined.
Proof.
  unfold has_key. induction fields as [|[k' v] fields IH]; simpl; [reflexivity|].
  destruct (String.eqb k' k); simpl; [discriminate|auto].
Qed.

Lemma with_defaults_object fields :
  exists fields',
    with_defaults (Obj fields) = Ret (Obj fields')
    /\ has_key "info" fields' = true
    /\ has_key "paths" fields' = true
    /\ (lookup "info" fields = Undefined -> lookup "info" fields' = Obj [])
    /\ (lookup "paths" fields = Undefined -> lookup "paths" fields' = Obj [])
    /\ (has_key "info" fields = false -> fields' <> fields).
Proof.
  eexists. split; [reflexivity|]. cbv zeta.
  set (fields0 := if strict_eq (lookup "info" fields) Undefined
                  then assign "info" (Obj []) fields else fields).
  assert (K0 : has_key "info" fields0 = true).
  { unfold fields0. destruct (strict_eq (lookup "info" fields) Undefined) eqn:I;
      [apply has_key_assign|now apply has_key_defined]. }
  assert (K1 : has_key "info"
                 (if strict_eq (lookup "paths" fields0) Undefined
                  then assign "paths" (Obj []) fields0 else fields0) = true).
  { destruct (strict_eq (lookup "paths" fields0) Undefined);
      [now apply has_key_assign_other|exact K0]. }
  split; [exact K1|]. split; [|split; [|split]].
  - destruct (strict_eq (lookup "paths" fields0) Undefined) eqn:P;
      [apply has_key_assign|now apply has_key_defined].
  - intros U.
    assert (I0 : lookup "info" fields0 = Obj []).
    { unfold fields0. rewrite U. simpl strict_eq. cbv iota. apply lookup_assign. }
    destruct (strict_eq (lookup "paths" fields0) Undefined);
      [rewrite lookup_assign_other by discriminate|]; exact I0.
  - intros U.
    assert (U0 : lookup "paths" fields0 = Undefined).
    { unfold fields0. destruct (strict_eq (lookup "info" fields) Undefined);
        [rewrite lookup_assign_other by discriminate|]; exact U. }
    rewrite U0. simpl. apply lookup_assign.
  - intros K E. rewrite E in K1. congruence.
Qed.

Lemma parse_of_object safeLoad compose validate buildUriTemplate JSON_stringify
    JSON_stringify_indented fuel gsm fields fields' :
  with_defaults (Obj fields) = Ret (Obj fields') ->
  exists early,
    parse safeLoad compose validate buildUriTemplate JSON_stringify
      JSON_stringify_indented fuel gsm (SourceObject (Obj fields))
    = (let v := validate (Obj fields') in
       let '(swagger', calls) :=
         validated buildUriTemplate JSON_stringify JSON_stringify_indented fuel gsm
           None early v in
       (caller_source (SourceObject (Obj fields)) (Obj fields') v swagger', calls)).
Proof.
  intros W. unfold parse. cbn [load compose_ast]. eexists.
  unfold makeAnnotation at 1. cbn [path_truthy bind]. rewrite W. reflexivity.
Qed.

Lemma validated_state buildUriTemplate JSON_stringify JSON_stringify_indented fuel gsm
    ast early v now calls :
  api v = SameObject now ->
  snd (validated buildUriTemplate JSON_stringify JSON_stringify_indented fuel gsm
         ast early v) = Ret calls ->
  fst (validated buildUriTemplate JSON_stringify JSON_stringify_indented fuel gsm
         ast early v) = fst (useResourceGroups now)
  /\ exists useGroups, snd (useResourceGroups now) = Ret useGroups.
Proof.
  intros A. unfold validated, swagger_of. rewrite A.
  assert (G : forall (X : Type) (o : option validation_error) (y : X),
             match o with Some _ => y | None => y end = y) by (intros X [e|]; reflexivity).
  rewrite G. clear G.
  destruct (match err v with
            | Some e => validation_annotations ast fuel e
            | None => unit_ tt
            end) as [[u reported]| | |]; cbn [snd]; try discriminate.
  unfold build_api.
  destruct (document_level gsm ast fuel now) as [[[basePath root] log]| | |];
    cbn [snd fst bind]; try discriminate.
  destruct (useResourceGroups now) as [swagger' [useGroups| | |]]; cbn [snd fst lift bind bindM];
    try discriminate.
  intros _. split; [reflexivity|eauto].
Qed.

Lemma each_entries_object entries :
  array_like entries = false -> each_entries (Obj entries) = entries.
Proof.
  unfold array_like, each_entries. destruct (lookup "length" entries); try reflexivity.
  now intros ->.
Qed.

Lemma useResourceGroups_labels nfields pentries useGroups :
  lookup "paths" nfields = Obj pentries ->
  NoDup (map fst pentries) ->
  array_like pentries = false ->
  snd (useResourceGroups (Obj nfields)) = Ret useGroups ->
  fst (useResourceGroups (Obj nfields))
    = Obj (assign "paths"
             (Obj (map (fun kv => (fst kv, labelled (snd kv))) pentries)) nfields)
  /\ forall key path tag,
       In (key, path) pentries -> resolved_tag path = Ret tag -> truthy tag = true ->
       exists fields, path = Obj fields.
Proof.
  intros P D A. unfold useResourceGroups. rewrite P. cbn [truthy].
  rewrite (each_entries_object _ A).
  destruct (label_paths (Obj pentries) pentries []) as [paths' [tags| | |]] eqn:E;
    cbn [snd fst bind]; try discriminate.
  intros _. apply (label_paths_objects []) in E; [|exact D].
  destruct E as [-> F]. split; [reflexivity|exact F].
Qed.

Lemma distinct_keys_NoDup keys : distinct_keys keys = true -> NoDup keys.
Proof.
  induction keys as [|k keys IH]; simpl; intros H; constructor.
  - apply andb_true_iff in H. destruct H as [H _]. intros I.
    apply negb_true_iff in H. rewrite <- not_true_iff_false in H. apply H.
    apply existsb_exists. exists k. split; [exact I|apply String.eqb_refl].
  - apply andb_true_iff in H. tauto.
Qed.

(** C10: given a loaded object, [parse] changes it.  The object handed to
    the validator holds an [info] and a [paths] key, inserted when they were
    missing (so it differs from the input when [info] was missing), and that
    is what the caller's object holds after the call when [parser.api] is
    not that object.  When the validator hands the same object back as
    [parser.api], with an object of distinct path keys under [paths], every
    run that completes leaves in the caller's document, for each path whose
    operations resolve to a truthy tag, that path object with the tag
    written under [x-group-name]. *)
Theorem parse_mutates_loaded_document
    (safeLoad : string -> option value) (compose : string -> option (option node))
    (validate : value -> validation)
    (buildUriTemplate : string -> string -> value -> list value -> string)
    (JSON_stringify JSON_stringify_indented : value -> value)
    (fuel : nat) (gsm : bool) (fields : list (string * value)) :
  let run := parse safeLoad compose validate buildUriTemplate JSON_stringify
               JSON_stringify_indented fuel gsm (SourceObject (Obj fields)) in
  exists fields',
    with_defaults (Obj fields) = Ret (Obj fields')
    /\ has_key "info" fields' = true
    /\ has_key "paths" fields' = true
    /\ (has_key "info" fields = false -> fields' <> fields)
    /\ ((forall now, api (validate (Obj fields')) <> SameObject now) ->
        fst run = SourceObject (Obj fields'))
    /\ (forall nfields pentries calls,
           api (validate (Obj fields')) = SameObject (Obj nfields) ->
           lookup "paths" nfields = Obj pentries ->
           distinct_keys (map fst pentries) = true ->
           array_like pentries = false ->
           snd run = Ret calls ->
           exists after_fields after_paths,
             fst run = SourceObject (Obj after_fields)
             /\ lookup "paths" after_fields = Obj after_paths
             /\ forall key path tag,
                  In (key, path) pentries ->
                  resolved_tag path = Ret tag ->
                  truthy tag = true ->
                  exists pfields,
                    path = Obj pfields
                    /\ lookup key after_paths = Obj (assign "x-group-name" tag pfields)).
Proof.
  intros run.
  destruct (with_defaults_object fields) as (fields' & W & Ki & Kp & _ & _ & Kn).
  exists fields'. split; [exact W|]. split; [exact Ki|]. split; [exact Kp|].
  split; [exact Kn|].
  destruct (parse_of_object safeLoad compose validate buildUriTemplate JSON_stringify
              JSON_stringify_indented fuel gsm fields fields' W) as (early & E).
  subst run. rewrite E. clear E. cbv zeta.
  destruct (validated buildUriTemplate JSON_stringify JSON_stringify_indented fuel gsm
              None early (validate (Obj fields'))) as [swagger' calls'] eqn:V.
  cbn [fst snd]. split.
  - intros N. unfold caller_source.
    destruct (api (validate (Obj fields'))) as [|now|other] eqn:A; try reflexivity.
    exfalso. now apply (N now).
  - intros nfields pentries calls A P D L Hc. subst calls'.
    apply distinct_keys_NoDup in D.
    unfold caller_source. rewrite A.
    pose proof (validated_state buildUriTemplate JSON_stringify JSON_stringify_indented
                  fuel gsm None early _ _ calls A) as S.
    rewrite V in S. cbn [fst snd] in S. destruct (S eq_refl) as (-> & useGroups & U).
    destruct (useResourceGroups_labels _ _ _ P D L U) as [-> F].
    eexists. eexists. split; [reflexivity|]. split; [apply lookup_assign|].
    intros key path tag I R T. destruct (F key path tag I R T) as [pfields ->].
    exists pfields. split; [reflexivity|].
    rewrite (lookup_in key (labelled (Obj pfields))).
    + unfold labelled. rewrite R, T. reflexivity.
    + rewrite map_map. simpl. exact D.
    + change (key, labelled (Obj pfields))
        with ((fun kv : string * value => (fst kv, labelled (snd kv))) (key, Obj pfields)).
      now apply in_map.
Qed.

(** ** Sample runs *)





(** [parse] on the loaded two-tag document, whose [info] is present and
    whose [/b] path resolves to the tag [pets]. *)
Lemma parse_mutates_loaded_document_witness :
  exists after_fields after_paths,
    fst (sample_run two_tags_document) = SourceObject (Obj after_fields)
    /\ lookup "paths" after_fields = Obj after_paths
    /\ lookup "x-group-name"
         match lookup "/b" after_paths with Obj f => f | _ => [] end = Str "pets".
Proof.
  destruct (parse_mutates_loaded_document no_text no_ast accepting joined serialized
              serialized 0 false
              match two_tags_document with Obj f => f | _ => [] end)
    as (fields' & W & _ & _ & _ & _ & L).
  inversion W; subst fields'; clear W.
  destruct (L _ _ _ eq_refl eq_refl eq_refl eq_refl eq_refl)
    as (after_fields & after_paths & Hf & Hp & Hl).
  destruct (Hl "/b" _ (Str "pets") (or_intror (or_introl eq_refl)) eq_refl eq_refl)
    as (pfields & Hb & Hk).
  exists after_fields, after_paths. split; [exact Hf|]. split; [exact Hp|].
  rewrite Hk. apply lookup_assign.
Defined.

(** * Further properties of the adapter *)

(** ** Position resolver *)

Lemma no_internal_ref_pairs pairs s e :
  no_internal_ref (MappingNode pairs s e) = true ->
  Forall (fun kv => (key_is (fst kv) "$ref" && is_internal_ref (snd kv))%bool = false
                    /\ no_internal_ref (snd kv) = true) pairs.
Proof.
  cbn [no_internal_ref]. intros H. rewrite forallb_forall in H. apply Forall_forall.
  intros [k v] I. specialize (H _ I). cbn in H. apply andb_true_iff in H.
  destruct H as [H1 H2]. apply negb_true_iff in H1. cbn [fst snd]. auto.
Qed.

Lemma no_internal_ref_items items s e n :
  no_internal_ref (SequenceNode items s e) = true -> In n items ->
  no_internal_ref n = true.
Proof.
  cbn [no_internal_ref]. intros H I. rewrite forallb_forall in H. now apply H.
Qed.

(** What a pass over the children of a mapping without internal references
    does: it stops, or goes on below the matching pair with the same
    remaining segments. *)
Lemma scan_without_references ast piece index pieces pairs :
  Forall (fun kv => (key_is (fst kv) "$ref" && is_internal_ref (snd kv))%bool = false
                    /\ no_internal_ref (snd kv) = true) pairs ->
  match scan ast piece index pieces pairs with
  | Stop r => r = Throw \/ exists p, r = Ret p
  | Continue (AtNode n) pieces' => pieces' = pieces /\ no_internal_ref n = true
  | Continue _ pieces' => pieces' = pieces
  end.
Proof.
  induction 1 as [|[k v] pairs [R N] F IH]; cbn [scan].
  - right. eauto.
  - cbn [fst snd] in R, N. destruct (key_is k piece).
    + destruct pieces as [|next pieces].
      * destruct index as [i|]; [|right; eauto].
        destruct (item_at v i) as [[n|k' v'|c]|]; [right; eauto|left..]; reflexivity.
      * destruct index as [i|]; [|split; [reflexivity|exact N]].
        destruct v as [t s e|items s e|pairs' s e]; cbn [item_at].
        -- destruct (String.get i t); cbn [option_map]; [reflexivity|right; eauto].
        -- destruct (nth_error items i) as [n|] eqn:E; cbn [option_map]; [|right; eauto].
           split; [reflexivity|]. eapply no_internal_ref_items; [exact N|].
           eapply nth_error_In; exact E.
        -- destruct (nth_error pairs' i); cbn [option_map]; [reflexivity|right; eauto].
    + destruct (key_is k "$ref"); [|exact IH].
      cbn [andb] in R. rewrite R. exact IH.
Qed.

Lemma walk_terminates_without_references ast :
  forall pieces fuel c,
    match c with AtNode n => no_internal_ref n = true | _ => True end ->
    (List.length pieces <= fuel)%nat ->
    walk fuel ast c pieces = Throw \/ exists p, walk fuel ast c pieces = Ret p.
Proof.
  induction pieces as [|piece pieces IH]; intros fuel c C L.
  - right. destruct fuel; cbn; eauto.
  - destruct fuel as [|fuel]; [cbn in L; lia|].
    cbn [walk]. destruct (nonempty piece); [|right; eauto].
    destruct c as [n|k v|ch]; cbn [subNodes]; [|left; reflexivity..].
    assert (S : forall pairs,
               Forall (fun kv => (key_is (fst kv) "$ref" && is_internal_ref (snd kv))%bool = false
                                 /\ no_internal_ref (snd kv) = true) pairs ->
               match scan ast (fst (stripped piece)) (snd (stripped piece)) pieces pairs with
               | Stop r => r
               | Continue node' pieces'' => walk fuel ast node' pieces''
               end = Throw
               \/ exists p,
                   match scan ast (fst (stripped piece)) (snd (stripped piece)) pieces pairs with
                   | Stop r => r
                   | Continue node' pieces'' => walk fuel ast node' pieces''
                   end = Ret p).
    { intros pairs F.
      pose proof (scan_without_references ast (fst (stripped piece))
                    (snd (stripped piece)) pieces pairs F) as Sc.
      destruct (scan ast (fst (stripped piece)) (snd (stripped piece)) pieces pairs)
        as [r|c' pieces']; [destruct Sc as [->|[p ->]]; eauto|].
      cbn in L. destruct c' as [n'|k' v'|ch'].
      - destruct Sc as [-> N]. apply IH; [exact N|lia].
      - subst pieces'. apply IH; [exact I|lia].
      - subst pieces'. apply IH; [exact I|lia]. }
    destruct n as [t s e|items s e|pairs s e].
    + apply S. constructor.
    + apply S. constructor.
    + apply S. now apply no_internal_ref_pairs with (s := s) (e := e).
Qed.

(** X1: a lookup in a document without internal references ends: with a
    budget of one loop pass per path segment it returns a position (a range
    or null) or throws; it never runs on. *)
Theorem lookup_ends_without_internal_references (fuel : nat) (ast : node) (p : path) :
  no_internal_ref ast = true ->
  (List.length (pieces_of p) <= fuel)%nat ->
  getPosition fuel ast p = Throw \/ exists r, getPosition fuel ast p = Ret r.
Proof.
  intros N L. unfold getPosition. now apply walk_terminates_without_references.
Qed.

Lemma lookup_ends_without_internal_references_witness :
  no_internal_ref eleven_items_ast = true
  /\ (getPosition 1 eleven_items_ast (PathString "items[3]") = Throw
      \/ exists r, getPosition 1 eleven_items_ast (PathString "items[3]") = Ret r).
Proof.
  split; [reflexivity|].
  apply (lookup_ends_without_internal_references 1 eleven_items_ast (PathString "items[3]"));
    [reflexivity|simpl; lia].
Defined.

Lemma scan_plain ast piece pieces pairs :
  Forall (fun kv => (key_is (fst kv) "$ref" && is_internal_ref (snd kv))%bool = false
                    /\ no_internal_ref (snd kv) = true) pairs ->
  scan ast piece None pieces pairs =
    match List.find (fun kv => key_is (fst kv) piece) pairs with
    | Some (k, v) =>
        match pieces with
        | [] => Stop (Ret (Range (Some (start_pointer k)) (Some (end_pointer v))))
        | _ :: _ => Continue (AtNode v) pieces
        end
    | None => Stop (Ret NotFound)
    end.
Proof.
  induction 1 as [|[k v] pairs [R N] F IH]; cbn [scan List.find fst]; [reflexivity|].
  cbn [fst snd] in R. destruct (key_is k piece); [reflexivity|].
  destruct (key_is k "$ref"); [|exact IH]. cbn [andb] in R. rewrite R. exact IH.
Qed.

Lemma pair_named_without_references piece n k v :
  no_internal_ref n = true -> pair_named piece n = Some (k, v) ->
  no_internal_ref v = true.
Proof.
  destruct n as [t s e|items s e|pairs s e]; cbn [pair_named]; try discriminate.
  intros N F. apply find_some in F. destruct F as [I _].
  pose proof (no_internal_ref_pairs _ _ _ N) as A. rewrite Forall_forall in A.
  exact (proj2 (A _ I)).
Qed.

Lemma stripped_plain piece : plain piece = true -> stripped piece = (piece, None).
Proof.
  unfold plain, stripped. intros H. apply andb_true_iff in H. destruct H as [_ H].
  destruct (match_index piece) as [[q i]|]; [discriminate|reflexivity].
Qed.

Lemma walk_plain ast :
  forall pieces fuel n,
    no_internal_ref n = true ->
    forallb plain pieces = true ->
    (List.length pieces <= fuel)%nat ->
    walk fuel ast (AtNode n) pieces = Ret (span_of n pieces).
Proof.
  induction pieces as [|piece pieces IH]; intros fuel n N P L.
  - destruct fuel; reflexivity.
  - destruct fuel as [|fuel]; [cbn in L; lia|].
    cbn [forallb] in P. apply andb_true_iff in P. destruct P as [P1 P2].
    assert (E : nonempty piece = true)
      by (unfold plain in P1; apply andb_true_iff in P1; tauto).
    rewrite walk_step by exact E. rewrite (stripped_plain _ P1). cbn [fst snd span_of].
    assert (S : forall pairs,
               Forall (fun kv => (key_is (fst kv) "$ref" && is_internal_ref (snd kv))%bool = false
                                 /\ no_internal_ref (snd kv) = true) pairs ->
               match scan ast piece None pieces pairs with
               | Stop r => r
               | Continue node' pieces' => walk fuel ast node' pieces'
               end =
               Ret match List.find (fun kv => key_is (fst kv) piece) pairs with
                   | Some (k, v) =>
                       match pieces with
                       | [] => Range (Some (start_pointer k)) (Some (end_pointer v))
                       | _ :: _ => span_of v pieces
                       end
                   | None => NotFound
                   end).
    { intros pairs F. rewrite (scan_plain _ _ _ _ F).
      destruct (List.find (fun kv => key_is (fst kv) piece) pairs) as [[k v]|] eqn:Fd;
        [|reflexivity].
      destruct pieces as [|next pieces]; [reflexivity|].
      apply IH; [|exact P2|cbn in L |- *; lia].
      apply find_some in Fd. destruct Fd as [I _]. rewrite Forall_forall in F.
      exact (proj2 (F _ I)). }
    destruct n as [t s e|items s e|pairs s e]; cbn [subNodes pair_named].
    + apply (S []). constructor.
    + apply (S []). constructor.
    + apply S. now apply no_internal_ref_pairs with (s := s) (e := e).
Qed.

(** X2: in a document without internal references, a path whose segments
    are non-empty and carry no index resolves to what following the keys
    gives: the span from the start of the last key to the end of its value,
    or null as soon as a key is missing (the first of equal keys counts). *)
Theorem plain_path_follows_the_keys (fuel : nat) (ast : node) (p : path) :
  no_internal_ref ast = true ->
  forallb plain (pieces_of p) = true ->
  (List.length (pieces_of p) <= fuel)%nat ->
  getPosition fuel ast p = Ret (span_of ast (pieces_of p)).
Proof. intros N P L. unfold getPosition. now apply walk_plain. Qed.

Lemma plain_path_follows_the_keys_witness :
  getPosition 2 external_reference_ast (PathString "a.$ref")
  = Ret (Range (Some 4%Z) (Some 25%Z)).
Proof.
  apply (plain_path_follows_the_keys 2 external_reference_ast (PathString "a.$ref"));
    [reflexivity|reflexivity|simpl; lia].
Defined.

Lemma nonempty_app_right a b : nonempty b = true -> nonempty (a ++ b)%string = true.
Proof. destruct a; simpl; auto. Qed.

(** X3: a last segment written [name[digits]] resolves to the span of one
    item of the value of the key [name]: the item numbered by the last digit
    alone, however many digits the index has. *)
Theorem indexed_segment_selects_by_last_digit
    (fuel : nat) (before after : list (node * node)) (k v n : node) (s e : Z)
    (name : string) (digits : list ascii) (d : ascii) (p : path) :
  pieces_of p = [(name ++ "[" ++ string_of_list_ascii digits ++ String d "]")%string] ->
  forallb (fun c => negb (is_line_terminator c)) (list_ascii_of_string name) = true ->
  forallb is_digit digits = true ->
  is_digit d = true ->
  forallb (passed_over name) before = true ->
  key_is k name = true ->
  item_at v (digit_value d) = Some (AtNode n) ->
  getPosition (S fuel) (MappingNode (before ++ (k, v) :: after) s e) p
  = Ret (Range (Some (start_pointer n)) (Some (end_pointer n))).
Proof.
  intros Hp Hn Hd Hl B K I. unfold getPosition. rewrite Hp.
  eapply last_indexed_segment; [|apply match_index_reads_last_digit|..]; eauto.
  now apply nonempty_app_right.
Qed.

Lemma indexed_segment_selects_by_last_digit_witness :
  getPosition 1 eleven_items_ast (PathString "items[27]")
  = Ret (Range (Some 29%Z) (Some 30%Z)).
Proof.
  apply (indexed_segment_selects_by_last_digit 0 [] [] (ScalarNode "items" 0 5)
           (SequenceNode eleven_items 7 40) (ScalarNode "x" 29 30) 0 40
           "items" ["2"%char] "7"%char (PathString "items[27]")); reflexivity.
Defined.

(** X4: an index that selects no item.  On the last segment the lookup
    throws (it reads the marks of an undefined item); on an earlier segment
    it returns null. *)
Theorem index_past_the_end
    (fuel : nat) (before after : list (node * node)) (k v : node) (s e : Z)
    (piece name : string) (i : nat) (next : string) (rest : list string) :
  nonempty piece = true ->
  match_index piece = Some (name, i) ->
  forallb (passed_over name) before = true ->
  key_is k name = true ->
  item_at v i = None ->
  getPosition (S fuel) (MappingNode (before ++ (k, v) :: after) s e) (PathArray [piece])
  = Throw
  /\ getPosition (S fuel) (MappingNode (before ++ (k, v) :: after) s e)
       (PathArray (piece :: next :: rest))
     = Ret NotFound.
Proof.
  intros N M B K I. unfold getPosition. cbn [pieces_of].
  rewrite !walk_step by exact N. unfold stripped. rewrite M. cbn [fst snd subNodes].
  rewrite !scan_passes by exact B. cbn [scan]. rewrite K, I. split; reflexivity.
Qed.

Lemma index_past_the_end_witness :
  getPosition 1 referencing_ast (PathArray ["d[5]"]) = Throw
  /\ getPosition 1 referencing_ast (PathArray ["d[5]"; "items"]) = Ret NotFound.
Proof.
  apply (index_past_the_end 0
           [(ScalarNode "a" 0 1,
             MappingNode [(ScalarNode "$ref" 4 8, ScalarNode "#/d" 10 15)] 3 16)]
           [] (ScalarNode "d" 17 18)
           (MappingNode
              [(ScalarNode "items" 21 26,
                SequenceNode [ScalarNode "x" 29 30; ScalarNode "y" 32 33] 28 34)]
              20 35)
           0 35 "d[5]" "d" 5 "items" []); reflexivity.
Defined.

Lemma plain_nonempty piece : plain piece = true -> nonempty piece = true.
Proof. unfold plain. intros H. apply andb_true_iff in H. tauto. Qed.

(** The pass that enters the value of a key on the way to later segments. *)
Lemma walk_enters_key fuel ast before k v after s e a next rest :
  plain a = true ->
  forallb (passed_over a) before = true ->
  key_is k a = true ->
  walk (S fuel) ast (AtNode (MappingNode (before ++ (k, v) :: after) s e))
    (a :: next :: rest)
  = walk fuel ast (AtNode v) (next :: rest).
Proof.
  intros P B K. rewrite walk_step by now apply plain_nonempty.
  rewrite (stripped_plain _ P). cbn [fst snd subNodes].
  rewrite scan_passes by exact B. cbn [scan]. now rewrite K.
Qed.

(** X5: crossing an internal reference.  When the value of the key [a] is a
    mapping in which the lookup of the next segment meets an internal
    reference, the lookup goes on from the root of the document along the
    segments of the reference, then the current segment without its index,
    then the segments not yet used. *)
Theorem reference_continues_from_the_root
    (fuel : nat) (before after inner_before inner_after : list (node * node))
    (k kr target : node) (s e s' e' : Z) (a piece : string) (rest : list string) :
  let inner := MappingNode (inner_before ++ (kr, target) :: inner_after) s' e' in
  let ast := MappingNode (before ++ (k, inner) :: after) s e in
  plain a = true ->
  nonempty piece = true ->
  forallb (passed_over a) before = true ->
  key_is k a = true ->
  forallb (passed_over (fst (stripped piece))) inner_before = true ->
  key_is kr (fst (stripped piece)) = false ->
  key_is kr "$ref" = true ->
  is_internal_ref target = true ->
  getPosition (S (S fuel)) ast (PathArray (a :: piece :: rest))
  = getPosition fuel ast (PathArray (refPaths target ++ fst (stripped piece) :: rest)).
Proof.
  intros inner ast P N B K B' K' R I. unfold getPosition. cbn [pieces_of].
  unfold ast at 2. rewrite walk_enters_key by assumption.
  unfold inner. now rewrite internal_reference_restarts by assumption.
Qed.

Lemma reference_continues_from_the_root_witness :
  getPosition 4 referencing_ast (PathArray ["a"; "items[1]"])
  = getPosition 2 referencing_ast (PathArray ["d"; "items"]).
Proof.
  apply (reference_continues_from_the_root 2 []
           [(ScalarNode "d" 17 18,
             MappingNode
               [(ScalarNode "items" 21 26,
                 SequenceNode [ScalarNode "x" 29 30; ScalarNode "y" 32 33] 28 34)]
               20 35)]
           [] [] (ScalarNode "a" 0 1) (ScalarNode "$ref" 4 8) (ScalarNode "#/d" 10 15)
           0 35 3 16 "a" "items[1]" []); reflexivity.
Defined.

Lemma split_without_separator sep s :
  forallb (fun c => negb (Ascii.eqb c sep)) (list_ascii_of_string s) = true ->
  split sep s = [s].
Proof.
  induction s as [|c s IH]; cbn [split list_ascii_of_string forallb]; [reflexivity|].
  intros H. apply andb_true_iff in H. destruct H as [H1 H2].
  apply negb_true_iff in H1. rewrite H1, (IH H2). reflexivity.
Qed.

(** X6: a reference that leads back to itself.  When the value of the
    top-level key [a] holds the reference [#/a] where the next segment is
    looked up, the lookup of [a] followed by that segment never returns:
    whatever the loop budget, it is used up. *)
Theorem self_reference_never_returns
    (fuel : nat) (before after inner_before inner_after : list (node * node))
    (k kr : node) (s e s' e' s2 e2 : Z) (a piece : string) (rest : list string) :
  let inner :=
    MappingNode (inner_before ++ (kr, ScalarNode ("#/" ++ a) s2 e2) :: inner_after) s' e' in
  let ast := MappingNode (before ++ (k, inner) :: after) s e in
  plain a = true ->
  forallb (fun c => negb (Ascii.eqb c "/")) (list_ascii_of_string a) = true ->
  plain piece = true ->
  forallb (passed_over a) before = true ->
  key_is k a = true ->
  forallb (passed_over piece) inner_before = true ->
  key_is kr piece = false ->
  key_is kr "$ref" = true ->
  getPosition fuel ast (PathArray (a :: piece :: rest)) = Timeout.
Proof.
  intros inner ast P Sl Pp B K B' K' R. unfold getPosition. cbn [pieces_of].
  induction fuel as [fuel IH] using lt_wf_ind.
  destruct fuel as [|[|fuel]].
  - cbn [walk]. now rewrite (plain_nonempty _ P).
  - unfold ast at 2. rewrite walk_enters_key by assumption.
    cbn [walk]. now rewrite (plain_nonempty _ Pp).
  - unfold ast at 2. rewrite walk_enters_key by assumption.
    unfold inner. rewrite internal_reference_restarts;
      rewrite ?(stripped_plain _ Pp); cbn [fst]; try assumption;
      [|now apply plain_nonempty|reflexivity].
    cbn [refPaths substr append]. rewrite (split_without_separator _ _ Sl).
    cbn [app]. apply IH. lia.
Qed.

Lemma self_reference_never_returns_witness :
  getPosition 1000 self_referencing_ast (PathArray ["a"; "b"]) = Timeout.
Proof.
  apply (self_reference_never_returns 1000 [] [] [] []
           (ScalarNode "a" 0 1) (ScalarNode "$ref" 4 8) 0 16 3 16 10 15 "a" "b" []);
    reflexivity.
Defined.

(** ** Diagnostics *)

(** X7: what [makeAnnotation] builds whenever it returns: an annotation
    element that holds the message, with the type of the kind as its only
    class, the code of the kind, one origin link to the documentation
    fragment of the kind (none for an empty fragment), and a source map
    exactly when there is an AST, the path is truthy and the lookup gives a
    range with both ends defined; the source map then holds the start and
    the length.  A null or degenerate position leaves the annotation
    without source map. *)
Theorem annotation_shape
    (fuel : nat) (ast : option node) (info : annotation_kind) (p : option path)
    (message : value) (a : element) :
  makeAnnotation fuel ast info p message = Ret a ->
  element_name a = "annotation"
  /\ content_of a = content_from message
  /\ option_map children (get_entry "classes" (meta a))
     = Some [refract (Str (kind_type info))]
  /\ get_entry "code" (attributes a) = Some (refract (Num (kind_code info)))
  /\ option_map children (get_entry "links" (meta a))
     = (if nonempty (kind_fragment info)
        then Some [origin_link (kind_fragment info)] else None)
  /\ get_entry "sourceMap" (attributes a)
     = match ast, path_truthy p with
       | Some n, Some p' =>
           match getPosition fuel n p' with
           | Ret (Range (Some s) (Some e)) =>
               Some (Element "array" [] []
                       (CElements [new_value "sourceMap" (Arr [Arr [Num s; Num (e - s)]])]))
           | _ => None
           end
       | _, _ => None
       end.
Proof.
  unfold makeAnnotation. intros H.
  assert (G : forall base,
             base = (let annotation := new_value "annotation" message in
                     let annotation := push_class (kind_type info) annotation in
                     let annotation :=
                       set_attribute "code" (refract (Num (kind_code info))) annotation in
                     if nonempty (kind_fragment info) then
                       set_meta "links"
                         (push (origin_link (kind_fragment info)) (new_array "array"))
                         annotation
                     else annotation) ->
             element_name base = "annotation"
             /\ content_of base = content_from message
             /\ option_map children (get_entry "classes" (meta base))
                = Some [refract (Str (kind_type info))]
             /\ get_entry "code" (attributes base) = Some (refract (Num (kind_code info)))
             /\ option_map children (get_entry "links" (meta base))
                = (if nonempty (kind_fragment info)
                   then Some [origin_link (kind_fragment info)] else None)
             /\ get_entry "sourceMap" (attributes base) = None).
  { intros base ->. cbv zeta. destruct (nonempty (kind_fragment info)); repeat split. }
  cbv zeta in H.
  remember (if nonempty (kind_fragment info) then _ else _) as base eqn:Eb in H.
  specialize (G base Eb). clear Eb.
  destruct G as (G1 & G2 & G3 & G4 & G5 & G6).
  assert (D : forall s e,
             let a' := set_attribute "sourceMap" (source_map (Some s) (Some e)) base in
             element_name a' = "annotation"
             /\ content_of a' = content_from message
             /\ option_map children (get_entry "classes" (meta a'))
                = Some [refract (Str (kind_type info))]
             /\ get_entry "code" (attributes a') = Some (refract (Num (kind_code info)))
             /\ option_map children (get_entry "links" (meta a'))
                = (if nonempty (kind_fragment info)
                   then Some [origin_link (kind_fragment info)] else None)
             /\ get_entry "sourceMap" (attributes a')
                = Some (Element "array" [] []
                          (CElements [new_value "sourceMap" (Arr [Arr [Num s; Num (e - s)]])]))).
  { intros s e a'. subst a'.
    rewrite name_set_attribute, content_set_attribute, meta_set_attribute.
    repeat (split; [assumption|]). split.
    - destruct base as [n m at_ c]. cbn [set_attribute attributes] in *.
      rewrite get_set_entry_other by discriminate. exact G4.
    - destruct base as [n m at_ c]. cbn [set_attribute attributes].
      now rewrite get_set_entry. }
  destruct ast as [n|]; [|inversion H; subst; auto 10].
  destruct (path_truthy p) as [p'|]; [|inversion H; subst; auto 10].
  destruct (getPosition fuel n p') as [[|[s|] [e|]]| | |]; cbn [bind] in H;
    try discriminate; inversion H; subst; auto 10.
Qed.

Lemma annotation_shape_witness :
  exists a,
    makeAnnotation 1 (Some eleven_items_ast) DATA_LOST (Some (PathString "items"))
      (Str "lost") = Ret a
    /\ get_entry "sourceMap" (attributes a)
       = Some (Element "array" [] []
                 (CElements [new_value "sourceMap" (Arr [Arr [Num 0; Num 40]])])).
Proof.
  eexists. split; [reflexivity|].
  apply (annotation_shape 1 (Some eleven_items_ast) DATA_LOST (Some (PathString "items"))
           (Str "lost") _ eq_refl).
Defined.

(** ** Format detection *)

Lemma after_prefix_Some p : forall s r, after_prefix p s = Some r -> s = (p ++ r)%string.
Proof.
  induction p as [|a p IH]; intros s r; cbn [after_prefix append].
  - intros H. now inversion H.
  - destruct s as [|b s]; [discriminate|].
    destruct (Ascii.eqb_spec a b) as [->|]; [|discriminate].
    intros H. now rewrite (IH _ _ H).
Qed.

Lemma after_prefix_app p r : after_prefix p (p ++ r) = Some r.
Proof.
  induction p as [|a p IH]; cbn [after_prefix append]; [reflexivity|].
  now rewrite Ascii.eqb_refl.
Qed.

Lemma skip_spaces_split s :
  exists ws, s = (ws ++ skip_spaces s)%string
             /\ forallb is_space (list_ascii_of_string ws) = true.
Proof.
  induction s as [|c s (ws & E & F)]; cbn [skip_spaces].
  - exists "". split; reflexivity.
  - destruct (is_space c) eqn:Sc.
    + exists (String c ws). cbn [append list_ascii_of_string forallb].
      rewrite Sc, F. split; [now rewrite <- E|reflexivity].
    + exists "". split; reflexivity.
Qed.

Lemma quote_is_no_space q : is_quote q = true -> is_space q = false.
Proof.
  unfold is_quote. intros H. apply orb_true_iff in H.
  destruct H as [H|H]; apply Ascii.eqb_eq in H; subst; reflexivity.
Qed.

Lemma skip_spaces_until ws q r :
  forallb is_space (list_ascii_of_string ws) = true ->
  is_space q = false ->
  skip_spaces (ws ++ String q r) = String q r.
Proof.
  induction ws as [|c ws IH]; cbn [append list_ascii_of_string forallb skip_spaces];
    intros F Q.
  - now rewrite Q.
  - apply andb_true_iff in F. destruct F as [F1 F2]. rewrite F1. now apply IH.
Qed.

Lemma quoted_version_spec s :
  quoted_version s = true ->
  exists q1 q2 b,
    s = String q1 ("2.0" ++ String q2 b) /\ is_quote q1 = true /\ is_quote q2 = true.
Proof.
  unfold quoted_version.
  destruct s as [|q1 s]; [discriminate|].
  destruct s as [|c2 s]; [discriminate|].
  destruct c2 as [[] [] [] [] [] [] [] []]; try discriminate.
  destruct s as [|c3 s]; [discriminate|].
  destruct c3 as [[] [] [] [] [] [] [] []]; try discriminate.
  destruct s as [|c4 s]; [discriminate|].
  destruct c4 as [[] [] [] [] [] [] [] []]; try discriminate.
  destruct s as [|q2 b]; [discriminate|].
  intros H. apply andb_true_iff in H. exists q1, q2, b. split; [reflexivity|exact H].
Qed.

Lemma colon_and_version_spec t :
  colon_and_version t = true <->
  exists ws q1 q2 b,
    t = (":" ++ ws ++ String q1 ("2.0" ++ String q2 b))%string
    /\ forallb is_space (list_ascii_of_string ws) = true
    /\ is_quote q1 = true /\ is_quote q2 = true.
Proof.
  split.
  - unfold colon_and_version. destruct t as [|c t]; [discriminate|].
    destruct c as [[] [] [] [] [] [] [] []]; try discriminate.
    intros H. apply quoted_version_spec in H. destruct H as (q1 & q2 & b & E & Q1 & Q2).
    destruct (skip_spaces_split t) as (ws & Et & F). rewrite E in Et.
    exists ws, q1, q2, b. cbn [append]. rewrite Et at 1. auto.
  - intros (ws & q1 & q2 & b & -> & F & Q1 & Q2). cbn [append colon_and_version].
    rewrite (skip_spaces_until _ _ _ F (quote_is_no_space _ Q1)).
    cbn [append quoted_version]. now rewrite Q1, Q2.
Qed.

(** The texts [version_follows] accepts. *)
Lemma version_follows_spec s :
  version_follows s = true <->
  exists q ws q1 q2 b,
    s = (q ++ ":" ++ ws ++ String q1 ("2.0" ++ String q2 b))%string
    /\ (q = "" \/ q = String "034" "")
    /\ forallb is_space (list_ascii_of_string ws) = true
    /\ is_quote q1 = true /\ is_quote q2 = true.
Proof.
  split.
  - unfold version_follows. intros H.
    destruct s as [|c s]; [discriminate|].
    destruct (Ascii.eqb c "034"%char) eqn:Ec.
    + apply Ascii.eqb_eq in Ec. subst c.
      apply colon_and_version_spec in H.
      destruct H as (ws & q1 & q2 & b & -> & F & Q1 & Q2).
      exists (String "034" ""), ws, q1, q2, b. cbn [append]. auto 6.
    + apply colon_and_version_spec in H.
      destruct H as (ws & q1 & q2 & b & E & F & Q1 & Q2).
      exists "", ws, q1, q2, b. cbn [append]. auto 6.
  - intros (q & ws & q1 & q2 & b & -> & Q & F & Q1 & Q2).
    assert (C : colon_and_version (":" ++ ws ++ String q1 ("2.0" ++ String q2 b)) = true)
      by (apply colon_and_version_spec; exists ws, q1, q2, b; auto).
    destruct Q as [-> | ->]; cbn [append version_follows Ascii.eqb Bool.eqb]; exact C.
Qed.

Lemma matches_swagger_here r :
  version_follows r = true -> matches_swagger ("swagger" ++ r) = true.
Proof.
  intros H. change ("swagger" ++ r)%string with (String "s" ("wagger" ++ r)).
  cbn [matches_swagger].
  replace (after_prefix "swagger" (String "s" ("wagger" ++ r))) with (Some r)
    by (symmetry; apply (after_prefix_app "swagger" r)).
  now rewrite H.
Qed.

(** X8: [detect] on text answers true exactly for the texts that contain
    the word swagger, an optional double quote, a colon, any white space and
    then 2.0 between two quote characters, each single or double (the two
    need not be the same; an unquoted 2.0 is not accepted).  On a loaded
    document it answers true exactly when the [swagger] property is the
    string 2.0, and throws when the document is null or undefined. *)
Theorem detect_accepts :
  (forall text,
      detect (SourceText text) = Ret true <->
      exists a q ws q1 q2 b,
        text = (a ++ "swagger" ++ q ++ ":" ++ ws ++ String q1 ("2.0" ++ String q2 b))%string
        /\ (q = "" \/ q = String "034" "")
        /\ forallb is_space (list_ascii_of_string ws) = true
        /\ is_quote q1 = true /\ is_quote q2 = true)
  /\ (forall fields,
         detect (SourceObject (Obj fields)) = Ret true <->
         lookup "swagger" fields = Str "2.0")
  /\ (forall document,
         detect (SourceObject document) = Throw <->
         document = Undefined \/ document = Null).
Proof.
  split; [|split].
  - intros text. cbn [detect]. split.
    + intros H. assert (M : matches_swagger text = true) by now inversion H. clear H.
      induction text as [|c text IH].
      * cbn in M. discriminate.
      * cbn [matches_swagger] in M. apply orb_true_iff in M. destruct M as [M|M].
        -- destruct (after_prefix "swagger" (String c text)) as [rest|] eqn:A;
             [|discriminate].
           apply after_prefix_Some in A. apply version_follows_spec in M.
           destruct M as (q & ws & q1 & q2 & b & -> & Q & F & Q1 & Q2).
           exists "", q, ws, q1, q2, b. cbn [append] in *. auto 6.
        -- destruct (IH M) as (a & q & ws & q1 & q2 & b & -> & Q & F & Q1 & Q2).
           exists (String c a), q, ws, q1, q2, b. cbn [append]. auto 6.
    + intros (a & q & ws & q1 & q2 & b & -> & Q & F & Q1 & Q2). f_equal.
      assert (T : matches_swagger
                    ("swagger" ++ q ++ ":" ++ ws ++ String q1 ("2.0" ++ String q2 b)) = true).
      { apply matches_swagger_here. apply version_follows_spec.
        exists q, ws, q1, q2, b. auto 6. }
      revert T.
      generalize ("swagger" ++ q ++ ":" ++ ws ++ String q1 ("2.0" ++ String q2 b))%string.
      intros tail T. induction a as [|c a IH]; cbn [append]; [exact T|].
      cbn [matches_swagger]. rewrite IH. apply orb_true_r.
  - intros fields. cbn [detect prop bind]. unfold is_str. split.
    + intros H. injection H as E.
      destruct (lookup "swagger" fields) as [| | | | |s| |]; cbn in E; try discriminate.
      apply String.eqb_eq in E. now rewrite E.
    + intros ->. reflexivity.
  - intros document. cbn [detect]. split.
    + destruct document; cbn; try discriminate; auto.
    + intros [-> | ->]; reflexivity.
Qed.

(** ** Parameter classifier *)

(** X9: the placeholder chosen for a parameter.  For every parameter object
    the classifier returns a member whose key is the parameter's name and
    whose value is a placeholder: a number element without content for the
    types integer and number, a boolean element without content for
    boolean, an empty array element for array, and a string element holding
    the empty string for the type string and for every other or missing
    type.  Only a null or undefined parameter makes it throw. *)
Theorem placeholder_follows_type :
  (forall parameter,
      convertParameterToElement parameter = Throw <->
      parameter = Undefined \/ parameter = Null)
  /\ (forall fields,
         exists member placeholder,
           convertParameterToElement (Obj fields) = Ret member
           /\ element_name member = "member"
           /\ member_key member = value_of (refract_opt (lookup "name" fields))
           /\ placeholder_of member = Some placeholder
           /\ (element_name placeholder, content_of placeholder)
              = match lookup "type" fields with
                | Str "integer" | Str "number" => ("number", CUndefined)
                | Str "boolean" => ("boolean", CUndefined)
                | Str "array" => ("array", CElements [])
                | _ => ("string", CValue (Str ""))
                end).
Proof.
  split.
  - intros parameter. split.
    + destruct parameter; try (intros H; now auto); unfold convertParameterToElement;
        cbn [prop bind]; discriminate.
    + intros [-> | ->]; reflexivity.
  - intros fields. unfold convertParameterToElement. cbn [prop bind].
    set (type := lookup "type" fields).
    set (placeholder :=
           if is_str "string" type then new_value "string" (Str "")
           else if (is_str "integer" type || is_str "number" type)%bool
           then new_value "number" Undefined
           else if is_str "boolean" type then new_value "boolean" Undefined
           else if is_str "array" type then new_array "array"
           else new_value "string" (Str "")).
    set (placeholder' :=
           if truthy (lookup "default" fields)
           then set_attribute "default" (refract (lookup "default" fields)) placeholder
           else placeholder).
    eexists. exists placeholder'. split; [reflexivity|].
    assert (K : (element_name placeholder', content_of placeholder')
                = (element_name placeholder, content_of placeholder)).
    { unfold placeholder'. destruct (truthy (lookup "default" fields)); [|reflexivity].
      now rewrite name_set_attribute, content_set_attribute. }
    rewrite K. clear K.
    assert (T : (element_name placeholder, content_of placeholder)
                = match type with
                  | Str "integer" | Str "number" => ("number", CUndefined)
                  | Str "boolean" => ("boolean", CUndefined)
                  | Str "array" => ("array", CElements [])
                  | _ => ("string", CValue (Str ""))
                  end).
    { unfold placeholder, is_str. clearbody type. clear.
      destruct type as [| | | | |t| |]; try reflexivity. cbn [strict_eq].
      destruct (String.eqb_spec t "string") as [->|N1]; [reflexivity|].
      destruct (String.eqb_spec t "integer") as [->|N2]; [reflexivity|].
      destruct (String.eqb_spec t "number") as [->|N3]; [reflexivity|].
      destruct (String.eqb_spec t "boolean") as [->|N4]; [reflexivity|].
      destruct (String.eqb_spec t "array") as [->|N5]; [reflexivity|].
      cbn [orb].
      repeat match goal with
             | |- context [match ?s with EmptyString => _ | String _ _ => _ end] =>
                 destruct s as [|[[] [] [] [] [] [] [] []] ?]; try reflexivity
             end; contradiction. }
    destruct (truthy (lookup "description" fields)), (truthy (lookup "required" fields));
      repeat split; exact T.
Qed.

(** X10: the optional parts of a parameter member are attached exactly for
    truthy values: the description in the member's [meta], the
    [typeAttributes] list holding [required] on the member, and the default
    on the value placeholder.  A value that is present but falsy (0, false,
    the empty string, null) leaves its part out. *)
Theorem optional_parts_need_truthy_values (fields : list (string * value)) :
  exists member,
    convertParameterToElement (Obj fields) = Ret member
    /\ get_entry "description" (meta member)
       = (if truthy (lookup "description" fields)
          then Some (refract (lookup "description" fields)) else None)
    /\ get_entry "typeAttributes" (attributes member)
       = (if truthy (lookup "required" fields)
          then Some (refract (Arr [Str "required"])) else None)
    /\ default_of member
       = (if truthy (lookup "default" fields)
          then Some (refract (lookup "default" fields)) else None).
Proof.
  unfold convertParameterToElement. cbn [prop bind].
  set (placeholder :=
         if is_str "string" (lookup "type" fields) then new_value "string" (Str "")
         else if (is_str "integer" (lookup "type" fields)
                  || is_str "number" (lookup "type" fields))%bool
         then new_value "number" Undefined
         else if is_str "boolean" (lookup "type" fields) then new_value "boolean" Undefined
         else if is_str "array" (lookup "type" fields) then new_array "array"
         else new_value "string" (Str "")).
  assert (A : attributes placeholder = []).
  { unfold placeholder.
    repeat match goal with |- context [if ?c then _ else _] => destruct c end; reflexivity. }
  eexists. split; [reflexivity|].
  destruct (truthy (lookup "description" fields)), (truthy (lookup "required" fields)),
    (truthy (lookup "default" fields));
    cbn [set_meta set_attribute meta attributes get_entry set_entry String.eqb Ascii.eqb
         Bool.eqb default_of content_of];
    repeat split; try (now rewrite A);
    destruct placeholder as [n m at_ c]; cbn [attributes] in A; subst at_; reflexivity.
Qed.

(** ** [parse] *)

(** X11: text that cannot be loaded.  When [yaml.safeLoad] throws, [parse]
    calls [done] once, without an error, with a result that holds one
    annotation and nothing else: the CANNOT_PARSE error (code 1) with the
    message [Problem loading the input] and no source map.  The validator
    is not consulted and the text is left as it is. *)
Theorem unloadable_text_is_reported
    (safeLoad : string -> option value) (compose : string -> option (option node))
    (validate : value -> validation)
    (buildUriTemplate : string -> string -> value -> list value -> string)
    (JSON_stringify JSON_stringify_indented : value -> value)
    (fuel : nat) (gsm : bool) (text : string) :
  safeLoad text = None ->
  exists a,
    parse safeLoad compose validate buildUriTemplate JSON_stringify
      JSON_stringify_indented fuel gsm (SourceText text)
    = (SourceText text, Ret [ {| error := None; result := [a] |} ])
    /\ is_annotation CANNOT_PARSE a = true
    /\ content_of a = CValue (Str "Problem loading the input")
    /\ get_entry "sourceMap" (attributes a) = None.
Proof.
  intros L. unfold parse. cbn [load]. rewrite L.
  eexists. split; [reflexivity|]. repeat split.
Qed.

Lemma unloadable_text_is_reported_witness :
  exists a,
    parse no_text no_ast accepting joined serialized serialized 0 true (SourceText "{")
    = (SourceText "{", Ret [ {| error := None; result := [a] |} ])
    /\ is_annotation CANNOT_PARSE a = true
    /\ content_of a = CValue (Str "Problem loading the input")
    /\ get_entry "sourceMap" (attributes a) = None.
Proof.
  apply (unloadable_text_is_reported no_text no_ast accepting joined serialized serialized
           0 true "{"). reflexivity.
Defined.

(** What a completed run of [parse] on a loaded document hands to [done]. *)
Lemma parse_after_loading
    (safeLoad : string -> option value) (compose : string -> option (option node))
    (validate : value -> validation)
    (buildUriTemplate : string -> string -> value -> list value -> string)
    (JSON_stringify JSON_stringify_indented : value -> value)
    (fuel : nat) (gsm : bool) (src : source) (loaded : value) (calls : list done_call) :
  load safeLoad src = Some loaded ->
  snd (parse safeLoad compose validate buildUriTemplate JSON_stringify
         JSON_stringify_indented fuel gsm src) = Ret calls ->
  exists early rest failure loaded',
    snd (compose_ast compose fuel src) = Ret early
    /\ Forall (fun a => is_annotation AST_UNAVAILABLE a = true) early
    /\ with_defaults loaded = Ret loaded'
    /\ calls = [ {| error := failure; result := early ++ rest |} ]
    /\ ((exists e, failure = Some e /\ rest = []
                   /\ validate loaded' = {| err := Some e; api := NoApi |})
        \/ (failure = None
            /\ exists reported root lost,
                rest = reported ++ root :: lost
                /\ Forall (fun a => is_annotation VALIDATION_ERROR a = true) reported
                /\ root_like root
                /\ Forall (fun a => is_annotation DATA_LOST a = true) lost
                /\ exists swagger,
                    snd (build_api gsm (fst (compose_ast compose fuel src)) fuel
                           buildUriTemplate JSON_stringify JSON_stringify_indented
                           swagger) = Ret (root, lost))).
Proof.
  intros L. unfold parse. rewrite L.
  destruct (compose_ast_early compose fuel src) as (ast & early & Ec & Fe).
  rewrite Ec. cbn [snd fst].
  destruct (with_defaults loaded) as [loaded'| | |]; try (cbn [snd]; discriminate).
  cbv zeta. unfold validated.
  destruct (validate loaded') as [failure a] eqn:V. cbn [err api].
  assert (G : forall reported,
             (match failure with
              | Some e => validation_annotations ast fuel e
              | None => unit_ tt
              end) = Ret (tt, reported) ->
             Forall (fun a => is_annotation VALIDATION_ERROR a = true) reported).
  { intros reported H. destruct failure as [e|].
    - now apply validation_annotations_log in H.
    - apply unit_Ret in H. destruct H as [_ ->]. constructor. }
  assert (B : forall swagger, 
             snd (let '(swagger', calls0) :=
                    match (match failure with
                           | Some e => validation_annotations ast fuel e
                           | None => unit_ tt
                           end) with
                    | Ret (_, reported) =>
                        let '(swagger', built) :=
                          build_api gsm ast fuel buildUriTemplate JSON_stringify
                            JSON_stringify_indented swagger in
                        (swagger',
                         built <- built ;;
                         Ret [ {| error := None;
                                  result := early ++ reported ++ [fst built] ++ snd built |} ])
                    | Throw => (swagger, Throw)
                    | Timeout => (swagger, Timeout)
                    | Unsupported => (swagger, Unsupported)
                    end in
                  (caller_source src loaded' {| err := failure; api := a |} swagger', calls0))
             = Ret calls ->
             exists reported root lost,
               calls = [ {| error := None; result := early ++ reported ++ root :: lost |} ]
               /\ Forall (fun a => is_annotation VALIDATION_ERROR a = true) reported
               /\ root_like root
               /\ Forall (fun a => is_annotation DATA_LOST a = true) lost
               /\ snd (build_api gsm ast fuel buildUriTemplate JSON_stringify
                         JSON_stringify_indented swagger) = Ret (root, lost)).
  { intros swagger.
    destruct (match failure with
              | Some e => validation_annotations ast fuel e
              | None => unit_ tt
              end) as [[[] reported]| | |] eqn:Ev; try (cbn [snd]; discriminate).
    pose proof (logs_build_api gsm ast fuel buildUriTemplate JSON_stringify
                  JSON_stringify_indented
                  (fun x => is_annotation DATA_LOST x = true)
                  (fun p m x Hx => proj1 (makeAnnotation_kind _ _ _ _ _ _ Hx
                                            (or_intror (or_intror (or_introl eq_refl)))))
                  swagger) as Lb.
    pose proof (returns_build_api gsm ast fuel buildUriTemplate JSON_stringify
                  JSON_stringify_indented swagger) as Rb.
    destruct (build_api gsm ast fuel buildUriTemplate JSON_stringify
                JSON_stringify_indented swagger) as [swagger' built].
    cbn [snd] in *. destruct built as [[root lost]| | |]; cbn [bind]; try discriminate.
    intros H. inversion H; subst calls; clear H.
    exists reported, root, lost. cbn [fst snd app].
    split; [reflexivity|]. split; [now apply G|]. split; [eapply Rb; reflexivity|].
    split; [eapply Lb; reflexivity|reflexivity]. }
  intros H. exists early.
  destruct failure as [e|]; [destruct a as [|now|other]|].
  - cbn [snd] in H. inversion H; subst calls.
    exists [], (Some e), loaded'. rewrite app_nil_r.
    repeat (split; [reflexivity || assumption|]). left. exists e. auto.
  - apply B in H. destruct H as (reported & root & lost & -> & Fr & Rr & Fl & Bu).
    exists (reported ++ root :: lost), None, loaded'.
    repeat (split; [reflexivity || assumption|]). right. split; [reflexivity|].
    exists reported, root, lost. repeat (split; [reflexivity || assumption|]).
    eexists. exact Bu.
  - apply B in H. destruct H as (reported & root & lost & -> & Fr & Rr & Fl & Bu).
    exists (reported ++ root :: lost), None, loaded'.
    repeat (split; [reflexivity || assumption|]). right. split; [reflexivity|].
    exists reported, root, lost. repeat (split; [reflexivity || assumption|]).
    eexists. exact Bu.
  - apply B in H. destruct H as (reported & root & lost & -> & Fr & Rr & Fl & Bu).
    exists (reported ++ root :: lost), None, loaded'.
    repeat (split; [reflexivity || assumption|]). right. split; [reflexivity|].
    exists reported, root, lost. repeat (split; [reflexivity || assumption|]).
    eexists. exact Bu.
Qed.

Lemma annotation_name info a : is_annotation info a = true -> element_name a = "annotation".
Proof.
  unfold is_annotation. intros H. apply andb_true_iff in H. destruct H as [H _].
  apply andb_true_iff in H. destruct H as [H _]. now apply String.eqb_eq in H.
Qed.

Lemma roots_of_annotations info l :
  Forall (fun a => is_annotation info a = true) l -> roots l = [].
Proof.
  intros F. unfold roots. apply filter_none. eapply Forall_impl; [|exact F].
  intros x Hx. apply annotation_is_no_category in Hx. now rewrite Hx.
Qed.

Lemma roots_of_root root : root_like root -> roots [root] = [root].
Proof.
  intros [N C]. unfold roots, is_category. cbn [filter]. now rewrite N, C.
Qed.

(** X12: [done] is called exactly once.  Every run of [parse] that returns
    has called [done] once and only once.  The call carries an error only
    when validation failed and left no API object, and the result then
    holds no root category; every other call, made for a document that was
    loaded, has no error and a result made of annotations and exactly one
    root category. *)
Theorem done_is_called_once
    (safeLoad : string -> option value) (compose : string -> option (option node))
    (validate : value -> validation)
    (buildUriTemplate : string -> string -> value -> list value -> string)
    (JSON_stringify JSON_stringify_indented : value -> value)
    (fuel : nat) (gsm : bool) (src : source) (calls : list done_call) :
  snd (parse safeLoad compose validate buildUriTemplate JSON_stringify
         JSON_stringify_indented fuel gsm src) = Ret calls ->
  exists call,
    calls = [call]
    /\ Forall (fun x => element_name x = "annotation" \/ root_like x) (result call)
    /\ (forall e, error call = Some e ->
          roots (result call) = []
          /\ exists loaded', validate loaded' = {| err := Some e; api := NoApi |})
    /\ (error call = None ->
          (load safeLoad src = None /\ roots (result call) = [])
          \/ exists root, roots (result call) = [root]).
Proof.
  intros H. destruct (load safeLoad src) as [loaded|] eqn:L.
  - destruct (parse_after_loading _ _ _ _ _ _ _ _ _ _ _ L H)
      as (early & rest & failure & loaded' & _ & Fe & W & -> & C).
    eexists. split; [reflexivity|]. cbn [result error].
    assert (Re : roots early = []) by now apply roots_of_annotations in Fe.
    assert (Ne : Forall (fun x => element_name x = "annotation" \/ root_like x) early).
    { eapply Forall_impl; [|exact Fe]. intros x Hx. left. now apply annotation_name in Hx. }
    destruct C as [(e & -> & -> & V) | (-> & reported & root & lost & -> & Fr & Rr & Fl & _)].
    + rewrite app_nil_r. split; [exact Ne|]. split; [|discriminate].
      intros e' E. inversion E; subst e'. split; [exact Re|]. now exists loaded'.
    + split; [|split; [discriminate|]].
      * apply Forall_app. split; [exact Ne|]. apply Forall_app. split.
        -- eapply Forall_impl; [|exact Fr]. intros x Hx. left. now apply annotation_name in Hx.
        -- constructor; [now right|].
           eapply Forall_impl; [|exact Fl]. intros x Hx. left. now apply annotation_name in Hx.
      * intros _. right. exists root. unfold roots in *. rewrite !filter_app, Re.
        fold (roots reported). rewrite (roots_of_annotations _ _ Fr).
        change (root :: lost) with ([root] ++ lost). rewrite filter_app.
        fold (roots [root]) (roots lost).
        now rewrite (roots_of_root _ Rr), (roots_of_annotations _ _ Fl).
  - unfold parse in H. rewrite L in H. cbn [snd bind] in H.
    unfold makeAnnotation in H. cbn in H. inversion H; subst calls.
    eexists. split; [reflexivity|]. cbn [result error]. split; [|split].
    + constructor; [now left|constructor].
    + discriminate.
    + intros _. left. split; reflexivity.
Qed.

Lemma done_is_called_once_witness :
  exists call,
    [ {| error := Some nested_error; result :=
           match makeAnnotation 0 None AST_UNAVAILABLE None
                   (Str "Source maps are only available with string input") with
           | Ret a => [a]
           | _ => []
           end |} ] = [call]
    /\ Forall (fun x => element_name x = "annotation" \/ root_like x) (result call)
    /\ (forall e, error call = Some e ->
          roots (result call) = []
          /\ exists loaded', failing loaded' = {| err := Some e; api := NoApi |})
    /\ (error call = None ->
          (load no_text (SourceObject (Obj [])) = None /\ roots (result call) = [])
          \/ exists root, roots (result call) = [root]).
Proof.
  apply (done_is_called_once no_text no_ast failing joined serialized serialized 0 false
           (SourceObject (Obj []))).
  reflexivity.
Defined.

(** X13: a document that is no object.  When the loaded document is
    undefined or null (an empty YAML text loads as undefined) or another
    primitive, [parse] throws while setting the defaults for [info] and
    [paths]: [done] is never called, also not with the annotations made so
    far, and the source is left as it is. *)
Theorem primitive_document_throws
    (safeLoad : string -> option value) (compose : string -> option (option node))
    (validate : value -> validation)
    (buildUriTemplate : string -> string -> value -> list value -> string)
    (JSON_stringify JSON_stringify_indented : value -> value)
    (fuel : nat) (gsm : bool) (src : source) (loaded : value) :
  load safeLoad src = Some loaded ->
  match loaded with
  | Obj _ | Arr _ => False
  | _ => True
  end ->
  parse safeLoad compose validate buildUriTemplate JSON_stringify
    JSON_stringify_indented fuel gsm src = (src, Throw).
Proof.
  intros L P. unfold parse. rewrite L.
  destruct (compose_ast_early compose fuel src) as (ast & early & Ec & Fe).
  rewrite Ec. destruct loaded; try contradiction; reflexivity.
Qed.

Lemma primitive_document_throws_witness :
  parse empty_document no_ast accepting joined serialized serialized 0 false
    (SourceText "") = (SourceText "", Throw).
Proof.
  apply (primitive_document_throws empty_document no_ast accepting joined serialized
           serialized 0 false (SourceText "") Undefined); [reflexivity|exact I].
Defined.

(** X14: the warning about source maps.  A run of [parse] on a document
    that was passed in loaded puts one AST_UNAVAILABLE warning (code 2),
    [Source maps are only available with string input], first in the
    result, and the same holds, with the message that the AST could not be
    composed, for a text that loads but whose AST cannot be composed; the
    result holds no other annotation of that kind.  For a text whose AST is
    composed the result holds none. *)
Theorem source_map_warning_comes_first
    (safeLoad : string -> option value) (compose : string -> option (option node))
    (validate : value -> validation)
    (buildUriTemplate : string -> string -> value -> list value -> string)
    (JSON_stringify JSON_stringify_indented : value -> value)
    (fuel : nat) (gsm : bool) (src : source) (loaded : value) (calls : list done_call) :
  load safeLoad src = Some loaded ->
  snd (parse safeLoad compose validate buildUriTemplate JSON_stringify
         JSON_stringify_indented fuel gsm src) = Ret calls ->
  exists call,
    calls = [call]
    /\ match src with
       | SourceText text =>
           match compose text with
           | Some _ => filter (is_annotation AST_UNAVAILABLE) (result call) = []
           | None =>
               exists a rest,
                 result call = a :: rest
                 /\ filter (is_annotation AST_UNAVAILABLE) (result call) = [a]
                 /\ content_of a =
                      CValue (Str "Input AST could not be composed, so source maps will not be available")
           end
       | SourceObject _ =>
           exists a rest,
             result call = a :: rest
             /\ filter (is_annotation AST_UNAVAILABLE) (result call) = [a]
             /\ content_of a = CValue (Str "Source maps are only available with string input")
       end.
Proof.
  intros L H.
  destruct (parse_after_loading _ _ _ _ _ _ _ _ _ _ _ L H)
    as (early & rest & failure & loaded' & Ec & Fe & W & -> & C).
  eexists. split; [reflexivity|]. cbn [result].
  assert (R : filter (is_annotation AST_UNAVAILABLE) rest = []).
  { destruct C as [(e & _ & -> & _) | (_ & reported & root & lost & -> & Fr & Rr & Fl & _)];
      [reflexivity|].
    rewrite filter_app. cbn [filter]. rewrite (root_is_no_annotation _ _ Rr).
    rewrite (filter_none _ reported), (filter_none _ lost); [reflexivity| |].
    - eapply Forall_impl; [|exact Fl]. intros x Hx.
      apply (annotation_kinds_differ DATA_LOST); [exact Hx|discriminate].
    - eapply Forall_impl; [|exact Fr]. intros x Hx.
      apply (annotation_kinds_differ VALIDATION_ERROR); [exact Hx|discriminate]. }
  unfold compose_ast in Ec. destruct src as [text|document].
  - destruct (compose text) as [composed|]; cbn [snd bind] in Ec.
    + inversion Ec; subst early. exact R.
    + unfold makeAnnotation in Ec. cbn in Ec. inversion Ec; subst early.
      eexists. exists rest. cbn [app filter]. split; [reflexivity|].
      split; [|reflexivity]. cbn. now rewrite R.
  - cbn [snd bind] in Ec. unfold makeAnnotation in Ec. cbn in Ec. inversion Ec; subst early.
    eexists. exists rest. cbn [app filter]. split; [reflexivity|].
    split; [|reflexivity]. cbn. now rewrite R.
Qed.

Lemma source_map_warning_comes_first_witness :
  exists call,
    snd (sample_run (Obj [])) = Ret [call]
    /\ exists a rest,
        result call = a :: rest
        /\ filter (is_annotation AST_UNAVAILABLE) (result call) = [a]
        /\ content_of a = CValue (Str "Source maps are only available with string input").
Proof.
  destruct (source_map_warning_comes_first no_text no_ast accepting joined serialized
              serialized 0 false (SourceObject (Obj [])) (Obj [])
              (match snd (sample_run (Obj [])) with Ret calls => calls | _ => [] end)
              eq_refl eq_refl) as (call & E & W).
  exists call. split; [rewrite <- E; reflexivity|exact W].
Defined.

(** ** Base path *)

Lemma drop_slashes_spec l :
  exists n, l = repeat "/"%char n ++ drop_slashes l
            /\ hd_error (drop_slashes l) <> Some "/"%char.
Proof.
  induction l as [|c l (n & E & H)]; cbn [drop_slashes].
  - exists 0. split; [reflexivity|discriminate].
  - destruct (Ascii.eqb_spec c "/"%char) as [->|N].
    + exists (S n). cbn [repeat app]. split; [now rewrite <- E|exact H].
    + exists 0. split; [reflexivity|]. cbn [hd_error]. congruence.
Qed.

Lemma rev_repeat_same {A} (x : A) n : rev (repeat x n) = repeat x n.
Proof.
  induction n as [|n IH]; [reflexivity|].
  cbn [repeat rev]. rewrite IH. symmetry. apply repeat_cons.
Qed.

Lemma string_of_list_ascii_app a b :
  string_of_list_ascii (a ++ b) = (string_of_list_ascii a ++ string_of_list_ascii b)%string.
Proof. induction a as [|c a IH]; cbn; [reflexivity|now rewrite IH]. Qed.

Lemma strip_trailing_slashes_spec s :
  exists n,
    s = (strip_trailing_slashes s ++ slashes n)%string
    /\ forall r, strip_trailing_slashes s <> (r ++ "/")%string.
Proof.
  unfold strip_trailing_slashes, slashes.
  destruct (drop_slashes_spec (rev (list_ascii_of_string s))) as (n & E & H).
  exists n. split.
  - rewrite <- string_of_list_ascii_app, <- (rev_repeat_same _ n), <- rev_app_distr, <- E.
    now rewrite rev_involutive, string_of_list_ascii_of_string.
  - intros r C. apply (f_equal list_ascii_of_string) in C.
    rewrite list_ascii_of_string_of_list_ascii, list_ascii_of_string_app in C.
    apply (f_equal (@rev ascii)) in C. rewrite rev_involutive, rev_app_distr in C.
    cbn in C. rewrite C in H. now apply H.
Qed.

(** X15: the base path the builder works with.  A string [basePath] is
    used without the slashes at its end, and only those are taken off: the
    text is the base path used followed by slashes, and the base path used
    does not end with a slash.  A missing or falsy [basePath] gives the
    empty base path, and a truthy [basePath] that is no string makes the
    builder throw. *)
Theorem base_path_drops_trailing_slashes (fields : list (string * value)) :
  match lookup "basePath" fields with
  | Str s =>
      exists r n,
        base_path (Obj fields) = Ret r
        /\ s = (r ++ slashes n)%string
        /\ forall r', r <> (r' ++ "/")%string
  | other =>
      base_path (Obj fields) = (if truthy other then Throw else Ret "")
  end.
Proof.
  unfold base_path. cbn [prop bind].
  destruct (lookup "basePath" fields) as [| | |[]|n|s|items|ofields]; try reflexivity.
  - unfold or_else. cbn [truthy]. destruct (Z.eqb n 0); reflexivity.
  - destruct (strip_trailing_slashes_spec s) as (n & E & H).
    exists (strip_trailing_slashes s), n.
    split; [|split; [exact E|exact H]].
    unfold or_else. cbn [truthy]. destruct s; reflexivity.
Qed.

(** ** Grouping decision *)

Lemma label_paths_tags paths entries tags paths' tags' :
  label_paths paths entries tags = (paths', Ret tags') ->
  exists added, tags' = tags ++ added /\ (added = [] -> paths' = paths).
Proof.
  revert paths tags. induction entries as [|[key path] entries IH]; cbn [label_paths];
    intros paths tags H.
  - inversion H; subst. exists []. now rewrite app_nil_r.
  - destruct (resolved_tag path) as [tag| | |]; try (inversion H; fail).
    destruct (truthy tag).
    + destruct path; try (inversion H; fail).
      apply IH in H. destruct H as (added & -> & _).
      exists (tag :: added). rewrite <- app_assoc. split; [reflexivity|discriminate].
    + now apply IH in H.
Qed.

Lemma assign_lookup k fields :
  has_key k fields = true -> assign k (lookup k fields) fields = fields.
Proof.
  unfold has_key. induction fields as [|[k' v] fields IH]; cbn; [discriminate|].
  destruct (String.eqb k' k) eqn:E; cbn; [reflexivity|].
  intros H. now rewrite IH.
Qed.

(** X16: when [useResourceGroups] answers false it has written nothing:
    the document is exactly as it was (no path carries a new
    [x-group-name]). *)
Theorem no_grouping_leaves_document_unchanged (api : value) :
  snd (useResourceGroups api) = Ret false ->
  fst (useResourceGroups api) = api.
Proof.
  unfold useResourceGroups. destruct api as [| | | | | | |fields]; try reflexivity.
  destruct (truthy (lookup "paths" fields)) eqn:T; [|reflexivity].
  destruct (label_paths (lookup "paths" fields) (each_entries (lookup "paths" fields)) [])
    as [paths' tags] eqn:L.
  cbn [fst snd]. destruct tags as [tags| | |]; cbn [bind]; try discriminate.
  intros H. apply label_paths_tags in L. destruct L as (added & -> & U).
  destruct added as [|tag added]; [|discriminate].
  rewrite (U eq_refl). f_equal. apply assign_lookup.
  apply has_key_defined. destruct (lookup "paths" fields); try discriminate; reflexivity.
Qed.

Lemma no_grouping_leaves_document_unchanged_witness :
  fst (useResourceGroups (Obj [("paths", Obj [("/a", Obj [("get", Obj [])])])]))
  = Obj [("paths", Obj [("/a", Obj [("get", Obj [])])])].
Proof.
  apply (no_grouping_leaves_document_unchanged
           (Obj [("paths", Obj [("/a", Obj [("get", Obj [])])])])).
  reflexivity.
Defined.

Lemma count_of_many x y items :
  exists n, prop (Arr (x :: y :: items)) "length" = Ret (Num n)
            /\ truthy (Num n) = true
            /\ greater_than (Num n) 1 = Ret true.
Proof.
  exists (Z.of_nat (List.length (x :: y :: items))). split; [reflexivity|].
  cbn [truthy greater_than List.length]. split.
  - apply negb_true_iff. apply Z.eqb_neq. lia.
  - f_equal. apply Z.ltb_lt. lia.
Qed.

Lemma path_tag_passes tag before rest :
  forallb sets_no_tag before = true ->
  path_tag tag (before ++ rest) = path_tag tag rest.
Proof.
  induction before as [|operation before IH]; cbn [app forallb]; [reflexivity|].
  intros H. apply andb_true_iff in H. destruct H as [H1 H2].
  cbn [path_tag]. destruct operation as [| | | | | | |fields]; try discriminate.
  cbn [sets_no_tag] in H1. cbn [prop bind].
  destruct (lookup "tags" fields) as [| | |[]|n|s|items|ofields]; cbn [truthy] in *;
    try discriminate; cbn [bind truthy]; try (now apply IH).
  - apply negb_true_iff in H1. rewrite H1. cbn [bind truthy]. now apply IH.
  - apply negb_true_iff in H1. rewrite H1. cbn [bind truthy]. now apply IH.
  - destruct items as [|x [|y items]]; try discriminate; [cbn; now apply IH|].
    destruct (count_of_many x y items) as (n & -> & Tn & Gn).
    cbn [bind]. rewrite Tn, Gn. cbn [bind]. now apply IH.
Qed.

Lemma path_tag_keeps tag operations :
  strict_eq tag Null = false ->
  forallb tags_well_formed operations = true ->
  path_tag tag operations = Ret tag.
Proof.
  intros N. induction operations as [|operation operations IH]; cbn [forallb];
    [reflexivity|].
  intros H. apply andb_true_iff in H. destruct H as [H1 H2].
  cbn [path_tag]. destruct operation as [| | | | | | |fields]; try discriminate.
  cbn [tags_well_formed] in H1. cbn [prop bind].
  destruct (lookup "tags" fields) as [| | |[]|n|s|items|ofields]; cbn [truthy] in *;
    try discriminate; cbn [bind truthy]; try (now apply IH).
  - apply negb_true_iff in H1. rewrite H1. cbn [bind truthy]. now apply IH.
  - apply negb_true_iff in H1. rewrite H1. cbn [bind truthy]. now apply IH.
  - destruct items as [|x [|y items]]; [cbn; now apply IH|cbn; rewrite N; now apply IH|].
    destruct (count_of_many x y items) as (n & -> & Tn & Gn).
    cbn [bind]. rewrite Tn, Gn. cbn [bind]. now apply IH.
Qed.

(** X17: the group name of a path.  The tag [useResourceGroups] settles on
    for a path item is the tag of its first operation that has exactly one
    tag: operations without tags and operations with several tags before it
    are passed over, and what the later operations are tagged with makes no
    difference.  A path item none of whose operations has exactly one tag
    gets no group name. *)
Theorem group_name_is_first_single_tag
    (before after : list (string * value)) (method : string)
    (operation : list (string * value)) (tag : value) :
  array_like (before ++ (method, Obj operation) :: after) = false ->
  forallb sets_no_tag (map snd before) = true ->
  lookup "tags" operation = Arr [tag] ->
  strict_eq tag Null = false ->
  forallb tags_well_formed (map snd after) = true ->
  resolved_tag (Obj (before ++ (method, Obj operation) :: after)) = Ret tag
  /\ (array_like before = false -> resolved_tag (Obj before) = Ret Null).
Proof.
  intros A B T N W. unfold resolved_tag. cbn [truthy]. split.
  - rewrite (each_entries_object _ A), map_app. cbn [map snd].
    rewrite (path_tag_passes _ _ _ B). cbn [path_tag prop bind]. rewrite T.
    cbn. now apply path_tag_keeps.
  - intros A'. rewrite (each_entries_object _ A').
    rewrite <- (app_nil_r (map snd before)). now rewrite (path_tag_passes _ _ _ B).
Qed.

Lemma group_name_is_first_single_tag_witness :
  resolved_tag (Obj second_operation_tagged) = Ret (Str "pets")
  /\ (array_like [("get", Obj [("tags", Arr [Str "a"; Str "b"])])] = false ->
      resolved_tag (Obj [("get", Obj [("tags", Arr [Str "a"; Str "b"])])]) = Ret Null).
Proof.
  apply (group_name_is_first_single_tag
           [("get", Obj [("tags", Arr [Str "a"; Str "b"])])]
           [("put", Obj [("tags", Arr [Str "other"])])]
           "post" [("tags", Arr [Str "pets"])] (Str "pets")); reflexivity.
Defined.

(** ** Path-level parameters *)

Lemma located_query_or_path parameter where_ :
  prop parameter "in" = Ret where_ ->
  located ["query"; "path"] parameter = (is_str "query" where_ || is_str "path" where_)%bool
  /\ located ["body"] parameter = is_str "body" where_
  /\ ((is_str "query" where_ || is_str "path" where_)%bool = true ->
      is_str "body" where_ = false).
Proof.
  intros P. unfold located. rewrite P. cbn [existsb]. rewrite !orb_false_r.
  split; [reflexivity|]. split; [reflexivity|].
  unfold is_str. destruct where_ as [| | | | |w| |]; try discriminate. cbn [strict_eq].
  intros H. apply orb_true_iff in H.
  destruct H as [H|H]; apply String.eqb_eq in H; subst; reflexivity.
Qed.

Lemma path_parameters_loop gsm ast fuel href :
  forall (l : list (nat * value)) hv items hv' log,
    content_of hv = CElements items ->
    for_each (path_parameter gsm ast fuel href) l hv = Ret (hv', log) ->
    exists members,
      content_of hv' = CElements (items ++ members)
      /\ Forall2 (fun ip member =>
                    exists m, convertParameterToElement (snd ip) = Ret m
                              /\ decorated m member)
           (filter (fun ip => located ["query"; "path"] (snd ip)) l) members
      /\ Forall2 (fun ip a =>
                    makeAnnotation fuel ast DATA_LOST
                      (Some (PathString ("paths." ++ href ++ ".parameters["
                                         ++ nat_to_string (fst ip) ++ "]")))
                      (Str "Path-level body parameters are not yet supported") = Ret a)
           (filter (fun ip => located ["body"] (snd ip)) l) log.
Proof.
  induction l as [|ip l IH]; intros hv items hv' log C H; cbn [for_each] in H.
  - apply unit_Ret in H. destruct H as [-> ->]. exists []. rewrite app_nil_r.
    split; [exact C|]. split; constructor.
  - stepn H hv1 H1. unfold path_parameter in H1.
    stepn H1 where_ Pw.
    destruct (located_query_or_path _ _ Pw) as (Lq & Lb & Ex).
    cbn [filter]. rewrite Lq, Lb.
    destruct (is_str "query" where_ || is_str "path" where_)%bool eqn:Q.
    + rewrite (Ex eq_refl).
      stepn H1 m Pm. stepn H1 member Dm. apply unit_Ret in H1. destruct H1 as [-> ->].
      apply (IH _ (items ++ [member])) in H; [|now apply content_push].
      destruct H as (members & C' & F1 & F2). exists (member :: members).
      rewrite <- app_assoc in C'. split; [exact C'|]. split; [|exact F2].
      constructor; [|exact F1]. exists m. auto.
    + destruct (is_str "body" where_) eqn:B.
      * stepn H1 u A. apply unit_Ret in H1. destruct H1 as [-> ->].
        unfold setupAnnotation in A. apply emit_Ret in A. destruct A as (a & Ea & ->).
        apply (IH _ items) in H; [|exact C].
        destruct H as (members & C' & F1 & F2). exists members.
        split; [exact C'|]. split; [exact F1|].
        cbn [app]. constructor; [exact Ea|exact F2].
      * apply unit_Ret in H1. destruct H1 as [-> ->].
        apply (IH _ items) in H; [|exact C].
        destruct H as (members & C' & F1 & F2). exists members. auto.
Qed.

(** X18: parameters declared on a path item.  Whenever the loop over them
    completes, the [hrefVariables] element holds, in order, one member per
    parameter located in the query or in the path (what the parameter
    classifier makes of it, with at most a source map added), and the
    result gets, in order, one DATA_LOST annotation per parameter located
    in the body, made for the path [paths.<href>.parameters[<index>]] with
    the index the parameter has among all the parameters.  Parameters
    located anywhere else (header, formData) leave no trace. *)
Theorem path_level_parameters
    (gsm : bool) (ast : option node) (fuel : nat) (href : string)
    (parameters : list value) (hrefVariables : element) (log : list element) :
  for_each (path_parameter gsm ast fuel href) (indexed parameters)
    (new_array "hrefVariables") = Ret (hrefVariables, log) ->
  Forall2 (fun ip member =>
             exists m, convertParameterToElement (snd ip) = Ret m /\ decorated m member)
    (filter (fun ip => located ["query"; "path"] (snd ip)) (indexed parameters))
    (children hrefVariables)
  /\ Forall2 (fun ip a =>
                makeAnnotation fuel ast DATA_LOST
                  (Some (PathString ("paths." ++ href ++ ".parameters["
                                     ++ nat_to_string (fst ip) ++ "]")))
                  (Str "Path-level body parameters are not yet supported") = Ret a)
       (filter (fun ip => located ["body"] (snd ip)) (indexed parameters)) log
  /\ element_name hrefVariables = "hrefVariables".
Proof.
  intros H.
  pose proof (for_each_invariant (fun e => element_name e = "hrefVariables")
                (path_parameter gsm ast fuel href) (indexed parameters)
                (new_array "hrefVariables") hrefVariables log) as N.
  apply (path_parameters_loop _ _ _ _ _ _ []) in H as G; [|reflexivity].
  destruct G as (members & C & F1 & F2). unfold children. rewrite C. cbn [app].
  split; [exact F1|]. split; [exact F2|].
  apply N; [|reflexivity|exact H].
  intros ip s0 s1 l Ns B. unfold path_parameter in B. stepn B where_ Pw.
  destruct (is_str "query" where_ || is_str "path" where_)%bool.
  - stepn B m Pm. stepn B member Dm. apply unit_Ret in B. destruct B as [-> _].
    now rewrite name_push.
  - destruct (is_str "body" where_).
    + stepn B u A. apply unit_Ret in B. destruct B as [-> _]. exact Ns.
    + apply unit_Ret in B. destruct B as [-> _]. exact Ns.
Qed.

Lemma path_level_parameters_witness :
  exists hrefVariables a member,
    for_each (path_parameter false None 0 "/pets") (indexed three_parameters)
      (new_array "hrefVariables") = Ret (hrefVariables, [a])
    /\ children hrefVariables = [member]
    /\ member_key member = Some (Str "limit")
    /\ makeAnnotation 0 None DATA_LOST (Some (PathString "paths./pets.parameters[2]"))
         (Str "Path-level body parameters are not yet supported") = Ret a.
Proof.
  eexists. eexists. eexists. split; [reflexivity|].
  destruct (path_level_parameters false None 0 "/pets" three_parameters _ _ eq_refl)
    as (F1 & F2 & N).
  split; [reflexivity|]. split; [reflexivity|].
  inversion F2 as [|ip a l l' Ha F2']; subst. exact Ha.
Defined.

(** ** Transactions of an operation *)

Lemma for_each_pushes_named {A} (body : A -> M element) (R : A -> element -> Prop)
    (xs : list A) (s s' : element) items log :
  (forall x e l, body x = Ret (e, l) -> R x e) ->
  content_of s = CElements items ->
  for_each (fun x s0 => e <~ body x ;; unit_ (push e s0)) xs s = Ret (s', log) ->
  exists es, content_of s' = CElements (items ++ es) /\ Forall2 R xs es
             /\ element_name s' = element_name s.
Proof.
  intros B. revert s items log. induction xs as [|x xs IH]; simpl; intros s items log C H.
  - apply unit_Ret in H. destruct H as [-> _]. exists []. rewrite app_nil_r. auto.
  - inv_bind H. inv_bind H0. apply unit_Ret in H0. destruct H0 as [-> _].
    apply (IH _ (items ++ [a0])) in H; [|now apply content_push].
    destruct H as (es & C' & F & N). exists (a0 :: es). rewrite <- app_assoc in C'.
    split; [exact C'|]. split; [constructor; [eapply B; eauto|exact F]|].
    now rewrite N, name_push.
Qed.

Section Transactions.
Variables (gsm : bool) (ast : option node) (fuel : nat).
Variable buildUriTemplate : string -> string -> value -> list value -> string.
Variables (JSON_stringify JSON_stringify_indented : value -> value).

Lemma response_transactions_made operation method bodyParameters statusCode
    responseValue transition items transition' log :
  content_of transition = CElements items ->
  response_transactions gsm ast fuel JSON_stringify JSON_stringify_indented
    operation method bodyParameters statusCode responseValue transition
    = Ret (transition', log) ->
  exists examples made,
    example_entries responseValue = Ret examples
    /\ content_of transition' = CElements (items ++ made)
    /\ List.length made = List.length examples
    /\ Forall (fun t => element_name t = "httpTransaction") made
    /\ element_name transition' = element_name transition
    /\ log = [].
Proof.
  intros C H.
  assert (L : log = []).
  { apply (logs_response_transactions _ _ _ _ _ (fun _ => False)) in H.
    destruct log; [reflexivity|inversion H; contradiction]. }
  unfold response_transactions in H. stepn H declared Pd. stepn H examples Ke.
  unfold keyed_entries in Ke. destruct (array_like _); [discriminate|].
  inversion Ke; subst examples; clear Ke.
  apply (for_each_pushes_named
           (fun kv => example_transaction gsm ast fuel JSON_stringify
                        JSON_stringify_indented operation method statusCode
                        responseValue bodyParameters (fst kv) (snd kv))
           (fun _ t => element_name t = "httpTransaction") _ _ _ items) in H;
    [|intros kv e l E; now apply example_transaction_shape in E|exact C].
  destruct H as (made & C' & F & N).
  eexists. exists made. split; [unfold example_entries; rewrite Pd; reflexivity|].
  split; [exact C'|]. split; [symmetry; eapply Forall2_length; exact F|].
  split; [|split; [exact N|exact L]].
  clear - F. induction F; constructor; auto.
Qed.

Lemma responses_loop operation method bodyParameters :
  forall (entries : list (string * value)) transition items transition' log,
    content_of transition = CElements items ->
    for_each
      (fun kv transition =>
         response_transactions gsm ast fuel JSON_stringify JSON_stringify_indented
           operation method bodyParameters (fst kv) (snd kv) transition)
      entries transition = Ret (transition', log) ->
    exists per_response made,
      Forall2 (fun kv n => exists examples,
                   example_entries (snd kv) = Ret examples /\ n = List.length examples)
        entries per_response
      /\ content_of transition' = CElements (items ++ made)
      /\ List.length made = list_sum per_response
      /\ Forall (fun t => element_name t = "httpTransaction") made
      /\ element_name transition' = element_name transition
      /\ log = [].
Proof.
  induction entries as [|kv entries IH]; intros transition items transition' log C H;
    cbn [for_each] in H.
  - apply unit_Ret in H. destruct H as [-> ->]. exists [], []. rewrite app_nil_r.
    repeat split; auto.
  - stepn H t1 H1.
    apply (response_transactions_made _ _ _ _ _ _ items) in H1; [|exact C].
    destruct H1 as (examples & made1 & Ee & C1 & L1 & F1 & N1 & ->).
    apply (IH _ (items ++ made1)) in H; [|exact C1].
    destruct H as (per & made2 & Fp & C2 & L2 & F2 & N2 & ->).
    exists (List.length examples :: per), (made1 ++ made2).
    split; [constructor; [exists examples; auto|exact Fp]|].
    split; [now rewrite app_assoc|].
    split; [rewrite length_app, L1, L2; reflexivity|].
    split; [now apply Forall_app|]. split; [congruence|reflexivity].
Qed.

(** The transition after the transactions of an operation. *)
Lemma transactions_made
    (operation method : string) (bodyParameters : list value) (responses : value)
    (transition transition' : element) (items log : list element) :
  content_of transition = CElements items ->
  operation_transactions gsm ast fuel JSON_stringify JSON_stringify_indented
    operation method bodyParameters responses transition = Ret (transition', log) ->
  exists made,
    content_of transition' = CElements (items ++ made)
    /\ element_name transition' = element_name transition
    /\ Forall (fun t => element_name t = "httpTransaction") made
    /\ match omit_by isExtension (Obj (omit_keys ["default"] responses)) with
       | [] => List.length made = 1
       | relevant =>
           exists per_response,
             Forall2 (fun kv n => exists examples,
                          example_entries (snd kv) = Ret examples
                          /\ n = List.length examples)
               relevant per_response
             /\ List.length made = list_sum per_response
       end.
Proof.
  intros C H.
  unfold operation_transactions in H. stepn H default Pd. stepn H u A.
  destruct (omit_by isExtension (Obj (omit_keys ["default"] responses)))
    as [|first relevant] eqn:R.
  - destruct bodyParameters as [|b bodyParameters].
    + stepn H entries Ke. inversion Ke; subst entries; clear Ke.
      cbn [for_each] in H. apply unit_Ret in H. destruct H as [-> _].
      exists [createTransaction method].
      split; [now apply content_push|]. split; [apply name_push|].
      split; [constructor; [reflexivity|constructor]|]. reflexivity.
    + stepn H entries Ke. inversion Ke; subst entries; clear Ke.
      apply (responses_loop _ _ _ _ _ items) in H; [|exact C].
      destruct H as (per & made & Fp & C' & L & F & N & _).
      exists made. split; [exact C'|]. split; [exact N|]. split; [exact F|].
      rewrite L. inversion Fp as [|kv n lx ly (examples & Ee & ->) Fp']; subst.
      inversion Fp'; subst. cbn in Ee. inversion Ee; subst. reflexivity.
  - destruct bodyParameters as [|b bodyParameters];
      (stepn H entries Ke; unfold keyed_entries in Ke;
       destruct (array_like _); [discriminate|];
       inversion Ke; subst entries; clear Ke;
       apply (responses_loop _ _ _ _ _ items) in H; [|exact C];
       destruct H as (per & made & Fp & C' & L & F & N & _);
       exists made; split; [exact C'|]; split; [exact N|]; split; [exact F|];
       exists per; auto).
Qed.

(** X19: how many transactions an operation gets.  Whenever the builder
    completes the transactions of an operation, the transition has gained
    transactions and nothing else, and they are counted as follows over the
    responses that are neither [default] nor an extension key: with no such
    response there is exactly one transaction, whether or not the operation
    has body parameters; otherwise each response contributes one
    transaction per example other than [schema], or one when it declares no
    examples (so a response whose only example key is [schema] contributes
    none).  The only annotation the step can push is the one for a default
    response. *)
Theorem transactions_of_an_operation
    (operation method : string) (bodyParameters : list value) (responses : value)
    (transition transition' : element) (items log : list element) :
  content_of transition = CElements items ->
  operation_transactions gsm ast fuel JSON_stringify JSON_stringify_indented
    operation method bodyParameters responses transition = Ret (transition', log) ->
  exists made,
    content_of transition' = CElements (items ++ made)
    /\ element_name transition' = element_name transition
    /\ Forall (fun t => element_name t = "httpTransaction") made
    /\ match omit_by isExtension (Obj (omit_keys ["default"] responses)) with
       | [] => List.length made = 1
       | relevant =>
           exists per_response,
             Forall2 (fun kv n => exists examples,
                          example_entries (snd kv) = Ret examples
                          /\ n = List.length examples)
               relevant per_response
             /\ List.length made = list_sum per_response
       end
    /\ (List.length log <= 1)%nat
    /\ Forall (fun a => is_annotation DATA_LOST a = true) log.
Proof.
  intros C H.
  destruct (transactions_made _ _ _ _ _ _ _ _ C H) as (made & C' & N & F & Count).
  exists made. repeat (split; [assumption|]).
  assert (Fl : Forall (fun a => is_annotation DATA_LOST a = true) log).
  { apply (logs_operation_transactions gsm ast fuel JSON_stringify JSON_stringify_indented
             (fun x => is_annotation DATA_LOST x = true)
             (fun p m x Hx => proj1 (makeAnnotation_kind _ _ _ _ _ _ Hx
                                       (or_intror (or_intror (or_introl eq_refl))))))
      in H. exact H. }
  split; [|exact Fl]. clear Fl Count F N C' made.
  unfold operation_transactions in H. stepn H default Pd. stepn H u A.
  match type of A with _ = Ret (_, ?x) => rename x into la end.
  assert (La : (List.length la <= 1)%nat).
  { destruct (truthy default).
    - unfold setupAnnotation in A. apply emit_Ret in A. destruct A as (a & _ & ->).
      cbn. lia.
    - apply unit_Ret in A. destruct A as [_ ->]. cbn. lia. }
  assert (Lr : forall entries t lr,
             for_each
               (fun kv transition =>
                  response_transactions gsm ast fuel JSON_stringify
                    JSON_stringify_indented operation method bodyParameters
                    (fst kv) (snd kv) transition)
               entries t = Ret (transition', lr) -> lr = []).
  { intros entries t lr Hl. eapply for_each_Ret_log; [|exact Hl].
    intros kv s0 s1 lb B.
    apply (logs_response_transactions _ _ _ _ _ (fun _ => False)) in B.
    destruct lb; [reflexivity|inversion B; contradiction]. }
  destruct (omit_by isExtension (Obj (omit_keys ["default"] responses)))
    as [|first relevant];
    destruct bodyParameters as [|b bodyParameters];
    stepn H entries Ke; try (apply Lr in H; subst);
    try (cbn [for_each] in H; apply unit_Ret in H; destruct H as [_ ->]);
    rewrite ?app_nil_r; cbn [app]; exact La.
Qed.
End Transactions.

Lemma transactions_of_an_operation_witness :
  exists transition' a made,
    operation_transactions false None 0 serialized serialized
      "paths./pets.get" "get" [] four_responses (new_array "transition")
    = Ret (transition', [a])
    /\ content_of transition' = CElements made
    /\ List.length made = 3.
Proof.
  eexists. eexists. eexists. split; [reflexivity|].
  destruct (transactions_of_an_operation false None 0 serialized serialized
              "paths./pets.get" "get" [] four_responses (new_array "transition") _ [] _
              eq_refl eq_refl) as (made & C & N & F & Count & L & D).
  cbn in C. split; [reflexivity|reflexivity].
Defined.

(** ** Transitions of a resource *)

Section Transitions.
Variables (gsm : bool) (ast : option node) (fuel : nat).
Variable buildUriTemplate : string -> string -> value -> list value -> string.
Variables (JSON_stringify JSON_stringify_indented : value -> value).

Lemma operation_transition_adds basePath href pathObjectParameters method methodValue
    resource items resource' log :
  content_of resource = CElements items ->
  operation_transition gsm ast fuel buildUriTemplate JSON_stringify
    JSON_stringify_indented basePath href pathObjectParameters method methodValue
    resource = Ret (resource', log) ->
  exists t q,
    content_of resource' = CElements (items ++ [t])
    /\ element_name t = "transition"
    /\ element_name resource' = element_name resource
    /\ queryParameters_of methodValue = Ret q
    /\ get_entry "href" (attributes resource')
       = Some (refract (Str (buildUriTemplate basePath href pathObjectParameters q))).
Proof.
  intros C H. apply transition_before_transactions in H.
  destruct H as (parameters & queryParameters & bodyParameters & responses & t0 & t1
                 & l & Pp & Pq & _ & _ & (items0 & C0 & _ & N0) & T & ->).
  apply (transactions_made _ _ _ _ _ _ _ _ _ _ _ items0) in T; [|exact C0].
  destruct T as (made & _ & N1 & _).
  exists t1, (map snd queryParameters).
  split; [apply content_push; now rewrite content_set_attribute|].
  split; [congruence|]. split; [now rewrite name_push, name_set_attribute|].
  split; [unfold queryParameters_of; rewrite Pp; cbn [bind]; now rewrite Pq|].
  rewrite attributes_push. apply attribute_set_attribute.
Qed.

Lemma operations_loop basePath href pathObjectParameters :
  forall (entries : list (string * value)) resource items resource' log,
    content_of resource = CElements items ->
    for_each
      (fun kv resource =>
         operation_transition gsm ast fuel buildUriTemplate JSON_stringify
           JSON_stringify_indented basePath href pathObjectParameters
           (fst kv) (snd kv) resource)
      entries resource = Ret (resource', log) ->
    exists transitions,
      content_of resource' = CElements (items ++ transitions)
      /\ map element_name transitions = map (fun _ => "transition") entries
      /\ element_name resource' = element_name resource
      /\ match rev entries with
         | [] => attributes resource' = attributes resource
         | kv :: _ =>
             exists q,
               queryParameters_of (snd kv) = Ret q
               /\ get_entry "href" (attributes resource')
                  = Some (refract (Str (buildUriTemplate basePath href
                                          pathObjectParameters q)))
         end.
Proof.
  induction entries as [|kv entries IH]; intros resource items resource' log C H;
    cbn [for_each] in H.
  - apply unit_Ret in H. destruct H as [-> _]. exists []. rewrite app_nil_r.
    repeat split; auto.
  - stepn H r1 H1. apply (operation_transition_adds _ _ _ _ _ _ items) in H1; [|exact C].
    destruct H1 as (t & q & C1 & Nt & N1 & Q1 & A1).
    apply (IH _ (items ++ [t])) in H; [|exact C1].
    destruct H as (ts & C2 & M & N2 & A2). exists (t :: ts).
    rewrite <- app_assoc in C2. split; [exact C2|].
    split; [cbn [map]; now rewrite Nt, M|]. split; [congruence|].
    cbn [rev]. destruct (rev entries) as [|last others]; cbn [app].
    + exists q. split; [exact Q1|]. now rewrite A2.
    + exact A2.
Qed.

(** The steps of one path item: where the resource goes and what it
    holds. *)
Lemma path_resource_steps
    (swagger : value) (basePath : string) (useGroups : bool) (href : string)
    (pathValue : value) (api api' : element) (group group' : list nat)
    (log : list element) :
  path_resource gsm ast fuel buildUriTemplate JSON_stringify JSON_stringify_indented
    swagger basePath useGroups href pathValue (api, group) = Ret ((api', group'), log) ->
  exists api0 resource description groupName placing,
    (if useGroups then prop pathValue "x-group-name" else Ret Undefined) = Ret groupName
    /\ (if truthy groupName then
          match find (is_group groupName) api with
          | found :: _ => unit_ (api, found)
          | [] =>
              created <~ new_group swagger groupName ;;
              unit_ (push created api, [List.length (children api)])
          end
        else unit_ (api, group)) = Ret ((api0, group'), placing)
    /\ api' = push_to group' resource api0
    /\ element_name resource = "resource"
    /\ prop pathValue "x-description" = Ret description
    /\ map element_name (children resource)
       = (if truthy description then ["copy"] else [])
           ++ map (fun _ => "transition")
                (omit_by isExtension (Obj (omit_keys ["parameters"; "$ref"] pathValue)))
    /\ match rev (omit_by isExtension
                    (Obj (omit_keys ["parameters"; "$ref"] pathValue))) with
       | [] => get_entry "href" (attributes resource) = None
       | kv :: _ =>
           exists parameters q,
             prop pathValue "parameters" = Ret parameters
             /\ queryParameters_of (snd kv) = Ret q
             /\ get_entry "href" (attributes resource)
                = Some (refract (Str (buildUriTemplate basePath href
                                        (or_else parameters (Arr [])) q)))
       end.
Proof.
  unfold path_resource. intros H.
  stepn H r0 D0. stepn H summary Ps. stepn H description Pd. stepn H groupName Pg.
  stepn H placed Hp. destruct placed as [api0 g0].
  stepn H parameters Pp. stepn H count Pc. stepn H some Pm. stepn H r1 Hr.
  stepn H entries Ke. stepn H r2 Hl. apply unit_Ret in H. destruct H as [H _].
  inversion H; subst api' group'; clear H.
  unfold keyed_entries in Ke. destruct (array_like _); [discriminate|].
  inversion Ke; subst entries; clear Ke.
  set (before := if truthy description then [new_value "copy" description] else []).
  assert (A1 : get_entry "href" (attributes r1) = None).
  { assert (B : get_entry "href"
                  (attributes
                     (if truthy description
                      then push (new_value "copy" description)
                             (if truthy summary
                              then set_meta "title" (refract summary) r0 else r0)
                      else if truthy summary
                           then set_meta "title" (refract summary) r0 else r0)) = None).
    { pose proof (decorated_attribute _ _ "href" D0) as Da. cbn in Da.
      destruct (truthy description), (truthy summary); rewrite ?attributes_push;
        destruct r0; cbn in *; apply Da; discriminate. }
    destruct some.
    - destruct (or_else parameters (Arr [])); try discriminate.
      stepn Hr hv Hv. apply unit_Ret in Hr. destruct Hr as [-> _].
      rewrite attribute_set_attribute_other by discriminate. exact B.
    - apply unit_Ret in Hr. destruct Hr as [-> _]. exact B. }
  assert (C1 : content_of r1 = CElements before /\ element_name r1 = "resource").
  { assert (B : content_of
                  (if truthy description
                   then push (new_value "copy" description)
                          (if truthy summary
                           then set_meta "title" (refract summary) r0 else r0)
                   else if truthy summary
                        then set_meta "title" (refract summary) r0 else r0)
                = CElements before
                /\ element_name
                     (if truthy description
                      then push (new_value "copy" description)
                             (if truthy summary
                              then set_meta "title" (refract summary) r0 else r0)
                      else if truthy summary
                           then set_meta "title" (refract summary) r0 else r0)
                   = "resource").
    { assert (B0 : content_of (if truthy summary
                               then set_meta "title" (refract summary) r0 else r0)
                   = CElements []
                   /\ element_name (if truthy summary
                                    then set_meta "title" (refract summary) r0 else r0)
                      = "resource").
      { pose proof (decorated_content _ _ D0) as Dc.
        pose proof (decorated_name _ _ D0) as Dn.
        destruct (truthy summary); destruct r0; cbn in *; split; assumption. }
      destruct B0 as [B1 B2]. unfold before. destruct (truthy description).
      - split; [exact (content_push _ _ [] B1)|now rewrite name_push].
      - split; assumption. }
    destruct some.
    - destruct (or_else parameters (Arr [])); try discriminate.
      stepn Hr hv Hv. apply unit_Ret in Hr. destruct Hr as [-> _].
      now rewrite content_set_attribute, name_set_attribute.
    - apply unit_Ret in Hr. destruct Hr as [-> _]. exact B. }
  destruct C1 as [C1 N1].
  apply (operations_loop _ _ _ _ _ before) in Hl; [|exact C1].
  destruct Hl as (transitions & C2 & M & N2 & A2).
  exists api0, r2, description, groupName. eexists.
  split; [exact Pg|]. split; [exact Hp|]. split; [reflexivity|].
  split; [congruence|]. split; [exact Pd|]. split.
  - unfold children. rewrite C2, map_app, M. f_equal.
    unfold before. destruct (truthy description); reflexivity.
  - destruct (rev (omit_by isExtension (Obj (omit_keys ["parameters"; "$ref"] pathValue))))
      as [|kv others].
    + now rewrite A2.
    + destruct A2 as (q & Q & A2). exists parameters, q. auto.
Qed.

(** X20: what a path item becomes.  Whenever the builder completes a path
    item, it has appended one resource to the element the variable [group]
    points to (without grouping: the one it pointed to before, the root
    category at the start), and the resource holds, in this order, a copy
    of [x-description] when that is truthy, then exactly one transition per
    key of the path item other than [parameters], [$ref] and the extension
    keys, in the order of the keys. *)
Theorem one_transition_per_method
    (swagger : value) (basePath : string) (useGroups : bool) (href : string)
    (pathValue : value) (api api' : element) (group group' : list nat)
    (log : list element) :
  path_resource gsm ast fuel buildUriTemplate JSON_stringify JSON_stringify_indented
    swagger basePath useGroups href pathValue (api, group) = Ret ((api', group'), log) ->
  exists api0 resource description,
    api' = push_to group' resource api0
    /\ (useGroups = false -> api0 = api /\ group' = group)
    /\ element_name resource = "resource"
    /\ prop pathValue "x-description" = Ret description
    /\ map element_name (children resource)
       = (if truthy description then ["copy"] else [])
           ++ map (fun _ => "transition")
                (omit_by isExtension (Obj (omit_keys ["parameters"; "$ref"] pathValue))).
Proof.
  intros H. apply path_resource_steps in H.
  destruct H as (api0 & resource & description & groupName & placing
                 & Pg & Hp & E & N & Pd & M & _).
  exists api0, resource, description. split; [exact E|]. split; [|auto].
  intros ->. inversion Pg; subst groupName. cbn [truthy] in Hp.
  apply unit_Ret in Hp. destruct Hp as [Hp _]. now inversion Hp.
Qed.
End Transitions.

Lemma one_transition_per_method_witness :
  exists api' log resource,
    path_resource false None 0 joined serialized serialized (Obj []) "" false "/pets"
      two_methods_item (empty_root, []) = Ret ((api', []), log)
    /\ children api' = [resource]
    /\ map element_name (children resource) = ["copy"; "transition"; "transition"].
Proof.
  eexists. eexists. eexists. split; [reflexivity|].
  destruct (one_transition_per_method false None 0 joined serialized serialized
              (Obj []) "" false "/pets" two_methods_item empty_root _ [] [] _ eq_refl)
    as (api0 & resource & description & E & G & N & Pd & M).
  split; reflexivity.
Defined.

(** ** Resource groups *)

Lemma below_spec (condition : element -> bool) (items : list element) :
  forall k i place,
    In (i :: place)
       ((fix below (i : nat) (items : list element) : list (list nat) :=
           match items with
           | [] => []
           | x :: rest =>
               map (cons i) (find condition x)
                 ++ (if condition x then [[i]] else [])
                 ++ below (S i) rest
           end) k items) ->
    exists x, (k <= i)%nat /\ nth_error items (i - k) = Some x
              /\ (In place (find condition x) \/ (place = [] /\ condition x = true)).
Proof.
  induction items as [|x items IH]; intros k i place H; [contradiction|].
  apply in_app_or in H. destruct H as [H|H].
  - apply in_map_iff in H. destruct H as (p & E & I). inversion E; subst.
    exists x. rewrite Nat.sub_diag. auto.
  - apply in_app_or in H. destruct H as [H|H].
    + destruct (condition x) eqn:Cx; [|contradiction].
      destruct H as [H|[]]. inversion H; subst. exists x. rewrite Nat.sub_diag. auto.
    + apply IH in H. destruct H as (y & L & N & P). exists y.
      split; [lia|]. split; [|exact P].
      replace (i - k) with (S (i - S k)) by lia. exact N.
Qed.

(** What [find] returns are places of descendants that satisfy the
    condition. *)
Lemma find_sound (condition : element -> bool) :
  forall place e,
    In place (find condition e) ->
    exists g, descendant place e = Some g /\ condition g = true.
Proof.
  induction place as [|i place IH]; intros [n m a c] H.
  - destruct c as [| |items|]; cbn [find] in H; try contradiction.
    exfalso. revert H. generalize 0. induction items as [|x items IHi]; intros k H;
      [contradiction|].
    apply in_app_or in H. destruct H as [H|H].
    + apply in_map_iff in H. destruct H as (p & E & _). discriminate.
    + apply in_app_or in H. destruct H as [H|H]; [|now apply IHi in H].
      destruct (condition x); [|contradiction]. destruct H as [H|[]]. discriminate.
  - destruct c as [| |items|]; cbn [find] in H; try contradiction.
    apply below_spec in H. destruct H as (x & _ & N & P).
    rewrite Nat.sub_0_r in N. cbn [descendant children content_of]. rewrite N.
    destruct P as [P|[-> P]]; [now apply IH|]. exists x. auto.
Qed.

Lemma nth_error_update_nth i f :
  forall l, nth_error (update_nth i f l) i = option_map f (nth_error l i).
Proof.
  induction i as [|i IH]; intros [|x l]; cbn; auto.
Qed.

Lemma descendant_update_at f :
  forall place e g,
    descendant place e = Some g ->
    descendant place (update_at place f e) = Some (f g).
Proof.
  induction place as [|i place IH]; intros e g H.
  - cbn in *. now inversion H.
  - cbn [descendant] in H. destruct (nth_error (children e) i) as [child|] eqn:N;
      [|discriminate].
    destruct e as [n m a [| |items|]]; cbn [children content_of] in N;
      try (destruct i; discriminate).
    cbn [update_at descendant children content_of].
    rewrite nth_error_update_nth, N. cbn [option_map]. now apply IH.
Qed.

Lemma is_group_push groupName x e : is_group groupName (push x e) = is_group groupName e.
Proof.
  unfold is_group, has_class, title. now rewrite name_push, meta_push.
Qed.

Lemma new_group_is_group swagger name g log :
  new_group swagger (Str name) = Ret (g, log) ->
  is_group (Str name) g = true /\ log = [].
Proof.
  unfold new_group. intros H. stepn H tags Pt.
  assert (G0 : is_group (Str name)
                 (push_class "resourceGroup"
                    (set_meta "title" (refract (Str name)) (new_array "category"))) = true).
  { unfold is_group. cbn. apply String.eqb_refl. }
  destruct tags as [| | | | | |items|fields];
    try (apply unit_Ret in H; destruct H as [-> ->]; split; [exact G0|reflexivity]).
  - split.
    + eapply (for_each_invariant (fun e => is_group (Str name) e = true)); [|exact G0|exact H].
      intros tag s0 s1 l I B. stepn B tname Pn. stepn B description Pd.
      destruct (strict_eq tname (Str name) && truthy description)%bool;
        apply unit_Ret in B; destruct B as [-> _]; [now rewrite is_group_push|exact I].
    + eapply for_each_Ret_log; [|exact H].
      intros tag s0 s1 l B. stepn B tname Pn. stepn B description Pd.
      destruct (strict_eq tname (Str name) && truthy description)%bool;
        apply unit_Ret in B; destruct B as [_ ->]; reflexivity.
  - destruct (truthy (lookup "forEach" fields)); [discriminate|].
    apply unit_Ret in H. destruct H as [-> ->]. split; [exact G0|reflexivity].
Qed.

(** X21: where a grouped resource goes.  With grouping on, whenever the
    builder completes a path item whose [x-group-name] is a non-empty string,
    the resource is appended to a resource group of that name (a category
    with the class [resourceGroup] and that title), which the variable
    [group] points to afterwards: the first such category that [find] meets
    in the tree if there is one, and else a new one, appended to the root
    category. *)
Theorem grouped_resource_lands_in_its_group
    (gsm : bool) (ast : option node) (fuel : nat)
    (buildUriTemplate : string -> string -> value -> list value -> string)
    (JSON_stringify JSON_stringify_indented : value -> value)
    (swagger : value) (basePath href name : string) (pathValue : value)
    (api api' : element) (items : list element) (group group' : list nat)
    (log : list element) :
  content_of api = CElements items ->
  prop pathValue "x-group-name" = Ret (Str name) ->
  nonempty name = true ->
  path_resource gsm ast fuel buildUriTemplate JSON_stringify JSON_stringify_indented
    swagger basePath true href pathValue (api, group) = Ret ((api', group'), log) ->
  exists g resource,
    descendant group' api' = Some (push resource g)
    /\ is_group (Str name) g = true
    /\ element_name resource = "resource"
    /\ match find (is_group (Str name)) api with
       | found :: _ => group' = found /\ descendant found api = Some g
       | [] => group' = [List.length items]
               /\ children api' = items ++ [push resource g]
       end.
Proof.
  intros C Pg N H. apply path_resource_steps in H.
  destruct H as (api0 & resource & description & groupName & placing
                 & Pg' & Hp & -> & Nr & _ & _ & _).
  rewrite Pg in Pg'. inversion Pg'; subst groupName; clear Pg'.
  cbn [truthy] in Hp. rewrite N in Hp.
  destruct (find (is_group (Str name)) api) as [|found others] eqn:F.
  - stepn Hp created Hc. apply unit_Ret in Hp. destruct Hp as [Hp _].
    inversion Hp; subst api0 group'; clear Hp.
    apply new_group_is_group in Hc. destruct Hc as [G _].
    exists created, resource.
    assert (D : descendant [List.length (children api)] (push created api) = Some created).
    { cbn [descendant]. rewrite (children_push _ _ _ C). unfold children. rewrite C.
      rewrite nth_error_app2, Nat.sub_diag by lia. reflexivity. }
    split; [unfold push_to; now apply descendant_update_at|]. split; [exact G|].
    split; [exact Nr|]. unfold children at 1. rewrite C. split; [reflexivity|].
    destruct api as [n m a c]. cbn [content_of] in C. subst c.
    cbn [push push_to update_at children content_of List.length].
    clear. induction items as [|x items IH]; cbn; [reflexivity|now rewrite IH].
  - apply unit_Ret in Hp. destruct Hp as [Hp _].
    inversion Hp; subst api0 group'; clear Hp.
    destruct (find_sound (is_group (Str name)) found api) as (g & D & G);
      [rewrite F; now left|].
    exists g, resource. split; [unfold push_to; now apply descendant_update_at|].
    auto.
Qed.

Lemma grouped_resource_lands_in_its_group_witness :
  exists api' log g resource,
    path_resource false None 0 joined serialized serialized described_tags "" true
      "/pets" grouped_item (empty_root, []) = Ret ((api', [0]), log)
    /\ children api' = [push resource g]
    /\ title g = Str "pets"
    /\ map element_name (children g) = ["copy"]
    /\ element_name resource = "resource".
Proof.
  eexists. eexists.
  destruct (grouped_resource_lands_in_its_group false None 0 joined serialized serialized
              described_tags "" "/pets" "pets" grouped_item empty_root _ [] [] [0] _
              eq_refl eq_refl eq_refl eq_refl) as (g & resource & D & G & N & P).
  cbn in D. inversion D as [E].
  eexists. eexists. split; [reflexivity|].
  split; [reflexivity|]. repeat split.
Defined.

(** ** The address of a resource *)

(** X22: the [href] of a resource.  Every operation of a path item sets
    the resource's [href] anew, so whenever the builder completes a path
    item the resource carries the URI template built, from the base path,
    the path template and the path-level parameters, with the query
    parameters of the last operation only; and a path item without
    operations leaves the resource without any [href]. *)
Theorem href_comes_from_last_operation
    (gsm : bool) (ast : option node) (fuel : nat)
    (buildUriTemplate : string -> string -> value -> list value -> string)
    (JSON_stringify JSON_stringify_indented : value -> value)
    (swagger : value) (basePath : string) (useGroups : bool) (href : string)
    (pathValue : value) (api api' : element) (group group' : list nat)
    (log : list element) :
  path_resource gsm ast fuel buildUriTemplate JSON_stringify JSON_stringify_indented
    swagger basePath useGroups href pathValue (api, group) = Ret ((api', group'), log) ->
  exists api0 resource,
    api' = push_to group' resource api0
    /\ match rev (omit_by isExtension
                    (Obj (omit_keys ["parameters"; "$ref"] pathValue))) with
       | [] => get_entry "href" (attributes resource) = None
       | kv :: _ =>
           exists parameters q,
             prop pathValue "parameters" = Ret parameters
             /\ queryParameters_of (snd kv) = Ret q
             /\ get_entry "href" (attributes resource)
                = Some (refract (Str (buildUriTemplate basePath href
                                        (or_else parameters (Arr [])) q)))
       end.
Proof.
  intros H. apply path_resource_steps in H.
  destruct H as (api0 & resource & description & groupName & placing
                 & _ & _ & E & _ & _ & _ & A).
  exists api0, resource. split; [exact E|exact A].
Qed.

Lemma href_comes_from_last_operation_witness :
  exists api' log resource,
    path_resource false None 0 counted serialized serialized (Obj []) "/v1" false "/pets"
      query_then_none (empty_root, []) = Ret ((api', []), log)
    /\ children api' = [resource]
    /\ get_entry "href" (attributes resource) = Some (refract (Str "/v1/pets?0")).
Proof.
  eexists. eexists. eexists. split; [reflexivity|].
  destruct (href_comes_from_last_operation false None 0 counted serialized serialized
              (Obj []) "/v1" false "/pets" query_then_none empty_root _ [] [] _ eq_refl)
    as (api0 & resource & E & A).
  split; reflexivity.
Defined.

(** ** The root category of an ungrouped document *)

Section Root.
Variables (gsm : bool) (ast : option node) (fuel : nat).
Variable buildUriTemplate : string -> string -> value -> list value -> string.
Variables (JSON_stringify JSON_stringify_indented : value -> value).

Lemma add_info_content swagger api items api' log :
  content_of api = CElements items ->
  add_info gsm ast fuel swagger api = Ret (api', log) ->
  exists has_copy copies,
    described swagger = Ret has_copy
    /\ content_of api' = CElements (items ++ copies)
    /\ map element_name copies = (if has_copy then ["copy"] else []).
Proof.
  intros C H. unfold add_info in H. unfold described. stepn H info Pi. rewrite Pi.
  cbn [bind]. destruct (truthy info).
  - stepn H title_ Pt. stepn H api1 H1. stepn H description Pd. rewrite Pd. cbn [bind].
    assert (C1 : content_of api1 = CElements items).
    { destruct (truthy title_).
      - stepn H1 t Dt. apply unit_Ret in H1. destruct H1 as [-> _].
        destruct api; exact C.
      - apply unit_Ret in H1. destruct H1 as [-> _]. exact C. }
    destruct (truthy description).
    + stepn H copy Dc. apply unit_Ret in H. destruct H as [-> _].
      exists true, [copy]. split; [reflexivity|]. split; [now apply content_push|].
      cbn [map]. now rewrite (decorated_name _ _ Dc).
    + apply unit_Ret in H. destruct H as [-> _]. exists false, [].
      rewrite app_nil_r. auto.
  - apply unit_Ret in H. destruct H as [-> _]. exists false, [].
    rewrite app_nil_r. auto.
Qed.

Lemma add_host_content swagger api api' log :
  add_host gsm ast fuel swagger api = Ret (api', log) ->
  content_of api' = content_of api.
Proof.
  intros H. unfold add_host in H. stepn H host Ph. destruct (truthy host).
  - stepn H schemes Ps. stepn H hostname Hh. stepn H member Dm.
    apply unit_Ret in H. destruct H as [-> _]. apply content_set_attribute.
  - apply unit_Ret in H. now destruct H as [-> _].
Qed.

Lemma document_level_content swagger basePath api log :
  document_level gsm ast fuel swagger = Ret ((basePath, api), log) ->
  exists has_copy copies,
    described swagger = Ret has_copy
    /\ content_of api = CElements copies
    /\ map element_name copies = (if has_copy then ["copy"] else []).
Proof.
  intros H. unfold document_level in H. stepn H bp Pb. stepn H api1 H1.
  stepn H api2 H2. stepn H u H3. apply unit_Ret in H. destruct H as [H _].
  inversion H; subst bp api2; clear H.
  apply (add_info_content _ _ []) in H1; [|reflexivity].
  destruct H1 as (has_copy & copies & D & C & M). cbn [app] in C.
  apply add_host_content in H2.
  exists has_copy, copies. split; [exact D|]. split; [congruence|exact M].
Qed.

Lemma ungrouped_resources_loop swagger basePath :
  forall (entries : list (string * value)) api items api' group' log,
    content_of api = CElements items ->
    for_each
      (fun kv state =>
         path_resource gsm ast fuel buildUriTemplate JSON_stringify
           JSON_stringify_indented swagger basePath false (fst kv) (snd kv) state)
      entries (api, []) = Ret ((api', group'), log) ->
    exists made,
      content_of api' = CElements (items ++ made)
      /\ map element_name made = map (fun _ => "resource") entries.
Proof.
  induction entries as [|kv entries IH]; intros api items api' group' log C H;
    cbn [for_each] in H.
  - apply unit_Ret in H. destruct H as [H _]. inversion H; subst. exists [].
    rewrite app_nil_r. auto.
  - stepn H state H1. destruct state as [api1 g1].
    apply path_resource_steps in H1.
    destruct H1 as (api0 & resource & description & groupName & placing
                    & Pg & Hp & -> & N & _).
    inversion Pg; subst groupName. cbn [truthy] in Hp.
    apply unit_Ret in Hp. destruct Hp as [Hp _]. inversion Hp; subst api0 g1.
    apply (IH _ (items ++ [resource])) in H;
      [|unfold push_to; cbn [update_at]; now apply content_push].
    destruct H as (made & C' & M). exists (resource :: made).
    rewrite <- app_assoc in C'. split; [exact C'|]. cbn [map]. now rewrite N, M.
Qed.

(** X23: the root category of a document that is not grouped.  When
    [useResourceGroups] answers false for the document, every completed
    build leaves the document as it was and returns a root category that
    holds, in this order, a copy of [info.description] when that is truthy,
    then exactly one resource per key of [paths] that is no extension key,
    in the order of the keys; nothing else is put under the root. *)
Theorem ungrouped_document_lists_its_paths
    (swagger swagger' : value) (root : element) (log : list element) :
  snd (useResourceGroups swagger) = Ret false ->
  build_api gsm ast fuel buildUriTemplate JSON_stringify JSON_stringify_indented swagger
  = (swagger', Ret (root, log)) ->
  exists paths has_copy,
    swagger' = swagger
    /\ prop swagger "paths" = Ret paths
    /\ described swagger = Ret has_copy
    /\ map element_name (children root)
       = (if has_copy then ["copy"] else [])
           ++ map (fun _ => "resource") (omit_by isExtension paths).
Proof.
  intros U H.
  assert (Us : fst (useResourceGroups swagger) = swagger).
  { unfold useResourceGroups in *. destruct swagger as [| | | | | | |fields]; try reflexivity.
    destruct (truthy (lookup "paths" fields)) eqn:T; [|reflexivity].
    destruct (label_paths (lookup "paths" fields) (each_entries (lookup "paths" fields)) [])
      as [paths' tags] eqn:L.
    cbn [fst snd] in *. destruct tags as [tags| | |]; cbn [bind] in U; try discriminate.
    apply label_paths_tags in L. destruct L as (added & -> & Ua).
    destruct added as [|tag added]; [|discriminate].
    rewrite (Ua eq_refl). f_equal. apply assign_lookup.
    apply has_key_defined. destruct (lookup "paths" fields); try discriminate; reflexivity. }
  unfold build_api in H.
  destruct (document_level gsm ast fuel swagger) as [[[basePath api] dlog]| | |] eqn:D;
    try (inversion H; fail).
  apply document_level_content in D. destruct D as (has_copy & copies & Dd & C & M).
  destruct (useResourceGroups swagger) as [swagger0 useGroups].
  cbn [fst snd] in *. subst swagger0 useGroups.
  inversion H as [[E H']]; subst swagger'. clear H.
  destruct (resources gsm ast fuel buildUriTemplate JSON_stringify
              JSON_stringify_indented swagger basePath false api)
    as [[r lr]| | |] eqn:Hr; try discriminate.
  inversion H'; subst r log; clear H'.
  unfold resources in Hr. stepn Hr paths Pp. stepn Hr entries Ke.
  stepn Hr state Hl. apply unit_Ret in Hr. destruct Hr as [-> _].
  unfold keyed_entries in Ke. destruct (array_like _); [discriminate|].
  inversion Ke; subst entries; clear Ke. destruct state as [api' group'].
  apply (ungrouped_resources_loop _ _ _ _ copies) in Hl; [|exact C].
  destruct Hl as (made & C' & M').
  exists paths, has_copy. split; [reflexivity|]. split; [exact Pp|]. split; [exact Dd|].
  cbn [fst]. unfold children. now rewrite C', map_app, M, M'.
Qed.
End Root.

Lemma ungrouped_document_lists_its_paths_witness :
  exists swagger' root log,
    build_api false None 0 joined serialized serialized two_paths_document
    = (swagger', Ret (root, log))
    /\ swagger' = two_paths_document
    /\ map element_name (children root) = ["copy"; "resource"; "resource"].
Proof.
  eexists. eexists. eexists. split; [reflexivity|].
  destruct (ungrouped_document_lists_its_paths false None 0 joined serialized serialized
              two_paths_document _ _ _ eq_refl eq_refl)
    as (paths & has_copy & E & Pp & D & M).
  split; [exact E|reflexivity].
Defined.

(** ** Source maps only on request *)

Lemma unmapped_refract : forall v, unmapped (refract v) = true.
Proof.
  fix IH 1. intros v. destruct v as [| | | | | |items|fields]; try reflexivity.
  - cbn [refract unmapped forallb andb]. revert items. fix IHl 1.
    intros [|x items]; cbn [map forallb]; [reflexivity|]. now rewrite IH, IHl.
  - cbn [refract unmapped forallb andb]. revert fields. fix IHl 1.
    intros [|[k x] fields]; cbn [map forallb]; [reflexivity|].
    cbn [unmapped forallb andb fst snd]. now rewrite IH, IHl.
Qed.

Lemma unmapped_parts n m a c :
  unmapped (Element n m a c) = true ->
  forallb (fun kv : string * element => let '(_, v) := kv in unmapped v) m = true
  /\ forallb (fun kv : string * element =>
                let '(k, v) := kv in negb (String.eqb k "sourceMap") && unmapped v) a = true
  /\ unmapped (Element n [] [] c) = true.
Proof.
  cbn [unmapped forallb andb]. intros H. apply andb_true_iff in H. destruct H as [H Hc].
  apply andb_true_iff in H. tauto.
Qed.

Lemma unmapped_whole n m a c :
  forallb (fun kv : string * element => let '(_, v) := kv in unmapped v) m = true ->
  forallb (fun kv : string * element =>
             let '(k, v) := kv in negb (String.eqb k "sourceMap") && unmapped v) a = true ->
  unmapped (Element n [] [] c) = true ->
  unmapped (Element n m a c) = true.
Proof.
  cbn [unmapped forallb andb]. intros -> -> ->. reflexivity.
Qed.

Lemma unmapped_content n n' c : unmapped (Element n [] [] c) = unmapped (Element n' [] [] c).
Proof. reflexivity. Qed.

Lemma unmapped_new_value n v : unmapped (new_value n v) = true.
Proof.
  unfold new_value, content_from. destruct v; try reflexivity;
    match goal with
    | |- context [refract ?v] =>
        pose proof (unmapped_refract v) as H; destruct (refract v) as [n' m a c];
        apply unmapped_parts in H; cbn [content_of]; tauto
    end.
Qed.

Lemma unmapped_new_array n : unmapped (new_array n) = true.
Proof. reflexivity. Qed.

Lemma unmapped_new_member k v : unmapped (new_member k v) = true.
Proof.
  unfold new_member, refract_opt. cbn [unmapped forallb andb].
  destruct k, v; cbn [andb]; rewrite ?unmapped_refract; reflexivity.
Qed.

Lemma forallb_set_entry (P : string * element -> bool) k v m :
  (forall k', String.eqb k' k = true -> P (k', v) = true) ->
  forallb P m = true -> forallb P (set_entry k v m) = true.
Proof.
  intros Pv. induction m as [|[k' e] m IH]; cbn [set_entry forallb].
  - intros _. rewrite Pv by apply String.eqb_refl. reflexivity.
  - intros H. apply andb_true_iff in H. destruct H as [H1 H2].
    destruct (String.eqb k' k) eqn:E; cbn [forallb].
    + now rewrite Pv, H2.
    + now rewrite H1, IH.
Qed.

Lemma unmapped_set_meta k v e :
  unmapped v = true -> unmapped e = true -> unmapped (set_meta k v e) = true.
Proof.
  intros Hv He. destruct e as [n m a c]. apply unmapped_parts in He.
  destruct He as (Hm & Ha & Hc). cbn [set_meta]. apply unmapped_whole; try assumption.
  apply forallb_set_entry; [intros; exact Hv|exact Hm].
Qed.

Lemma unmapped_set_attribute k v e :
  String.eqb k "sourceMap" = false ->
  unmapped v = true -> unmapped e = true -> unmapped (set_attribute k v e) = true.
Proof.
  intros Nk Hv He. destruct e as [n m a c]. apply unmapped_parts in He.
  destruct He as (Hm & Ha & Hc). cbn [set_attribute]. apply unmapped_whole; try assumption.
  apply forallb_set_entry; [|exact Ha].
  intros k' E. apply String.eqb_eq in E. subst k'. now rewrite Nk, Hv.
Qed.

Lemma unmapped_push x e :
  unmapped x = true -> unmapped e = true -> unmapped (push x e) = true.
Proof.
  intros Hx He. destruct e as [n m a [| |items|]]; try exact He.
  apply unmapped_parts in He. destruct He as (Hm & Ha & Hc).
  cbn [push]. apply unmapped_whole; try assumption.
  cbn [unmapped forallb andb] in *. rewrite forallb_app, Hc. cbn. now rewrite Hx.
Qed.

Lemma unmapped_get_entry k m x :
  forallb (fun kv : string * element => let '(_, v) := kv in unmapped v) m = true ->
  get_entry k m = Some x -> unmapped x = true.
Proof.
  induction m as [|[k' e] m IH]; cbn [get_entry forallb]; [discriminate|].
  intros H G. apply andb_true_iff in H. destruct H as [H1 H2].
  destruct (String.eqb k' k); [inversion G; now subst|now apply IH].
Qed.

Lemma unmapped_push_class c e : unmapped e = true -> unmapped (push_class c e) = true.
Proof.
  intros He. unfold push_class. apply unmapped_set_meta; [|exact He].
  apply unmapped_push; [reflexivity|].
  destruct (get_entry "classes" (meta e)) as [cl|] eqn:G; [|reflexivity].
  destruct e as [n m a ct]. apply unmapped_parts in He. destruct He as (Hm & _).
  now apply (unmapped_get_entry "classes" m).
Qed.

Lemma unmapped_children e x :
  unmapped e = true -> In x (children e) -> unmapped x = true.
Proof.
  destruct e as [n m a [| |items|]]; cbn [children content_of]; try contradiction.
  intros H I. apply unmapped_parts in H. destruct H as (_ & _ & H).
  cbn [unmapped forallb andb] in H. rewrite forallb_forall in H. now apply H.
Qed.

Lemma unmapped_nth e i d :
  unmapped e = true -> unmapped d = true -> unmapped (nth i (children e) d) = true.
Proof.
  intros He Hd. destruct (nth_in_or_default i (children e) d) as [I | ->]; [|exact Hd].
  now apply (unmapped_children e).
Qed.

Lemma unmapped_with_children items e :
  forallb unmapped items = true -> unmapped e = true ->
  unmapped (with_children items e) = true.
Proof.
  intros Hi He. destruct e as [n m a c]. apply unmapped_parts in He.
  destruct He as (Hm & Ha & _). cbn [with_children]. apply unmapped_whole; assumption.
Qed.

Lemma unmapped_update_at f :
  (forall e, unmapped e = true -> unmapped (f e) = true) ->
  forall place e, unmapped e = true -> unmapped (update_at place f e) = true.
Proof.
  intros Hf. induction place as [|i place IH]; intros e He; cbn [update_at]; [now apply Hf|].
  destruct e as [n m a [| |items|]]; try exact He.
  apply unmapped_parts in He. destruct He as (Hm & Ha & Hc).
  apply unmapped_whole; try assumption. cbn [unmapped forallb andb] in *.
  clear - Hc IH. revert i. induction items as [|x items IHi]; intros i; [destruct i; reflexivity|].
  cbn [forallb] in Hc. apply andb_true_iff in Hc. destruct Hc as [H1 H2].
  destruct i as [|i]; cbn [update_nth forallb].
  - now rewrite IH, H2.
  - now rewrite H1, IHi.
Qed.

Lemma unmapped_createTransaction method : unmapped (createTransaction method) = true.
Proof. unfold createTransaction. destruct (nonempty method); reflexivity. Qed.

Lemma unmapped_convertParameterToElement parameter member :
  convertParameterToElement parameter = Ret member -> unmapped member = true.
Proof.
  unfold convertParameterToElement. intros H.
  destruct (prop parameter "type") as [type| | |]; try discriminate. cbn [bind] in H.
  destruct (prop parameter "name") as [name| | |]; try discriminate. cbn [bind] in H.
  destruct (prop parameter "description") as [description| | |]; try discriminate.
  cbn [bind] in H.
  destruct (prop parameter "required") as [required| | |]; try discriminate. cbn [bind] in H.
  destruct (prop parameter "default") as [default| | |]; try discriminate. cbn [bind] in H.
  injection H as <-. cbv zeta.
  match goal with
  | |- context [Some ?placeholder] => assert (P : unmapped placeholder = true)
  end.
  { destruct (truthy default);
      [apply unmapped_set_attribute; [reflexivity|apply unmapped_refract|]|];
      repeat match goal with |- context [if ?c then _ else _] => destruct c end;
      reflexivity. }
  match goal with
  | |- context [Element "member" [] [] ?c] =>
      assert (M : unmapped (Element "member" [] [] c) = true)
  end.
  { cbn [unmapped forallb andb]. rewrite P. unfold refract_opt.
    destruct name; rewrite ?unmapped_refract; reflexivity. }
  destruct (truthy description), (truthy required);
    repeat first
      [ exact M
      | apply unmapped_set_attribute;
        [reflexivity|first [apply unmapped_refract|reflexivity]|]
      | apply unmapped_set_meta; [apply unmapped_refract|]
      | apply unmapped_whole;
        [cbn [forallb]; rewrite ?unmapped_refract; reflexivity|reflexivity|] ].
Qed.

Ltac unmapped_solve :=
  repeat first
    [ assumption
    | reflexivity
    | apply unmapped_refract
    | apply unmapped_new_value
    | apply unmapped_new_member
    | apply unmapped_createTransaction
    | apply unmapped_push
    | apply unmapped_push_class
    | apply unmapped_set_meta
    | apply unmapped_set_attribute; [reflexivity| |]
    | apply unmapped_nth
    | match goal with
      | |- unmapped (if ?c then _ else _) = true => destruct c
      end ].

Section Unmapped.
Variables (gsm : bool) (ast : option node) (fuel : nat).
Variable buildUriTemplate : string -> string -> value -> list value -> string.
Variables (JSON_stringify JSON_stringify_indented : value -> value).
Hypothesis off : gsm = false \/ ast = None.

Lemma mapped_off e p : mapped gsm ast fuel e p = unit_ e.
Proof. unfold mapped. destruct off as [-> | ->]; [reflexivity|destruct gsm; reflexivity]. Qed.

Lemma returns_mapped_off e p :
  unmapped e = true ->
  returns (fun x => unmapped x = true) (mapped gsm ast fuel e p).
Proof. intros H. rewrite mapped_off. now apply returns_unit. Qed.

Ltac returns_step :=
  match goal with
  | |- returns _ (unit_ _) => apply returns_unit
  | |- returns _ (bindM (lift _) _) => apply returns_then; intros ?
  | |- returns _ (bindM (setupAnnotation _ _ _ _ _) _) => apply returns_then; intros ?
  | |- returns _ (bindM (mapped _ _ _ _ _) _) =>
      apply (returns_bind (fun x => unmapped x = true));
      [apply returns_mapped_off|intros ? ?]
  | |- returns _ (mapped _ _ _ _ _) => apply returns_mapped_off
  | |- returns _ (if ?c then _ else _) => destruct c
  | |- returns _ (match ?x with _ => _ end) => destruct x
  | |- returns _ Throw => intros ? ? ?; discriminate
  end.

Lemma unmapped_header_member base headerName header :
  returns (fun x => unmapped x = true) (header_member gsm ast fuel base headerName header).
Proof. unfold header_member. repeat first [returns_step|unmapped_solve]. Qed.

Lemma unmapped_asset jsonSchema :
  unmapped (createAssetFromJsonSchema JSON_stringify jsonSchema) = true.
Proof. unfold createAssetFromJsonSchema. unmapped_solve. Qed.

Lemma unmapped_example_transaction operation method statusCode responseValue
    bodyParameters contentType responseBody :
  returns (fun x => unmapped x = true)
    (example_transaction gsm ast fuel JSON_stringify JSON_stringify_indented
       operation method statusCode responseValue bodyParameters contentType
       responseBody).
Proof.
  unfold example_transaction.
  apply (returns_bind (fun x => unmapped x = true));
    [apply returns_mapped_off, unmapped_createTransaction|intros transaction Ht].
  apply (returns_bind (fun x => unmapped x = true));
    [apply returns_mapped_off; unmapped_solve|intros request Hq].
  apply (returns_bind (fun x => unmapped x = true));
    [destruct (nonempty statusCode);
     [apply returns_mapped_off|apply returns_unit]; unmapped_solve|intros response Hr].
  apply returns_then. intros description.
  apply (returns_bind (fun x => unmapped x = true));
    [repeat first [returns_step|unmapped_solve]|intros response1 Hr1].
  apply (returns_bind (fun x => unmapped x = true));
    [repeat first [returns_step|unmapped_solve]|intros headers Hh].
  apply returns_then. intros declared.
  apply (returns_bind (fun x => unmapped x = true)).
  { destruct (truthy declared); [|now apply returns_unit].
    apply returns_for_each; [|exact Hh]. intros kv s0 Hs.
    apply (returns_bind (fun x => unmapped x = true));
      [apply unmapped_header_member|intros member Hm].
    apply returns_unit. unmapped_solve. }
  intros headers1 Hh1.
  apply (returns_bind (fun x => unmapped x = true)).
  { apply returns_for_each; [|exact Hq]. intros bodyParameter s0 Hs.
    apply returns_then. intros schema. apply returns_unit.
    apply unmapped_push; [apply unmapped_asset|exact Hs]. }
  intros request1 Hq1.
  apply (returns_bind (fun x => unmapped x = true)).
  { destruct (strict_eq responseBody Undefined).
    - apply returns_unit. unmapped_solve.
    - apply (returns_bind (fun x => unmapped x = true));
        [apply returns_mapped_off; unmapped_solve|intros bodyAsset Hb].
      apply returns_unit. unmapped_solve. }
  intros response2 Hr2.
  do 3 (apply returns_then; intros ?). apply returns_unit.
  apply unmapped_with_children; [|exact Ht].
  cbn [forallb]. rewrite Hq1, andb_true_r, andb_true_l.
  destruct (String.eqb statusCode "null");
    [|apply unmapped_set_attribute; [reflexivity|reflexivity|]];
    (destruct (truthy (or_else a a1));
     [apply unmapped_push; [apply unmapped_asset|exact Hr2]|exact Hr2]).
Qed.

Lemma unmapped_response_transactions operation method bodyParameters statusCode
    responseValue transition :
  unmapped transition = true ->
  returns (fun x => unmapped x = true)
    (response_transactions gsm ast fuel JSON_stringify JSON_stringify_indented
       operation method bodyParameters statusCode responseValue transition).
Proof.
  intros H. unfold response_transactions. do 2 (apply returns_then; intros ?).
  apply returns_for_each; [|exact H]. intros kv s0 Hs.
  apply (returns_bind (fun x => unmapped x = true));
    [apply unmapped_example_transaction|intros t Ht].
  apply returns_unit. unmapped_solve.
Qed.

Lemma unmapped_operation_transactions operation method bodyParameters responses
    transition :
  unmapped transition = true ->
  returns (fun x => unmapped x = true)
    (operation_transactions gsm ast fuel JSON_stringify JSON_stringify_indented
       operation method bodyParameters responses transition).
Proof.
  intros H. unfold operation_transactions. do 2 (apply returns_then; intros ?).
  destruct (omit_by isExtension (Obj (omit_keys ["default"] responses))),
    bodyParameters; apply returns_then; intros entries;
    (apply returns_for_each;
     [intros kv s0 Hs; now apply unmapped_response_transactions|unmapped_solve]).
Qed.

Lemma unmapped_uri_members operation uriParameters :
  returns (fun x => unmapped x = true) (uri_members gsm ast fuel operation uriParameters).
Proof.
  unfold uri_members. apply returns_for_each; [|reflexivity]. intros ip s0 Hs.
  apply (returns_bind (fun x => unmapped x = true)).
  - intros m l E. apply lift_Ret in E. destruct E as [E _].
    now apply unmapped_convertParameterToElement in E.
  - intros member Hm. repeat first [returns_step|unmapped_solve].
Qed.

Lemma unmapped_operation_transition basePath href pathObjectParameters method
    methodValue resource :
  unmapped resource = true ->
  returns (fun x => unmapped x = true)
    (operation_transition gsm ast fuel buildUriTemplate JSON_stringify
       JSON_stringify_indented basePath href pathObjectParameters method methodValue
       resource).
Proof.
  intros H. unfold operation_transition.
  apply (returns_bind (fun x => unmapped x = true));
    [apply returns_mapped_off; reflexivity|intros t0 H0].
  do 8 (apply returns_then; intros ?). cbv zeta.
  apply returns_then. intros summary.
  apply (returns_bind (fun x => unmapped x = true));
    [repeat first [returns_step|unmapped_solve]|intros t1 H1].
  apply returns_then. intros description.
  apply (returns_bind (fun x => unmapped x = true));
    [repeat first [returns_step|unmapped_solve]|intros t2 H2].
  apply returns_then. intros operationId. cbv zeta.
  apply (returns_bind (fun x => unmapped x = true)).
  { destruct a3 as [|u us].
    - apply returns_unit. unmapped_solve.
    - apply (returns_bind (fun x => unmapped x = true));
        [apply unmapped_uri_members|intros hv Hv].
      apply returns_unit. unmapped_solve. }
  intros t3 H3. apply returns_then. intros responses.
  apply (returns_bind (fun x => unmapped x = true));
    [now apply unmapped_operation_transactions|intros t4 H4].
  apply returns_unit. unmapped_solve.
Qed.

Lemma unmapped_path_parameter href ip hrefVariables :
  unmapped hrefVariables = true ->
  returns (fun x => unmapped x = true) (path_parameter gsm ast fuel href ip hrefVariables).
Proof.
  intros H. unfold path_parameter. apply returns_then. intros where_.
  destruct (is_str "query" where_ || is_str "path" where_)%bool.
  - apply (returns_bind (fun x => unmapped x = true)).
    + intros m l E. apply lift_Ret in E. destruct E as [E _].
      now apply unmapped_convertParameterToElement in E.
    + intros member Hm. repeat first [returns_step|unmapped_solve].
  - repeat first [returns_step|unmapped_solve].
Qed.

Lemma unmapped_new_group swagger groupName :
  returns (fun x => unmapped x = true) (new_group swagger groupName).
Proof.
  unfold new_group. apply returns_then. intros tags.
  destruct tags; try (apply returns_unit; unmapped_solve).
  - apply returns_for_each; [|unmapped_solve]. intros tag s0 Hs.
    do 2 (apply returns_then; intros ?).
    destruct (_ && _)%bool; apply returns_unit; unmapped_solve.
  - destruct (truthy _); [intros ? ? ?; discriminate|]. apply returns_unit. unmapped_solve.
Qed.

Lemma unmapped_path_resource swagger basePath useGroups href pathValue state :
  unmapped (fst state) = true ->
  returns (fun s => unmapped (fst s) = true)
    (path_resource gsm ast fuel buildUriTemplate JSON_stringify
       JSON_stringify_indented swagger basePath useGroups href pathValue state).
Proof.
  destruct state as [api group]. cbn [fst]. intros H. unfold path_resource.
  apply (returns_bind (fun x => unmapped x = true));
    [apply returns_mapped_off; reflexivity|intros r0 H0].
  do 3 (cbv zeta; apply returns_then; intros ?).
  apply (returns_bind (fun s => unmapped (fst s) = true)).
  { destruct (truthy _); [|now apply returns_unit].
    destruct (find _ _); [|now apply returns_unit].
    apply (returns_bind (fun x => unmapped x = true));
      [apply unmapped_new_group|intros created Hc].
    apply returns_unit. cbn [fst]. unmapped_solve. }
  intros [api0 group0] Ha. cbn [fst] in Ha.
  do 3 (cbv zeta; apply returns_then; intros ?).
  apply (returns_bind (fun x => unmapped x = true)).
  { destruct a4; [|apply returns_unit; unmapped_solve].
    destruct (or_else a2 (Arr [])); try (intros ? ? ?; discriminate).
    apply (returns_bind (fun x => unmapped x = true)).
    - apply returns_for_each; [|reflexivity]. intros ip s0 Hs.
      now apply unmapped_path_parameter.
    - intros hv Hv. apply returns_unit. unmapped_solve. }
  intros r1 H1. cbv zeta. apply returns_then. intros entries.
  apply (returns_bind (fun x => unmapped x = true)).
  { apply returns_for_each; [|exact H1]. intros kv s0 Hs.
    now apply unmapped_operation_transition. }
  intros r2 H2. apply returns_unit. cbn [fst]. unfold push_to.
  apply unmapped_update_at; [|exact Ha]. intros e He. now apply unmapped_push.
Qed.

Lemma unmapped_document_level swagger :
  returns (fun r => unmapped (snd r) = true) (document_level gsm ast fuel swagger).
Proof.
  unfold document_level. apply returns_then. intros basePath.
  apply (returns_bind (fun x => unmapped x = true)).
  { unfold add_info. apply returns_then. intros info.
    destruct (truthy info); [|apply returns_unit; reflexivity].
    apply returns_then. intros title_.
    apply (returns_bind (fun x => unmapped x = true));
      [repeat first [returns_step|unmapped_solve]|intros api1 H1].
    repeat first [returns_step|unmapped_solve]. }
  intros api1 H1.
  apply (returns_bind (fun x => unmapped x = true)).
  { unfold add_host. apply returns_then. intros host.
    destruct (truthy host); [|now apply returns_unit].
    apply returns_then. intros schemes. apply returns_then. intros hostname.
    apply (returns_bind (fun x => unmapped x = true));
      [apply returns_mapped_off; unmapped_solve|intros member Hm].
    apply returns_unit. unmapped_solve. }
  intros api2 H2. apply returns_then. intros u. now apply returns_unit.
Qed.

Lemma unmapped_build_api swagger :
  returns (fun x => unmapped x = true)
    (snd (build_api gsm ast fuel buildUriTemplate JSON_stringify
            JSON_stringify_indented swagger)).
Proof.
  unfold build_api.
  pose proof (unmapped_document_level swagger) as D.
  destruct (document_level gsm ast fuel swagger) as [[[basePath api] log]| | |];
    try (intros a l H; discriminate).
  destruct (useResourceGroups swagger) as [swagger' useGroups]. cbn [snd].
  apply returns_then. intros _. apply returns_then. intros g.
  unfold resources. do 2 (apply returns_then; intros ?).
  apply (returns_bind (fun s => unmapped (fst s) = true)).
  - apply returns_for_each; [|exact (D (basePath, api) log eq_refl)].
    intros kv s0 Hs. now apply unmapped_path_resource.
  - intros s Hs. now apply returns_unit.
Qed.
End Unmapped.

Lemma roots_of_result early reported root lost :
  Forall (fun a => is_annotation AST_UNAVAILABLE a = true) early ->
  Forall (fun a => is_annotation VALIDATION_ERROR a = true) reported ->
  root_like root ->
  Forall (fun a => is_annotation DATA_LOST a = true) lost ->
  roots (early ++ reported ++ root :: lost) = [root].
Proof.
  intros Fe Fr Rr Fl. unfold roots. rewrite !filter_app.
  fold (roots early) (roots reported).
  rewrite (roots_of_annotations _ _ Fe), (roots_of_annotations _ _ Fr).
  change (root :: lost) with ([root] ++ lost). rewrite filter_app.
  fold (roots [root]) (roots lost).
  now rewrite (roots_of_root _ Rr), (roots_of_annotations _ _ Fl).
Qed.

(** X24: source maps only on request.  When [generateSourceMap] is false,
    or when there is no AST (as for every source passed in as a loaded
    object), the root category that a completed run of [parse] hands to
    [done] carries no source map anywhere: no element of the tree, at any
    depth, in content, [meta] or [attributes], has a [sourceMap]
    attribute. *)
Theorem source_maps_only_on_request
    (safeLoad : string -> option value) (compose : string -> option (option node))
    (validate : value -> validation)
    (buildUriTemplate : string -> string -> value -> list value -> string)
    (JSON_stringify JSON_stringify_indented : value -> value)
    (fuel : nat) (gsm : bool) (src : source) (calls : list done_call) :
  gsm = false \/ fst (compose_ast compose fuel src) = None ->
  snd (parse safeLoad compose validate buildUriTemplate JSON_stringify
         JSON_stringify_indented fuel gsm src) = Ret calls ->
  Forall (fun call => forallb unmapped (roots (result call)) = true) calls.
Proof.
  intros Off H. destruct (load safeLoad src) as [loaded|] eqn:L.
  - destruct (parse_after_loading _ _ _ _ _ _ _ _ _ _ _ L H)
      as (early & rest & failure & loaded' & _ & Fe & W & -> & C).
    constructor; [|constructor]. cbn [result].
    destruct C as [(e & -> & -> & V)
                  | (-> & reported & root & lost & -> & Fr & Rr & Fl & swagger & Bu)].
    + rewrite app_nil_r. now rewrite (roots_of_annotations _ _ Fe).
    + rewrite (roots_of_result _ _ _ _ Fe Fr Rr Fl). cbn [forallb].
      rewrite andb_true_r.
      exact (unmapped_build_api gsm _ fuel buildUriTemplate JSON_stringify
               JSON_stringify_indented Off swagger root lost Bu).
  - unfold parse in H. rewrite L in H. cbn [snd bind] in H.
    unfold makeAnnotation in H. cbn in H. inversion H; subst calls.
    constructor; [reflexivity|constructor].
Qed.

Lemma source_maps_only_on_request_witness :
  parse loads_titled composes_titled accepting joined serialized serialized 5 true
    (SourceText "info: {title: T}")
  = (SourceText "info: {title: T}",
     Ret [ {| error := None;
              result := [set_meta "title"
                           (set_attribute "sourceMap" (source_map (Some 7%Z) (Some 15%Z))
                              (refract (Str "T")))
                           empty_root] |} ])
  /\ Forall (fun call => forallb unmapped (roots (result call)) = true)
       [ {| error := None;
            result := [set_meta "title" (refract (Str "T")) empty_root] |} ].
Proof.
  split; [reflexivity|].
  apply (source_maps_only_on_request loads_titled composes_titled accepting joined
           serialized serialized 5 false (SourceText "info: {title: T}"));
    [now left|reflexivity].
Defined.

(** ** Keys that contain a dot *)

Lemma split_at_separator sep x y :
  forallb (fun c => negb (Ascii.eqb c sep)) (list_ascii_of_string x) = true ->
  split sep (x ++ String sep y) = x :: split sep y.
Proof.
  induction x as [|c x IH]; cbn [append split list_ascii_of_string forallb].
  - intros _. now rewrite Ascii.eqb_refl.
  - intros H. apply andb_true_iff in H. destruct H as [H1 H2].
    apply negb_true_iff in H1. rewrite H1, (IH H2). reflexivity.
Qed.

(** X25: a key that contains a dot.  A path given as text is cut at every
    dot, so a key of [paths] that contains a dot (a path template such as
    [/pets.json]) is not found by the path [paths.<key>], which is what the
    builder asks for when it maps a resource: the lookup returns null
    unless the part of the key before its first dot happens to be a key
    too.  The same key given as one segment of an array path, as in the
    path of a validation error, is found. *)
Theorem dotted_key_is_found_only_by_array_path
    (fuel : nat) (before after inner_before inner_after : list (node * node))
    (kp k v : node) (s e s' e' : Z) (a b : string) :
  let href := (a ++ String "." b)%string in
  let inner := MappingNode (inner_before ++ (k, v) :: inner_after) s' e' in
  let ast := MappingNode (before ++ (kp, inner) :: after) s e in
  forallb (passed_over "paths") before = true ->
  key_is kp "paths" = true ->
  plain a = true ->
  forallb (fun c => negb (Ascii.eqb c ".")) (list_ascii_of_string a) = true ->
  plain href = true ->
  forallb (passed_over href) inner_before = true ->
  key_is k href = true ->
  forallb (passed_over a) (inner_before ++ (k, v) :: inner_after) = true ->
  getPosition (S (S fuel)) ast (PathArray ["paths"; href])
  = Ret (Range (Some (start_pointer k)) (Some (end_pointer v)))
  /\ getPosition (S (S fuel)) ast (PathString ("paths." ++ href)) = Ret NotFound.
Proof.
  intros href inner ast B K Pa Da Ph Bi Ki Na. unfold getPosition. split.
  - cbn [pieces_of]. unfold ast. rewrite walk_enters_key by (assumption || reflexivity).
    unfold inner. apply last_plain_segment; try assumption.
    + now apply plain_nonempty.
    + unfold plain in Ph. apply andb_true_iff in Ph. destruct Ph as [_ Ph].
      destruct (match_index href); [discriminate|reflexivity].
  - cbn [pieces_of].
    change ("paths." ++ href)%string with ("paths" ++ String "." href)%string.
    rewrite split_at_separator by reflexivity.
    unfold href. rewrite (split_at_separator _ _ _ Da).
    unfold ast. rewrite walk_enters_key by (assumption || reflexivity).
    unfold inner. apply external_reference_not_found; [now apply plain_nonempty|].
    now rewrite (stripped_plain _ Pa).
Qed.

Lemma dotted_key_is_found_only_by_array_path_witness :
  getPosition 2 dotted_key_ast (PathArray ["paths"; "/pets.json"])
  = Ret (Range (Some 8%Z) (Some 22%Z))
  /\ getPosition 2 dotted_key_ast (PathString "paths./pets.json") = Ret NotFound.
Proof.
  apply (dotted_key_is_found_only_by_array_path 0 [] [] [] []
           (ScalarNode "paths" 0 5) (ScalarNode "/pets.json" 8 18) (MappingNode [] 20 22)
           0 23 7 23 "/pets" "json"); reflexivity.
Defined.

(** ** Well-formed documents are parsed *)

Lemma nat_to_string_digit i :
  exists c rest, nat_to_string i = String c rest /\ is_digit c = true.
Proof.
  unfold nat_to_string, NilZero.string_of_uint.
  destruct (Nat.to_uint i); cbn; eauto.
Qed.

Lemma item_named_letters k i items :
  match k with String c _ => is_digit c = false | EmptyString => True end ->
  item_named k i items = Undefined.
Proof.
  intros K. revert i. induction items as [|x items IH]; intros i; cbn [item_named];
    [reflexivity|].
  destruct (nat_to_string_digit i) as (c & rest & -> & D).
  destruct k as [|c' k']; [cbn; apply IH|].
  cbn [String.eqb]. destruct (Ascii.eqb_spec c c') as [->|N]; [congruence|apply IH].
Qed.

Lemma char_named_letters k i s :
  match k with String c _ => is_digit c = false | EmptyString => True end ->
  char_named k i s = Undefined.
Proof.
  intros K. revert i. induction s as [|x s IH]; intros i; cbn [char_named];
    [reflexivity|].
  destruct (nat_to_string_digit i) as (c & rest & -> & D).
  destruct k as [|c' k']; [cbn; apply IH|].
  cbn [String.eqb]. destruct (Ascii.eqb_spec c c') as [->|N]; [congruence|apply IH].
Qed.

Lemma lookup_of_objects k fields :
  forallb (fun kv => is_obj (snd kv)) fields = true ->
  lookup k fields = Undefined \/ is_obj (lookup k fields) = true.
Proof.
  induction fields as [|[k' v] fields IH]; cbn [lookup forallb snd]; [now left|].
  intros H. apply andb_true_iff in H. destruct H as [H1 H2].
  destruct (String.eqb k' k); [now right|now apply IH].
Qed.

Lemma objects_are_not_array_like fields :
  forallb (fun kv => is_obj (snd kv)) fields = true -> array_like fields = false.
Proof.
  intros H. unfold array_like.
  destruct (lookup_of_objects "length" fields H) as [-> | O]; [reflexivity|].
  destruct (lookup "length" fields); try reflexivity; discriminate.
Qed.

Lemma lookup_filter (keep : string -> bool) k fields :
  keep k = true ->
  lookup k (filter (fun kv => keep (fst kv)) fields) = lookup k fields.
Proof.
  intros K. induction fields as [|[k' v] fields IH]; cbn [filter lookup fst]; [reflexivity|].
  destruct (String.eqb k' k) eqn:E.
  - apply String.eqb_eq in E. subst k'. rewrite K. cbn [lookup]. now rewrite String.eqb_refl.
  - destruct (keep k'); cbn [lookup]; rewrite ?E; exact IH.
Qed.

Lemma forallb_impl {A} (P Q : A -> bool) l :
  (forall x, P x = true -> Q x = true) -> forallb P l = true -> forallb Q l = true.
Proof.
  intros I H. rewrite forallb_forall in *. auto.
Qed.

Lemma operation_ok_object v : operation_ok v = true -> is_obj v = true.
Proof. destruct v; try discriminate; reflexivity. Qed.

Lemma path_item_ok_object v : path_item_ok v = true -> is_obj v = true.
Proof. destruct v; try discriminate; reflexivity. Qed.

Lemma tags_of_entry v :
  entry_ok v = true ->
  exists tags, prop v "tags" = Ret tags /\ array_or_falsy tags = true.
Proof.
  destruct v as [| | | | |s|items|fields]; try discriminate; intros H; cbn [prop].
  - now exists Undefined.
  - now exists Undefined.
  - now exists Undefined.
  - change (String.eqb "tags" "length") with false. cbv iota.
    rewrite char_named_letters by reflexivity. now exists Undefined.
  - change (String.eqb "tags" "length") with false. cbv iota.
    rewrite item_named_letters by reflexivity. now exists Undefined.
  - exists (lookup "tags" fields). auto.
Qed.

Lemma path_tag_step tag operation rest :
  entry_ok operation = true ->
  exists tag', path_tag tag (operation :: rest) = path_tag tag' rest.
Proof.
  intros H. destruct (tags_of_entry _ H) as (tags & Pt & A).
  cbn [path_tag]. rewrite Pt. cbn [bind].
  destruct tags as [| | |[]|n|s|items|fields]; cbn [array_or_falsy truthy negb] in A;
    try discriminate; cbn [truthy bind]; eauto.
  - apply negb_true_iff in A. rewrite A. cbn [bind truthy]. eauto.
  - apply negb_true_iff in A. rewrite A. cbn [bind truthy]. eauto.
  - change (prop (Arr items) "length") with (Ret (Num (Z.of_nat (List.length items)))).
    cbn [bind]. destruct (truthy (Num (Z.of_nat (List.length items)))); [|eauto].
    cbn [greater_than bind].
    destruct (1 <? Z.of_nat (List.length items))%Z; [eauto|].
    change (prop (Arr items) "0") with (Ret (item_named "0" 0 items)). cbn [bind].
    destruct (strict_eq tag Null); eauto.
Qed.

Lemma path_tag_total operations :
  forallb entry_ok operations = true ->
  forall tag, exists tag', path_tag tag operations = Ret tag'.
Proof.
  induction operations as [|operation operations IH]; cbn [forallb]; intros H tag.
  - cbn. eauto.
  - apply andb_true_iff in H. destruct H as [H1 H2].
    destruct (path_tag_step tag operation operations H1) as (tag1 & ->). now apply IH.
Qed.

Lemma path_item_not_array_like fields :
  buildable (Obj fields) = true -> array_like fields = false.
Proof.
  unfold buildable. intros H. apply andb_true_iff in H. destruct H as [_ H].
  apply (forallb_impl _ (fun kv => is_obj (snd kv))) in H;
    [|intros kv; apply operation_ok_object].
  apply objects_are_not_array_like in H. unfold array_like in *.
  unfold omit_by, omit_keys, omit_by in H. cbn [all_entries] in H.
  rewrite (lookup_filter (fun k => negb (isExtension k))) in H by reflexivity.
  rewrite (lookup_filter
             (fun k => negb (existsb (String.eqb k) ["parameters"; "$ref"]))) in H
    by reflexivity.
  exact H.
Qed.

Lemma resolved_tag_total item :
  path_item_ok item = true -> exists tag, resolved_tag item = Ret tag.
Proof.
  destruct item as [| | | | | | |fields]; try discriminate.
  cbn [path_item_ok]. intros H. apply andb_true_iff in H. destruct H as [He Hb].
  unfold resolved_tag. cbn [truthy].
  rewrite (each_entries_object _ (path_item_not_array_like _ Hb)).
  apply path_tag_total. rewrite forallb_forall in *. intros v I.
  apply in_map_iff in I. destruct I as (kv & <- & I). now apply He.
Qed.

Lemma label_paths_total :
  forall entries paths tags,
    forallb (fun kv => path_item_ok (snd kv)) entries = true ->
    exists paths' tags', label_paths paths entries tags = (paths', Ret tags').
Proof.
  induction entries as [|[key item] entries IH]; intros paths tags H; cbn [label_paths].
  - eauto.
  - cbn [forallb snd] in H. apply andb_true_iff in H. destruct H as [H1 H2].
    destruct (resolved_tag_total _ H1) as (tag & ->).
    destruct (truthy tag); [|now apply IH].
    destruct item; try discriminate. now apply IH.
Qed.

Lemma useResourceGroups_total fields items :
  lookup "paths" fields = Obj items ->
  forallb (fun kv => path_item_ok (snd kv)) items = true ->
  exists useGroups, snd (useResourceGroups (Obj fields)) = Ret useGroups.
Proof.
  intros P H. unfold useResourceGroups. rewrite P. cbn [truthy].
  assert (A : array_like items = false).
  { apply objects_are_not_array_like.
    eapply forallb_impl; [|exact H]. intros kv. apply path_item_ok_object. }
  rewrite (each_entries_object _ A).
  destruct (label_paths_total items (Obj items) [] H) as (paths' & tags' & ->).
  cbn [snd bind]. eauto.
Qed.

Lemma parameters_ok_cases parameters :
  parameters_ok parameters = true ->
  parameters = Undefined
  \/ exists items, parameters = Arr items /\ forallb is_obj items = true.
Proof.
  destruct parameters; try discriminate; intros H; [now left|right; eauto].
Qed.

Lemma response_ok_parts response :
  response_ok response = true ->
  is_obj response = true
  /\ (forall headers, prop response "headers" = Ret headers ->
                      forallb (fun kv => is_obj (snd kv)) (own_entries headers) = true)
  /\ (forall declared, prop response "examples" = Ret declared ->
                       array_like (omit_keys ["schema"] declared) = false).
Proof.
  destruct response as [| | | | | | |fields]; try discriminate.
  cbn [response_ok prop]. intros H. apply andb_true_iff in H. destruct H as [H1 H2].
  apply negb_true_iff in H2. split; [reflexivity|].
  split; intros x E; inversion E; subst; assumption.
Qed.

Section Completes.
Variables (gsm : bool) (fuel : nat).
Variable buildUriTemplate : string -> string -> value -> list value -> string.
Variables (JSON_stringify JSON_stringify_indented : value -> value).

Lemma completes_responses operation method bodyParameters :
  forallb is_obj bodyParameters = true ->
  forall entries transition,
    forallb (fun kv => response_ok (snd kv)) entries = true ->
    completes
      (for_each
         (fun kv transition =>
            response_transactions gsm None fuel JSON_stringify JSON_stringify_indented
              operation method bodyParameters (fst kv) (snd kv) transition)
         entries transition).
Proof.
  intros Hb entries transition H. apply completes_for_each. intros kv t I.
  rewrite forallb_forall in H. specialize (H _ I).
  apply response_ok_parts in H. destruct H as (O & Hh & He).
  now apply completes_response_transactions.
Qed.

Lemma completes_operation_transactions_ok operation method bodyParameters responses
    transition :
  responses_ok responses = true ->
  forallb is_obj bodyParameters = true ->
  completes (operation_transactions gsm None fuel JSON_stringify JSON_stringify_indented
               operation method bodyParameters responses transition).
Proof.
  intros Hr Hb. unfold operation_transactions, responses_ok in *.
  completes_step. completes_step; [repeat completes_step|].
  assert (A : array_like (omit_by isExtension (Obj (omit_keys ["default"] responses)))
              = false).
  { apply objects_are_not_array_like. eapply forallb_impl; [|exact Hr].
    intros [k v] K. cbn [snd] in *. now destruct v. }
  destruct (omit_by isExtension (Obj (omit_keys ["default"] responses)))
    as [|first relevant] eqn:R.
  - destruct bodyParameters as [|b bs].
    + completes_step.
    + eapply completes_after_lift; [reflexivity|].
      now apply completes_responses.
  - assert (K : keyed_entries (first :: relevant) = Ret (first :: relevant))
      by (unfold keyed_entries; now rewrite A).
    destruct bodyParameters as [|b bs];
      (apply (completes_after_lift _ _ _ K); now apply completes_responses).
Qed.

Lemma completes_operation_transition_ok basePath href pathObjectParameters method
    methodValue resource :
  operation_ok methodValue = true ->
  completes (operation_transition gsm None fuel buildUriTemplate JSON_stringify
               JSON_stringify_indented basePath href pathObjectParameters method
               methodValue resource).
Proof.
  intros H. pose proof (operation_ok_object _ H) as O.
  destruct methodValue as [| | | | | | |fields]; try discriminate.
  cbn [operation_ok] in H. apply andb_true_iff in H. destruct H as [H Hr].
  apply andb_true_iff in H. destruct H as [_ Hp].
  apply parameters_ok_cases in Hp.
  unfold operation_transition.
  completes_step; [completes_step|].
  completes_step. completes_step; [repeat completes_step|].
  completes_step.
  match goal with
  | K : prop (Obj fields) "parameters" = Ret _ |- _ =>
      cbn [prop] in K; inversion K; subst; clear K
  end.
  destruct (parameters_in_objects ["query"] _ Hp) as (q & Pq & _).
  apply (completes_after_lift _ _ _ Pq).
  destruct (parameters_in_objects ["query"; "path"] _ Hp) as (u & Pu & Fu).
  apply (completes_after_lift _ _ _ Pu).
  destruct (parameters_in_objects ["body"] _ Hp) as (b & Pb & Fb).
  apply (completes_after_lift _ _ _ Pb).
  destruct (parameters_in_objects ["formData"] _ Hp) as (f & Pf & _).
  apply (completes_after_lift _ _ _ Pf).
  completes_step; [repeat completes_step|].
  completes_step. completes_step; [repeat completes_step|].
  completes_step. completes_step; [repeat completes_step|].
  completes_step. completes_step.
  { destruct u; [apply completes_unit|].
    completes_step; [now apply completes_uri_members|apply completes_unit]. }
  completes_step.
  match goal with
  | K : prop (Obj fields) "responses" = Ret _ |- _ =>
      cbn [prop] in K; inversion K; subst; clear K
  end.
  completes_step; [|apply completes_unit].
  now apply completes_operation_transactions_ok.
Qed.

Lemma completes_path_parameters href :
  forall (l : list (nat * value)) hrefVariables,
    forallb is_obj (map snd l) = true ->
    completes (for_each (path_parameter gsm None fuel href) l hrefVariables).
Proof.
  intros l hrefVariables H. apply completes_for_each. intros ip hv I.
  assert (O : is_obj (snd ip) = true).
  { rewrite forallb_forall in H. apply H. now apply in_map. }
  unfold path_parameter. completes_step.
  destruct (is_str "query" x || is_str "path" x)%bool.
  - destruct (convertParameterToElement_object _ O) as [member Hm].
    apply (completes_after_lift _ _ _ Hm). repeat completes_step.
  - repeat completes_step.
Qed.

Lemma completes_new_group swagger groupName :
  is_obj swagger = true ->
  (forall tags, prop swagger "tags" = Ret tags -> parameters_ok tags = true) ->
  completes (new_group swagger groupName).
Proof.
  intros O Ht. unfold new_group. completes_step. specialize (Ht _ Hx).
  destruct x; try discriminate; [apply completes_unit|].
  apply completes_for_each. intros tag g I. cbn [parameters_ok] in Ht.
  rewrite forallb_forall in Ht. specialize (Ht _ I). repeat completes_step.
Qed.
End Completes.

Lemma map_snd_indexed {A} (l : list A) : forall i, map snd (combine (seq i (List.length l)) l) = l.
Proof.
  induction l as [|x l IH]; intros i; cbn; [reflexivity|]. now rewrite IH.
Qed.

Lemma filter_assign_dropped (keep : string -> bool) k v fields :
  keep k = false ->
  filter (fun kv => keep (fst kv)) (assign k v fields)
  = filter (fun kv : string * value => keep (fst kv)) fields.
Proof.
  intros K. induction fields as [|[k' v'] fields IH]; cbn [assign filter fst].
  - now rewrite K.
  - destruct (String.eqb k' k) eqn:E; cbn [filter fst].
    + apply String.eqb_eq in E. subst k'. now rewrite K.
    + now rewrite IH.
Qed.

Lemma filter_twice {A} (f g : A -> bool) l :
  filter f (filter g l) = filter (fun x => (g x && f x)%bool) l.
Proof.
  induction l as [|x l IH]; cbn [filter]; [reflexivity|].
  destruct (g x); cbn [filter andb]; [destruct (f x)|]; now rewrite IH.
Qed.

(** Labelling a path item does not change what the builder reads of it. *)
Lemma buildable_labelled item : buildable item = true -> buildable (labelled item) = true.
Proof.
  intros H. unfold labelled.
  destruct (resolved_tag item) as [tag| | |]; try exact H.
  destruct item as [| | | | | | |fields]; try exact H.
  destruct (truthy tag); [|exact H].
  unfold buildable in *. rewrite lookup_assign_other by discriminate.
  unfold omit_keys, omit_by in *. cbn [all_entries] in *.
  rewrite filter_twice in *.
  rewrite (filter_assign_dropped
             (fun k => (negb (existsb (String.eqb k) ["parameters"; "$ref"])
                        && negb (isExtension k))%bool)) by reflexivity.
  exact H.
Qed.

Section CompletesPaths.
Variables (gsm : bool) (fuel : nat).
Variable buildUriTemplate : string -> string -> value -> list value -> string.
Variables (JSON_stringify JSON_stringify_indented : value -> value).

Lemma completes_path_resource swagger basePath useGroups href pathValue state :
  is_obj swagger = true ->
  (forall tags, prop swagger "tags" = Ret tags -> parameters_ok tags = true) ->
  buildable pathValue = true ->
  completes (path_resource gsm None fuel buildUriTemplate JSON_stringify
               JSON_stringify_indented swagger basePath useGroups href pathValue state).
Proof.
  intros Os Ht Hb. destruct state as [api group].
  destruct pathValue as [| | | | | | |fields]; try discriminate.
  pose proof Hb as Hb'. cbn [buildable] in Hb'. apply andb_true_iff in Hb'.
  destruct Hb' as [Hp Ho].
  assert (A : array_like
                (omit_by isExtension (Obj (omit_keys ["parameters"; "$ref"] (Obj fields))))
              = false).
  { apply objects_are_not_array_like. eapply forallb_impl; [|exact Ho].
    intros kv. apply operation_ok_object. }
  unfold path_resource.
  completes_step; [completes_step|].
  eapply completes_after_lift; [reflexivity|].
  eapply completes_after_lift; [reflexivity|].
  assert (G : exists groupName,
             (if useGroups then prop (Obj fields) "x-group-name" else Ret Undefined)
             = Ret groupName) by (destruct useGroups; cbn; eauto).
  destruct G as (groupName & G). apply (completes_after_lift _ _ _ G).
  apply completes_bind.
  { destruct (truthy groupName); [|apply completes_unit].
    destruct (find _ _); [|apply completes_unit].
    apply completes_bind; [now apply completes_new_group|intros; apply completes_unit]. }
  intros [api0 group0].
  eapply completes_after_lift; [reflexivity|].
  assert (C : exists n, prop (or_else (lookup "parameters" fields) (Arr [])) "length"
                        = Ret (Num n)).
  { destruct (parameters_ok_cases _ Hp) as [-> | (items & -> & _)]; cbn; eauto. }
  destruct C as (n & C). apply (completes_after_lift _ _ _ C).
  eapply completes_after_lift; [reflexivity|].
  apply completes_bind.
  { destruct (0 <? n)%Z; [|apply completes_unit].
    destruct (parameters_ok_cases _ Hp) as [E | (items & E & F)]; rewrite E.
    - cbn [or_else truthy]. apply completes_bind; [|intros; apply completes_unit].
      apply completes_for_each. intros ip hv [].
    - cbn [or_else truthy]. apply completes_bind; [|intros; apply completes_unit].
      apply completes_path_parameters. now rewrite map_snd_indexed. }
  intros resource. unfold keyed_entries. rewrite A.
  eapply completes_after_lift; [reflexivity|].
  apply completes_bind; [|intros; apply completes_unit].
  apply completes_for_each. intros kv r I.
  rewrite forallb_forall in Ho. specialize (Ho _ I).
  now apply completes_operation_transition_ok.
Qed.

Lemma completes_document_level swagger :
  document_ok swagger = true ->
  completes (document_level gsm None fuel swagger).
Proof.
  destruct swagger as [| | | | | | |fields]; try discriminate.
  cbn [document_ok]. intros H. apply andb_true_iff in H. destruct H as [H _].
  apply andb_true_iff in H. destruct H as [H _].
  apply andb_true_iff in H. destruct H as [Hb Hs].
  unfold document_level.
  assert (B : exists basePath, base_path (Obj fields) = Ret basePath).
  { unfold base_path. cbn [prop bind]. unfold or_else.
    destruct (lookup "basePath" fields) as [| | |[]|n|s|items|ofields];
      cbn [truthy negb] in *; try discriminate; eauto.
    - apply negb_true_iff in Hb. rewrite Hb. eauto.
    - destruct (nonempty s); eauto. }
  destruct B as (basePath & B). apply (completes_after_lift _ _ _ B).
  apply completes_bind.
  { unfold add_info. repeat completes_step. }
  intros api1. apply completes_bind.
  { unfold add_host. eapply completes_after_lift; [reflexivity|].
    destruct (truthy (lookup "host" fields)); [|apply completes_unit].
    eapply completes_after_lift; [reflexivity|].
    apply completes_bind; [|intros; repeat completes_step].
    destruct (lookup "schemes" fields) as [| | |[]|n|s|items|ofields];
      cbn [array_or_falsy truthy negb] in *; try discriminate;
      try apply completes_unit.
    - apply negb_true_iff in Hs. rewrite Hs. apply completes_unit.
    - apply negb_true_iff in Hs. rewrite Hs. apply completes_unit.
    - eapply completes_after_lift; [reflexivity|].
      eapply completes_after_lift; [reflexivity|].
      apply completes_bind; [repeat completes_step|intros].
      eapply completes_after_lift; [reflexivity|]. apply completes_unit. }
  intros api2. apply completes_bind; [|intros; apply completes_unit].
  unfold lost_at_root. repeat completes_step.
Qed.
End CompletesPaths.

Lemma forallb_map_snd {A B} (P : B -> bool) (f : A * B -> B) (l : list (A * B)) :
  forallb (fun kv => P (snd kv)) (map (fun kv => (fst kv, f kv)) l)
  = forallb (fun kv => P (f kv)) l.
Proof.
  induction l as [|x l IH]; cbn [map forallb snd]; [reflexivity|]. now rewrite IH.
Qed.

Lemma forallb_filter {A} (P keep : A -> bool) l :
  forallb P l = true -> forallb P (filter keep l) = true.
Proof.
  rewrite !forallb_forall. intros H x I. apply filter_In in I. now apply H.
Qed.

Lemma path_item_ok_buildable item : path_item_ok item = true -> buildable item = true.
Proof.
  destruct item; try discriminate. cbn [path_item_ok]. intros H.
  apply andb_true_iff in H. exact (proj2 H).
Qed.

Section CompletesDocument.
Variables (gsm : bool) (fuel : nat).
Variable buildUriTemplate : string -> string -> value -> list value -> string.
Variables (JSON_stringify JSON_stringify_indented : value -> value).

Lemma completes_resources fields items basePath useGroups root :
  parameters_ok (lookup "tags" fields) = true ->
  forallb (fun kv => path_item_ok (snd kv)) items = true ->
  completes (resources gsm None fuel buildUriTemplate JSON_stringify
               JSON_stringify_indented
               (Obj (assign "paths"
                       (Obj (map (fun kv => (fst kv, labelled (snd kv))) items)) fields))
               basePath useGroups root).
Proof.
  intros Ht Hi. unfold resources.
  eapply completes_after_lift; [reflexivity|].
  cbn [bind]. rewrite lookup_assign.
  assert (B : forallb (fun kv => buildable (snd kv))
                (omit_by isExtension
                   (Obj (map (fun kv => (fst kv, labelled (snd kv))) items))) = true).
  { unfold omit_by. cbn [all_entries]. apply forallb_filter.
    rewrite (forallb_map_snd buildable (fun kv => labelled (snd kv))).
    eapply forallb_impl; [|exact Hi]. intros kv K. cbn beta.
    now apply buildable_labelled, path_item_ok_buildable. }
  assert (A : array_like
                (omit_by isExtension
                   (Obj (map (fun kv => (fst kv, labelled (snd kv))) items))) = false).
  { apply objects_are_not_array_like. eapply forallb_impl; [|exact B].
    intros [k v]. cbn [snd]. destruct v; try discriminate; reflexivity. }
  unfold keyed_entries. rewrite A.
  eapply completes_after_lift; [reflexivity|].
  apply completes_bind; [|intros; apply completes_unit].
  apply completes_for_each. intros kv state I.
  rewrite forallb_forall in B. specialize (B _ I).
  apply completes_path_resource; [reflexivity| |exact B].
  intros tags T. cbn [prop] in T. inversion T; subst.
  now rewrite lookup_assign_other by discriminate.
Qed.

Lemma completes_build_api swagger :
  document_ok swagger = true ->
  exists root lost,
    snd (build_api gsm None fuel buildUriTemplate JSON_stringify
           JSON_stringify_indented swagger) = Ret (root, lost).
Proof.
  intros H. pose proof (completes_document_level gsm fuel swagger H) as D.
  destruct swagger as [| | | | | | |fields]; try discriminate.
  cbn [document_ok] in H. apply andb_true_iff in H. destruct H as [H Hp].
  apply andb_true_iff in H. destruct H as [_ Ht].
  destruct (lookup "paths" fields) as [| | | | | | |items] eqn:P; try discriminate.
  apply andb_true_iff in Hp. destruct Hp as [Hd Hi].
  destruct (useResourceGroups_total fields items P Hi) as (useGroups & U).
  assert (A : array_like items = false).
  { apply objects_are_not_array_like. eapply forallb_impl; [|exact Hi].
    intros kv. apply path_item_ok_object. }
  destruct (useResourceGroups_labels fields items useGroups P
              (distinct_keys_NoDup _ Hd) A U) as [F _].
  unfold build_api. destruct D as ([basePath root0] & log & ->).
  destruct (useResourceGroups (Obj fields)) as [swagger' groups].
  cbn [fst snd] in *. subst swagger' groups.
  destruct (completes_resources fields items basePath useGroups root0 Ht Hi)
    as (root & lost & E).
  cbn [snd]. unfold bindM, lift. cbn [bind]. rewrite E.
  cbn [app]. eauto.
Qed.
End CompletesDocument.

(** X26: a loaded document is parsed without an exception whenever the
    validator hands back a well-formed one.  For an object source whose
    validation leaves a document ([parser.api] is set) that is well formed
    in the sense of [document_ok], [parse] calls [done] exactly once,
    without an error argument, whether or not the validator reported
    errors and whatever the [generateSourceMap] flag. *)
Theorem well_formed_document_is_parsed safeLoad compose validate buildUriTemplate
    JSON_stringify JSON_stringify_indented fuel gsm fields loaded :
  with_defaults (Obj fields) = Ret loaded ->
  api (validate loaded) <> NoApi ->
  document_ok (swagger_of (validate loaded)) = true ->
  exists call,
    snd (parse safeLoad compose validate buildUriTemplate JSON_stringify
           JSON_stringify_indented fuel gsm (SourceObject (Obj fields)))
    = Ret [call]
    /\ error call = None
    /\ exists root, In root (result call) /\ root_like root.
Proof.
  intros W N D.
  destruct (with_defaults_object fields) as (fields' & W' & _).
  rewrite W in W'. inversion W'; subst loaded. clear W'.
  destruct (parse_of_object safeLoad compose validate buildUriTemplate JSON_stringify
              JSON_stringify_indented fuel gsm fields fields' W) as (early & ->).
  cbv zeta.
  destruct (completes_build_api gsm fuel buildUriTemplate JSON_stringify
              JSON_stringify_indented _ D) as (root & lost & B).
  pose proof (returns_build_api gsm None fuel buildUriTemplate JSON_stringify
                JSON_stringify_indented (swagger_of (validate (Obj fields')))) as R.
  unfold validated.
  assert (V : exists u reported,
             match err (validate (Obj fields')) with
             | Some e => validation_annotations None fuel e
             | None => unit_ tt
             end = Ret (u, reported)).
  { destruct (err (validate (Obj fields'))) as [e|].
    - destruct (completes_validation_annotations fuel e) as (u & l & ->). eauto.
    - unfold unit_. eauto. }
  destruct V as (u & reported & V).
  destruct (build_api gsm None fuel buildUriTemplate JSON_stringify
              JSON_stringify_indented (swagger_of (validate (Obj fields'))))
    as [swagger' built] eqn:Eb.
  cbn [snd] in B. subst built.
  assert (Rl : root_like root) by (eapply R; reflexivity).
  destruct (api (validate (Obj fields'))) as [|now|other] eqn:Ea; [now elim N| |];
    destruct (err (validate (Obj fields'))) as [e|]; rewrite V; cbn [snd bind fst];
    eexists; (split; [reflexivity|]); (split; [reflexivity|]);
    exists root; (split; [|exact Rl]); cbn [result];
    rewrite !in_app_iff; right; right; left; now left.
Qed.

Lemma well_formed_document_is_parsed_witness :
  exists call,
    snd (parse no_text no_ast accepting joined serialized serialized 0 true
           (SourceObject pet_store)) = Ret [call]
    /\ error call = None
    /\ exists root, In root (result call) /\ root_like root.
Proof.
  apply (well_formed_document_is_parsed no_text no_ast accepting joined serialized
           serialized 0 true _ pet_store).
  - reflexivity.
  - discriminate.
  - vm_compute. reflexivity.
Defined.
